(** * Smart tourist safety backend: risk grid, safety score, dispatch and fallback

    A shallow embedding of the core services of the backend:

    - [services/riskEngineService.js]  (module [RiskEngine]),
    - [services/safetyScoreService.js] (module [SafetyScore]),
    - [services/realtimeService.js]    (module [Realtime]),
    - [services/fallbackService.js]    (module [Fallback]),

    and, further down, the grid index in rounded arithmetic (module
    [Rounded]) and the connection handlers of the realtime service (module
    [Connections]).

    Conventions of the embedding.

    - A JavaScript number is an exact rational ([Q]); rounding of IEEE doubles,
      NaN and the infinities are not modelled.  Time stamps are integers
      ([Z], milliseconds since the epoch), as [Date.getTime()] returns them.
    - The transcendental functions of the runtime ([Math.exp], [Math.sin], ...),
      number formatting and parsing, the geospatial operator of the database
      and the reverse geocoder are parameters, gathered in records; every
      theorem holds for each interpretation of them.
    - A rejected promise or a thrown exception is the [Throw] outcome of
      [result].  In the risk engine the queries and writes of the database
      are taken to answer: the call that can fail is the geocoder's, and
      what is stated of a whole pass is stated of a pass that completes.
    - Where the edge of a grid cell matters, the quotient of
      [getGridIdAndCenter] is a parameter that is accurate within a
      tolerance (module [Rounded]).
    - [Date.now()] is read once per call of a modelled function. *)

From Stdlib Require Import ZArith QArith Qminmax Qround Qabs Lqa Lia.
From Stdlib Require Import String Ascii List DecimalString Sorted.
From stdpp Require Import base option list gmap strings.

Import ListNotations.
Local Open Scope Z_scope.
Local Open Scope Q_scope.
Local Open Scope string_scope.
Local Open Scope list_scope.

(** ** JavaScript numbers and truthiness *)

Definition Qleb (x y : Q) : bool := Qle_bool x y.
Definition Qltb (x y : Q) : bool := negb (Qle_bool y x).
Definition Qgeb (x y : Q) : bool := Qleb y x.
Definition Qgtb (x y : Q) : bool := Qltb y x.

(** [Math.min], [Math.max] and [Math.round] on exact numbers. *)
Definition Math_min (x y : Q) : Q := Qmin x y.
Definition Math_max (x y : Q) : Q := Qmax x y.
Definition Math_round (x : Q) : Z := Qfloor (x + (1 # 2)).

(** [x || d] for a numeric field that may be [undefined]: [undefined] and
    [0] are falsy. *)
Definition num_or (x : option Q) (d : Q) : Q :=
  match x with
  | Some q => if Qeq_bool q 0 then d else q
  | None => d
  end.

(** [s || d] for a string field that may be [undefined]: the empty string
    is falsy. *)
Definition str_or (s : option string) (d : string) : string :=
  match s with
  | Some EmptyString => d
  | Some t => t
  | None => d
  end.

(** Outcome of a computation that may throw. *)
Inductive result (A : Type) : Type :=
| Ok (a : A)
| Throw (e : string).
Arguments Ok {A} a.
Arguments Throw {A} e.

Definition rbind {A B} (m : result A) (k : A -> result B) : result B :=
  match m with
  | Ok a => k a
  | Throw e => Throw e
  end.

#[global] Instance result_ret : MRet result := fun A a => Ok a.
#[global] Instance result_bind : MBind result := fun A B k m => rbind m k.

(** The numeric primitives of the runtime. *)
Record MathLib : Type := {
  Math_exp : Q -> Q;
  Math_sin : Q -> Q;
  Math_cos : Q -> Q;
  Math_sqrt : Q -> Q;
  Math_atan2 : Q -> Q -> Q;
  Math_PI : Q
}.

(** ** Data model (models/RiskGrid.js and the documents the services read) *)

Inductive Tier : Type := Standard | High | Critical.
Inductive RiskLevel : Type := Low | Medium | HighRisk | VeryHigh.

#[global] Instance Tier_eq_dec : EqDecision Tier.
Proof. solve_decision. Defined.
#[global] Instance RiskLevel_eq_dec : EqDecision RiskLevel.
Proof. solve_decision. Defined.

(** GeoJSON point: [coordinates = [lng, lat]]. *)
Record Point : Type := { p_lng : Q; p_lat : Q }.

Record SOSAlert : Type := {
  sos_location : option Point;
  sos_timestamp : Z;
  sos_status : string;
  sos_safetyScore : option Q;
  sos_reason : option string
}.

Record Incident : Type := {
  inc_location : option Point;
  inc_timestamp : Z;
  inc_severity : option Q;
  inc_title : option string;
  inc_type : option string
}.

Record Reason : Type := {
  r_type : string;
  r_title : string;
  r_timestamp : Z;
  r_severity : option Q;
  r_eventType : option string
}.

Record RiskGrid : Type := {
  gridId : string;
  location : Point;
  riskScore : Q;
  riskLevel : RiskLevel;
  tierLevel : Tier;
  radius : Z;
  expiresAt : Z;
  lastUpdated : Z;
  gridName : string;
  reasons : list Reason
}.

(** The three collections the risk engine works on. [riskGrids] is keyed by
    [gridId], which the schema declares unique. *)
Record DB : Type := {
  sosAlerts : list SOSAlert;
  incidents : list Incident;
  riskGrids : gmap string RiskGrid
}.

Definition set_riskGrids (db : DB) (g : gmap string RiskGrid) : DB :=
  {| sosAlerts := sosAlerts db; incidents := incidents db; riskGrids := g |}.

(** Stable sort, as [Array.prototype.sort]: [lt a b] says that the comparator
    is negative on [(a, b)], that is, [a] must come before [b]. *)
Section StableSort.
Context {A : Type} (lt : A -> A -> bool).

(** [x] stood before every element of [l]: it passes only the elements
    that must come before it. *)
Fixpoint sort_insert (x : A) (l : list A) : list A :=
  match l with
  | [] => [x]
  | y :: r => if lt y x then y :: sort_insert x r else x :: y :: r
  end.

Definition stable_sort (l : list A) : list A :=
  fold_right sort_insert [] l.

End StableSort.

(** [s.split(c)]: the pieces of [s] between occurrences of [c]. *)
Fixpoint split_on (c : ascii) (s : string) : list string :=
  match s with
  | EmptyString => [EmptyString]
  | String a r =>
      if Ascii.eqb a c then EmptyString :: split_on c r
      else match split_on c r with
           | [] => [String a EmptyString]
           | w :: ws => String a w :: ws
           end
  end.

(** [s.startsWith(p)]. *)
Definition startsWith (p s : string) : bool := String.prefix p s.

(** [set.add(x)] on a [Set] kept in insertion order. *)
Definition set_add (x : string) (l : list string) : list string :=
  if bool_decide (x ∈ l) then l else l ++ [x].

(** * services/riskEngineService.js *)
Module RiskEngine.

(** What the service gets from outside the repository code: the runtime,
    the [$centerSphere] operator of the database ([centerSphere c r p] holds
    when [p] lies in the spherical cap of centre [c] and angular radius
    [r]) and the reverse geocoder [getGridName] of utils/mapboxClient. *)
Record Env : Type := {
  math : MathLib;
  toFixed5 : Q -> string;
  parseFloat : string -> Q;
  centerSphere : Point -> Q -> Point -> bool;
  getGridName : Q -> Q -> result string
}.

Definition GRID_SIZE_DEG : Q := 45 # 10000.
Definition W_INCIDENT : Q := 40 # 100.
Definition W_SOS : Q := 50 # 100.
Definition W_HISTORY : Q := 10 # 100.

Definition MS_PER_DAY : Z := 24 * 60 * 60 * 1000.
Definition MS_PER_HOUR : Z := 1000 * 60 * 60.
Definition LOOKBACK_MS : Z := 30 * MS_PER_DAY.
Definition SCAN_RADIUS : Q := 2500 / 6378100.

Section WithEnv.
Variable env : Env.

Definition snap (x : Q) : Q :=
  inject_Z (Qfloor (x / GRID_SIZE_DEG)) * GRID_SIZE_DEG + GRID_SIZE_DEG / 2.

(** [getGridIdAndCenter(lat, lng)]: the id and the centre [[lng, lat]]. *)
Definition getGridIdAndCenter (lat lng : Q) : string * Point :=
  let snapedLat := snap lat in
  let snapedLng := snap lng in
  ((toFixed5 env snapedLat ++ "_" ++ toFixed5 env snapedLng)%string,
   {| p_lng := snapedLng; p_lat := snapedLat |}).

(** ** The queries of [processGrid] *)

Definition in_scan (c : Point) (loc : option Point) : bool :=
  match loc with
  | Some p => centerSphere env c SCAN_RADIUS p
  | None => false
  end.

Definition scanSOS (c : Point) (windowStart : Z) (db : DB) : list SOSAlert :=
  filter (fun a => in_scan c (sos_location a)
                   && (windowStart <=? sos_timestamp a)%Z
                   && String.eqb (sos_status a) "new") (sosAlerts db).

Definition scanIncidents (c : Point) (windowStart : Z) (db : DB) : list Incident :=
  filter (fun i => in_scan c (inc_location i)
                   && (windowStart <=? inc_timestamp i)%Z) (incidents db).

(** ** Intensity metrics (lines 101-123) *)

Definition latestOf (times : list Z) (start : Z) : Z :=
  fold_left (fun latest time => if (latest <? time)%Z then time else latest)
            times start.

Definition latestEventTime (sos : list SOSAlert) (incs : list Incident) : Z :=
  latestOf (map inc_timestamp incs) (latestOf (map sos_timestamp sos) 0%Z).

Definition minSosSafetyScore (sos : list SOSAlert) : Q :=
  fold_left (fun m a =>
               match sos_safetyScore a with
               | Some s => if Qltb s m then s else m
               | None => m
               end) sos 100.

Definition maxIncidentSeverity (incs : list Incident) : Q :=
  fold_left (fun m i =>
               match inc_severity i with
               | Some s => if Qgtb s m then s else m
               | None => m
               end) incs 0.

(** ** Tier and expiry (lines 125-148) *)

Record TierPlan : Type := {
  tier : Tier;
  durationDays : Z;
  displayRadius : Z
}.

Definition determineTier (combinedCount : nat) (maxSev minSafety : Q) : TierPlan :=
  if (5 <? Z.of_nat combinedCount)%Z || Qgeb maxSev (8 # 10) || Qleb minSafety 30
  then {| tier := Critical; durationDays := 30; displayRadius := 1500 |}
  else if (2 <? Z.of_nat combinedCount)%Z || Qgeb maxSev (6 # 10) || Qleb minSafety 50
  then {| tier := High; durationDays := 14; displayRadius := 1000 |}
  else {| tier := Standard; durationDays := 7; displayRadius := 500 |}.

Definition durationMs (pl : TierPlan) : Z := (durationDays pl * MS_PER_DAY)%Z.

(** ** Decayed scores (lines 159-197) *)

Definition lambdaOf (pl : TierPlan) : Q :=
  (23 # 10) / inject_Z (durationDays pl * 24).

Definition hoursAgo (now ts : Z) : Q :=
  inject_Z (now - ts) / inject_Z MS_PER_HOUR.

Definition decay (lambda : Q) (now ts : Z) : Q :=
  Math_exp (math env) (- lambda * hoursAgo now ts).

Definition SOS_BASE_WEIGHT : Q := 34 # 100.

Definition sosScoreOf (lambda : Q) (now : Z) (sos : list SOSAlert) : Q :=
  match sos with
  | [] => 0
  | _ =>
      let totalSosImpact :=
        fold_left (fun acc alert =>
                     acc + SOS_BASE_WEIGHT * decay lambda now (sos_timestamp alert))
                  sos 0 in
      Math_min totalSosImpact 1
  end.

Definition incidentScoreOf (lambda : Q) (now : Z) (incs : list Incident) : Q :=
  match incs with
  | [] => 0
  | _ =>
      let totalImpact :=
        fold_left (fun acc inc =>
                     acc + num_or (inc_severity inc) (1 # 2)
                           * decay lambda now (inc_timestamp inc))
                  incs 0 in
      Math_min totalImpact 1
  end.

Definition historyScoreOf (lambda : Q) (now : Z) (prevGrid : option RiskGrid) : Q :=
  match prevGrid with
  | Some g => riskScore g * decay lambda now (lastUpdated g)
  | None => 0
  end.

(** The name carried over from the previous document, when it is set and is
    not a generated ["Zone [...]"] placeholder; [None] stands for [null]. *)
Definition carriedName (prevGrid : option RiskGrid) : option string :=
  match prevGrid with
  | Some g =>
      match gridName g with
      | EmptyString => None
      | n => if startsWith "Zone [" n then None else Some n
      end
  | None => None
  end.

(** ** Adaptive weighting (lines 203-222) *)

Definition adaptiveWeights (t : Tier) (incidentScore sosScore : Q) : Q * Q :=
  if Qeq_bool incidentScore 0 && Qgtb sosScore 0 then
    match t with
    | Critical => (0, 95 # 100)
    | _ => (10 # 100, 80 # 100)
    end
  else (W_INCIDENT, W_SOS).

Definition weightedSum (t : Tier) (incidentScore sosScore historyScore : Q) : Q :=
  let '(wIncident, wSos) := adaptiveWeights t incidentScore sosScore in
  wIncident * incidentScore + wSos * sosScore + W_HISTORY * historyScore.

(** ** Dynamic floor (lines 224-243) *)

Definition timeRemainingRatio (expiryTime now totalDurationMs : Z) : Q :=
  Math_max 0 (Math_min 1 (inject_Z (expiryTime - now) / inject_Z totalDurationMs)).

Definition dynamicFloor (t : Tier) (ratio : Q) : option Q :=
  match t with
  | Critical => Some ((8 # 10) * ratio)
  | High => Some ((6 # 10) * ratio)
  | Standard => None
  end.

Definition applyFloor (t : Tier) (ratio finalScore : Q) : Q :=
  match dynamicFloor t ratio with
  | Some fl => Math_max finalScore fl
  | None => finalScore
  end.

Definition clamp01 (x : Q) : Q := Math_min (Math_max x 0) 1.

Definition riskLevelOf (finalScore : Q) : RiskLevel :=
  if Qgeb finalScore (8 # 10) then VeryHigh
  else if Qgeb finalScore (6 # 10) then HighRisk
  else if Qgeb finalScore (3 # 10) then Medium
  else Low.

(** ** Reasons (lines 251-269) *)

Definition sosReasonOf (s : SOSAlert) : Reason :=
  {| r_type := "sos_alert";
     r_title := str_or (sos_reason s) "SOS Alert";
     r_timestamp := sos_timestamp s;
     r_severity := Some (num_or (sos_safetyScore s) 1);
     r_eventType := Some "sos" |}.

Definition incidentReasonOf (i : Incident) : Reason :=
  {| r_type := "incident";
     r_title := str_or (inc_title i) "Incident";
     r_timestamp := inc_timestamp i;
     r_severity := inc_severity i;
     r_eventType := inc_type i |}.

Definition topReasons (sos : list SOSAlert) (incs : list Incident) : list Reason :=
  let reasons := map sosReasonOf sos ++ map incidentReasonOf incs in
  take 10 (stable_sort (fun a b => (r_timestamp b <? r_timestamp a)%Z) reasons).

(** ** [processGrid] (lines 77-287) *)

(** [gridId.split('_')] and the two [parseFloat]s: [(lat, lng)]. *)
Definition parseGridId (gid : string) : Q * Q :=
  let parts := split_on "_" gid in
  (parseFloat env (default EmptyString (parts !! 0%nat)),
   parseFloat env (default EmptyString (parts !! 1%nat))).

Definition gridCentre (gid : string) : Point :=
  {| p_lng := snd (parseGridId gid); p_lat := fst (parseGridId gid) |}.

Definition scannedSOS (now : Z) (gid : string) (db : DB) : list SOSAlert :=
  scanSOS (gridCentre gid) (now - LOOKBACK_MS)%Z db.

Definition scannedIncidents (now : Z) (gid : string) (db : DB) : list Incident :=
  scanIncidents (gridCentre gid) (now - LOOKBACK_MS)%Z db.

Definition planOf (sos : list SOSAlert) (incs : list Incident) : TierPlan :=
  determineTier (length sos + length incs)
                (maxIncidentSeverity incs) (minSosSafetyScore sos).

Definition expiryOf (sos : list SOSAlert) (incs : list Incident) : Z :=
  (latestEventTime sos incs + durationMs (planOf sos incs))%Z.

(** The score before the final clamp: weighted sum, then the floor. *)
Definition flooredScore (now : Z) (sos : list SOSAlert) (incs : list Incident)
    (prevGrid : option RiskGrid) : Q :=
  let pl := planOf sos incs in
  let lambda := lambdaOf pl in
  let sosScore := sosScoreOf lambda now sos in
  let incidentScore := incidentScoreOf lambda now incs in
  let historyScore := historyScoreOf lambda now prevGrid in
  let finalScore := weightedSum (tier pl) incidentScore sosScore historyScore in
  let ratio := timeRemainingRatio (expiryOf sos incs) now (durationMs pl) in
  applyFloor (tier pl) ratio finalScore.

(** The weighted sum of line 222, as it is before the floor. *)
Definition weightedScore (now : Z) (sos : list SOSAlert) (incs : list Incident)
    (prevGrid : option RiskGrid) : Q :=
  let pl := planOf sos incs in
  let lambda := lambdaOf pl in
  weightedSum (tier pl) (incidentScoreOf lambda now incs)
              (sosScoreOf lambda now sos) (historyScoreOf lambda now prevGrid).

(** The document written by [findOneAndUpdate] (lines 272-286). *)
Definition cellFor (now : Z) (gid : string) (db : DB) (name : string) : RiskGrid :=
  let sos := scannedSOS now gid db in
  let incs := scannedIncidents now gid db in
  let pl := planOf sos incs in
  let prevGrid := riskGrids db !! gid in
  let finalScore := clamp01 (flooredScore now sos incs prevGrid) in
  {| gridId := gid;
     location := gridCentre gid;
     riskScore := finalScore;
     riskLevel := riskLevelOf finalScore;
     tierLevel := tier pl;
     radius := displayRadius pl;
     expiresAt := expiryOf sos incs;
     lastUpdated := now;
     gridName := name;
     reasons := topReasons sos incs |}.

Definition processGrid (now : Z) (gid : string) (db : DB) : result DB :=
  let sos := scannedSOS now gid db in
  let incs := scannedIncidents now gid db in
  if (expiryOf sos incs <? now)%Z then
    Ok (set_riskGrids db (delete gid (riskGrids db)))
  else
    let prevGrid := riskGrids db !! gid in
    name ← match carriedName prevGrid with
           | Some n => Ok n
           | None => getGridName env (fst (parseGridId gid)) (snd (parseGridId gid))
           end;
    Ok (set_riskGrids db (<[gid := cellFor now gid db name]> (riskGrids db))).

(** ** [updateRiskScores] (lines 30-72) *)

Definition gridIdOfPoint (p : Point) : string :=
  fst (getGridIdAndCenter (p_lat p) (p_lng p)).

Definition addLocated (ids : list string) (loc : option Point) : list string :=
  match loc with
  | Some p => set_add (gridIdOfPoint p) ids
  | None => ids
  end.

Definition activeGridIds (now : Z) (db : DB) : list string :=
  let windowStart := (now - LOOKBACK_MS)%Z in
  let recentSOS :=
    filter (fun a => (windowStart <=? sos_timestamp a)%Z
                     && String.eqb (sos_status a) "new") (sosAlerts db) in
  let ids := fold_left (fun ids a => addLocated ids (sos_location a)) recentSOS [] in
  let recentIncidents :=
    filter (fun i => (windowStart <=? inc_timestamp i)%Z) (incidents db) in
  let ids := fold_left (fun ids i => addLocated ids (inc_location i)) recentIncidents ids in
  let existingGrids := map snd (map_to_list (riskGrids db)) in
  fold_left (fun ids g => set_add (gridId g) ids) existingGrids ids.

(** A run of the loop [for (const gid of activeGridIds) await processGrid(gid)]:
    the database it leaves, the cells whose [processGrid] completed, in
    order, and the exception that left the loop, if one did. *)
Record BatchRun : Type := {
  br_db : DB;
  br_done : list string;
  br_error : option string
}.

Fixpoint processAll (now : Z) (ids : list string) (db : DB) (done : list string)
  : BatchRun :=
  match ids with
  | [] => {| br_db := db; br_done := done; br_error := None |}
  | gid :: rest =>
      match processGrid now gid db with
      | Ok db' => processAll now rest db' (done ++ [gid])
      | Throw e => {| br_db := db; br_done := done; br_error := Some e |}
      end
  end.

Definition updateRiskScores (now : Z) (db : DB) : BatchRun :=
  processAll now (activeGridIds now db) db [].

(** ** [updateGridForLocation] (lines 295-306): the database after the
    recomputation of the cell of [(lat, lng)], and the document that
    [findOne] returns, [None] for [null]. *)
Definition updateGridForLocation (now : Z) (lat lng : Q) (db : DB)
  : result (DB * option RiskGrid) :=
  let gid := fst (getGridIdAndCenter lat lng) in
  db' ← processGrid now gid db;
  mret (db', riskGrids db' !! gid).

End WithEnv.
End RiskEngine.

(** ** String primitives used by the scorer (ASCII) *)

Definition is_space (c : ascii) : bool :=
  let n := nat_of_ascii c in
  ((9 <=? n)%nat && (n <=? 13)%nat) || (n =? 32)%nat.

Definition is_upper (c : ascii) : bool :=
  let n := nat_of_ascii c in (65 <=? n)%nat && (n <=? 90)%nat.

Definition is_lower (c : ascii) : bool :=
  let n := nat_of_ascii c in (97 <=? n)%nat && (n <=? 122)%nat.

Definition is_digit (c : ascii) : bool :=
  let n := nat_of_ascii c in (48 <=? n)%nat && (n <=? 57)%nat.

(** The class [\w] of regular expressions. *)
Definition is_word (c : ascii) : bool :=
  is_upper c || is_lower c || is_digit c || Ascii.eqb c "_".

Definition upper_char (c : ascii) : ascii :=
  if is_lower c then ascii_of_nat (nat_of_ascii c - 32) else c.

Definition lower_char (c : ascii) : ascii :=
  if is_upper c then ascii_of_nat (nat_of_ascii c + 32) else c.

Fixpoint string_map (f : ascii -> ascii) (s : string) : string :=
  match s with
  | EmptyString => EmptyString
  | String c r => String (f c) (string_map f r)
  end.

Definition toUpperCase (s : string) : string := string_map upper_char s.

Fixpoint trimStart (s : string) : string :=
  match s with
  | String c r => if is_space c then trimStart r else s
  | EmptyString => EmptyString
  end.

(** Drops the trailing white space: a character is kept when something
    that is kept follows it, or when it is not white space. *)
Fixpoint trimEnd (s : string) : string :=
  match s with
  | EmptyString => EmptyString
  | String c r =>
      match trimEnd r with
      | EmptyString => if is_space c then EmptyString else String c EmptyString
      | r' => String c r'
      end
  end.

Definition trim (s : string) : string := trimEnd (trimStart s).

(** [s.includes(needle)]. *)
Fixpoint includes (needle s : string) : bool :=
  String.prefix needle s ||
  match s with
  | EmptyString => false
  | String _ r => includes needle r
  end.

(** [s.replace(/\w\S*/g, txt => txt.charAt(0).toUpperCase() +
    txt.substr(1).toLowerCase())]: [inMatch] says that the scan is inside a
    match, which a word character opens and white space closes. *)
Fixpoint titleCase (inMatch : bool) (s : string) : string :=
  match s with
  | EmptyString => EmptyString
  | String c r =>
      if inMatch then
        if is_space c then String c (titleCase false r)
        else String (lower_char c) (titleCase true r)
      else
        if is_word c then String (upper_char c) (titleCase true r)
        else String c (titleCase false r)
  end.

(** [arr.join(sep)]. *)
Fixpoint join (sep : string) (l : list string) : string :=
  match l with
  | [] => EmptyString
  | [x] => x
  | x :: r => (x ++ sep ++ join sep r)%string
  end.

(** * services/safetyScoreService.js *)
Module SafetyScore.

Record DangerZone : Type := {
  z_name : string;
  z_type : string;
  z_coords : Q * Q;               (* [lat, lng] *)
  z_radiusKm : option Q;
  z_riskLevel : option string
}.

(** The [severity] field of a threat holds a different thing per source. *)
Inductive ThreatSeverity : Type :=
| SevGrid (l : RiskLevel)          (* grid.riskLevel *)
| SevZone (l : option string)      (* zone.riskLevel *)
| SevSafety (s : option Q)         (* `safety:${score || 'n/a'}`, [None] is n/a *)
| SevType (s : string).            (* inc.type || 'incident' *)

Record Threat : Type := {
  t_type : string;
  t_name : string;
  t_category : option string;
  t_distance : Z;
  t_severity : ThreatSeverity;
  t_impact : Z;
  t_isInside : option bool;
  t_coordinates : option (Q * Q);  (* lat, lng *)
  t_reasons : option (list Reason);
  t_timestamp : option Z
}.

(** Coverage circle of a penalized grid. *)
Record GridZone : Type := { gz_lat : Q; gz_lng : Q; gz_radius : Q }.

Record ScoreResult : Type := {
  safetyScore : Z;
  safetyLevel : string;
  safetyColor : string;
  description : string;
  totalThreats : nat;
  nearestThreat : option Threat;
  threats : list Threat;
  sr_location : Q * Q;             (* lat, lng *)
  sr_timestamp : Z;
  sr_error : bool
}.

(** The runtime and the four database queries of one scoring pass, as the
    driver answers them for the time and the point of the call. *)
Record Env : Type := {
  math : MathLib;
  findRiskGrids : Z -> Q -> Q -> result (list RiskGrid);
  findDangerZones : Z -> Q -> Q -> result (list DangerZone);
  findSOS : Z -> Q -> Q -> result (list SOSAlert);
  findIncidents : Z -> Q -> Q -> result (list Incident)
}.

Module CONFIG.
Definition DANGER_ZONE_CRITICAL_DISTANCE : Q := 100.
Definition DANGER_ZONE_HIGH_DISTANCE : Q := 500.
Definition DANGER_ZONE_MEDIUM_DISTANCE : Q := 2000.
Definition DANGER_ZONE_LOW_DISTANCE : Q := 5000.
Definition RISK_GRID_CRITICAL_DISTANCE : Q := 100.
Definition RISK_GRID_HIGH_DISTANCE : Q := 500.
Definition RISK_GRID_MEDIUM_DISTANCE : Q := 1500.
Definition RISK_GRID_LOW_DISTANCE : Q := 3000.
Definition BASE_SCORE : Q := 100.
Definition MAX_NEARBY_ZONES : nat := 10.
Definition SOS_RADIUS_M : Q := 2500.
Definition INCIDENT_RADIUS_M : Q := 4000.
Definition MAX_SOS_PENALTY : Q := 40.
Definition MAX_INCIDENT_PENALTY : Q := 45.
End CONFIG.

(** Haversine formula (lines 63-76). *)
Definition calculateDistance (m : MathLib) (lat1 lng1 lat2 lng2 : Q) : Q :=
  let R := 6371000 in
  let phi1 := lat1 * Math_PI m / 180 in
  let phi2 := lat2 * Math_PI m / 180 in
  let dphi := (lat2 - lat1) * Math_PI m / 180 in
  let dlambda := (lng2 - lng1) * Math_PI m / 180 in
  let a := Math_sin m (dphi / 2) * Math_sin m (dphi / 2)
           + Math_cos m phi1 * Math_cos m phi2
             * Math_sin m (dlambda / 2) * Math_sin m (dlambda / 2) in
  let c := 2 * Math_atan2 m (Math_sqrt m a) (Math_sqrt m (1 - a)) in
  R * c.

(** [severityMap[riskLevel] || 0.3] *)
Definition getRiskSeverity (riskLevel : option string) : Q :=
  match riskLevel with
  | Some "Low" => 2 # 10
  | Some "Medium" => 5 # 10
  | Some "High" => 75 # 100
  | Some "Very High" => 1
  | _ => 3 # 10
  end.

Record Bands : Type := { critical : Q; high : Q; medium : Q; low : Q }.

(** [customRadius] is [None] for the default [null]; a radius of [0] is
    falsy as well. *)
Definition bandsOf (type : string) (customRadius : option Q) : Bands :=
  let dynamic :=
    match customRadius with
    | Some r => negb (Qeq_bool r 0)
    | None => false
    end in
  if String.eqb type "risk_grid" && dynamic then
    let r := default 0 customRadius in
    {| critical := r; high := r + 500; medium := r + 1500; low := r + 3000 |}
  else if String.eqb type "danger_zone" then
    {| critical := CONFIG.DANGER_ZONE_CRITICAL_DISTANCE;
       high := CONFIG.DANGER_ZONE_HIGH_DISTANCE;
       medium := CONFIG.DANGER_ZONE_MEDIUM_DISTANCE;
       low := CONFIG.DANGER_ZONE_LOW_DISTANCE |}
  else
    {| critical := CONFIG.RISK_GRID_CRITICAL_DISTANCE;
       high := CONFIG.RISK_GRID_HIGH_DISTANCE;
       medium := CONFIG.RISK_GRID_MEDIUM_DISTANCE;
       low := CONFIG.RISK_GRID_LOW_DISTANCE |}.

Definition calculateThreatImpact (distance severity : Q) (type : string)
    (customRadius : option Q) : Q :=
  let config := bandsOf type customRadius in
  let maxPenalty := if String.eqb type "danger_zone" then 70 else 50 in
  let penalty impactMultiplier := severity * impactMultiplier * maxPenalty in
  if Qleb distance (critical config) then
    penalty 1
  else if Qleb distance (high config) then
    let ratio := (distance - critical config) / (high config - critical config) in
    penalty ((7 # 10) + (3 # 10) * (1 - ratio))
  else if Qleb distance (medium config) then
    let ratio := (distance - high config) / (medium config - high config) in
    penalty ((4 # 10) + (3 # 10) * (1 - ratio))
  else if Qleb distance (low config) then
    let ratio := (distance - medium config) / (low config - medium config) in
    penalty ((1 # 10) + (3 # 10) * (1 - ratio))
  else 0.

(** Linear decay for nearby SOS and incident signals (lines 162-166). *)
Definition proximityPenalty (distance maxRadius severity maxPenalty : Q) : Q :=
  if Qgtb distance maxRadius then 0
  else
    let weight := 1 - distance / maxRadius in
    severity * weight * maxPenalty.

(** [formatReasonText] (lines 540-555); [None] is a missing argument. *)
Definition formatReasonText (text : option string) : string :=
  match text with
  | None | Some EmptyString => "Safety Concern"
  | Some t =>
      let clean := trim t in
      let upper := toUpperCase clean in
      if includes "PANIC" upper || includes "IMMEDIATE" upper then "Emergency Alert"
      else if String.eqb upper "SOS" then "Distress Signal"
      else if String.eqb upper "MEDICAL" then "Medical Emergency"
      else titleCase false clean
  end.

(** ** One scoring pass (lines 175-495) *)

(** The running totals of the pass. *)
Record Acc : Type := {
  totalPenalty : Q;
  acc_threats : list Threat;
  penalizedGridZones : list GridZone
}.

Definition emptyAcc : Acc :=
  {| totalPenalty := 0; acc_threats := []; penalizedGridZones := [] |}.

Definition addThreat (acc : Acc) (impact : Q) (t : Threat) : Acc :=
  {| totalPenalty := totalPenalty acc + impact;
     acc_threats := acc_threats acc ++ [t];
     penalizedGridZones := penalizedGridZones acc |}.

Definition addZone (acc : Acc) (z : GridZone) : Acc :=
  {| totalPenalty := totalPenalty acc;
     acc_threats := acc_threats acc;
     penalizedGridZones := penalizedGridZones acc ++ [z] |}.

Section Pass.
Variable m : MathLib.
Variables lat lng : Q.

(** *** 1. Risk grids (lines 199-230) *)

Definition gridRadiusOf (grid : RiskGrid) : Q :=
  if (radius grid =? 0)%Z then 500 else inject_Z (radius grid).

(** The coverage circle recorded for a penalized grid (line 217). *)
Definition zoneOfGrid (grid : RiskGrid) : GridZone :=
  {| gz_lat := p_lat (location grid);
     gz_lng := p_lng (location grid);
     gz_radius := gridRadiusOf grid |}.

Definition gridStep (acc : Acc) (grid : RiskGrid) : Acc :=
  let gridLat := p_lat (location grid) in
  let gridLng := p_lng (location grid) in
  let distance := calculateDistance m lat lng gridLat gridLng in
  let gridRadius := gridRadiusOf grid in
  let monitoringRange := gridRadius + 3000 in
  if Qleb distance monitoringRange then
    let severity := riskScore grid in
    let impact := calculateThreatImpact distance severity "risk_grid" (Some gridRadius) in
    if Qgtb impact 0 then
      addThreat
        (addZone acc (zoneOfGrid grid))
        impact
        {| t_type := "risk_grid";
           t_name := str_or (Some (gridName grid)) "Risk Zone";
           t_category := None;
           t_distance := Math_round distance;
           t_severity := SevGrid (riskLevel grid);
           t_impact := Math_round impact;
           t_isInside := None;
           t_coordinates := Some (gridLat, gridLng);
           t_reasons := Some (reasons grid);
           t_timestamp := None |}
    else acc
  else acc.

(** *** 2. Danger zones (lines 232-288) *)

Record ZoneInRange : Type := {
  zr_zone : DangerZone;
  zr_distance : Q;
  zr_isInside : bool
}.

Definition zoneInRange (zone : DangerZone) : option ZoneInRange :=
  let zoneLat := fst (z_coords zone) in
  let zoneLng := snd (z_coords zone) in
  let distance := calculateDistance m lat lng zoneLat zoneLng in
  let circleRadiusKm :=
    if String.eqb (z_type zone) "circle" then
      match z_radiusKm zone with
      | Some r => if Qeq_bool r 0 then None else Some r
      | None => None
      end
    else None in
  match circleRadiusKm with
  | Some radiusKm =>
      let radiusMeters := radiusKm * 1000 in
      if Qleb distance radiusMeters then
        Some {| zr_zone := zone; zr_distance := 0; zr_isInside := true |}
      else
        let distanceFromEdge := distance - radiusMeters in
        if Qleb distanceFromEdge CONFIG.DANGER_ZONE_LOW_DISTANCE then
          Some {| zr_zone := zone; zr_distance := distanceFromEdge; zr_isInside := false |}
        else None
  | None =>
      if Qleb distance CONFIG.DANGER_ZONE_LOW_DISTANCE then
        Some {| zr_zone := zone; zr_distance := distance; zr_isInside := false |}
      else None
  end.

Definition dangerZonesInRange (zones : list DangerZone) : list ZoneInRange :=
  take CONFIG.MAX_NEARBY_ZONES
       (stable_sort (fun a b => Qltb (zr_distance a) (zr_distance b))
                    (omap zoneInRange zones)).

Definition zoneStep (acc : Acc) (z : ZoneInRange) : Acc :=
  let zone := zr_zone z in
  let severity := getRiskSeverity (z_riskLevel zone) in
  let effectiveDistance := if zr_isInside z then 0 else zr_distance z in
  let impact := calculateThreatImpact effectiveDistance severity "danger_zone" None in
  if Qgtb impact 0 then
    addThreat acc impact
      {| t_type := "danger_zone";
         t_name := z_name zone;
         t_category := None;
         t_distance := Math_round (zr_distance z);
         t_severity := SevZone (z_riskLevel zone);
         t_impact := Math_round impact;
         t_isInside := Some (zr_isInside z);
         t_coordinates := Some (z_coords zone);
         t_reasons := None;
         t_timestamp := None |}
  else acc.

(** *** 3. and 4. Raw SOS alerts and incidents (lines 290-387) *)

(** [penalizedGridZones.some(grid => distToGrid <= grid.radius)] for an
    event at [(eLat, eLng)]. *)
Definition isCoveredByGrid (zones : list GridZone) (eLat eLng : Q) : bool :=
  existsb (fun grid =>
             Qleb (calculateDistance m eLat eLng (gz_lat grid) (gz_lng grid))
                  (gz_radius grid)) zones.

Definition sosSafetySeverity (sos : SOSAlert) : ThreatSeverity :=
  SevSafety (match sos_safetyScore sos with
             | Some s => if Qeq_bool s 0 then None else Some s
             | None => None
             end).

Definition sosStep (acc : Acc) (sos : SOSAlert) : Acc :=
  match sos_location sos with
  | None => acc
  | Some p =>
      let sLat := p_lat p in
      let sLng := p_lng p in
      if isCoveredByGrid (penalizedGridZones acc) sLat sLng then acc
      else
        let distance := calculateDistance m lat lng sLat sLng in
        let severity :=
          Math_max 0 (Math_min 1 ((100 - num_or (sos_safetyScore sos) 70) / 100)) in
        let impact :=
          proximityPenalty distance CONFIG.SOS_RADIUS_M severity CONFIG.MAX_SOS_PENALTY in
        if Qgtb impact 0 then
          addThreat acc impact
            {| t_type := "sos_alert";
               t_name := formatReasonText (Some (str_or (sos_reason sos) "Nearby SOS"));
               t_category := Some "SOS Alert";
               t_distance := Math_round distance;
               t_severity := sosSafetySeverity sos;
               t_impact := Math_round impact;
               t_isInside := None;
               t_coordinates := None;
               t_reasons := None;
               t_timestamp := Some (sos_timestamp sos) |}
        else acc
  end.

Definition incidentStep (acc : Acc) (inc : Incident) : Acc :=
  match inc_location inc with
  | None => acc
  | Some p =>
      let iLat := p_lat p in
      let iLng := p_lng p in
      if isCoveredByGrid (penalizedGridZones acc) iLat iLng then acc
      else
        let distance := calculateDistance m lat lng iLat iLng in
        let severity := Math_max 0 (Math_min 1 (num_or (inc_severity inc) (6 # 10))) in
        let impact :=
          proximityPenalty distance CONFIG.INCIDENT_RADIUS_M severity
                           CONFIG.MAX_INCIDENT_PENALTY in
        if Qgtb impact 0 then
          addThreat acc impact
            {| t_type := "incident";
               t_name := formatReasonText (Some (str_or (inc_title inc) "Incident"));
               t_category := Some (formatReasonText (Some (str_or (inc_type inc) "Incident")));
               t_distance := Math_round distance;
               t_severity := SevType (str_or (inc_type inc) "incident");
               t_impact := Math_round impact;
               t_isInside := None;
               t_coordinates := None;
               t_reasons := None;
               t_timestamp := Some (inc_timestamp inc) |}
        else acc
  end.

End Pass.

(** *** 5. and 6. Final score, level and description (lines 389-476) *)

Definition finalScoreOf (totalPenalty : Q) : Z :=
  Math_round (Math_max 0 (Math_min 100 (CONFIG.BASE_SCORE - totalPenalty))).

Definition sortThreats (ts : list Threat) : list Threat :=
  stable_sort (fun a b => (t_impact b <? t_impact a)%Z) ts.

(** [(safetyLevel, safetyColor, description)] of a score. *)
Definition levelOf (finalScore : Z) : string * string * string :=
  if (90 <=? finalScore)%Z then ("EXCELLENT", "#10b981", "Very Safe Area")
  else if (70 <=? finalScore)%Z then ("GOOD", "#3b82f6", "Safe Area")
  else if (50 <=? finalScore)%Z then ("FAIR", "#f59e0b", "Moderate Risk")
  else if (30 <=? finalScore)%Z then ("POOR", "#ea580c", "High Risk Area")
  else ("CRITICAL", "#dc2626", "Danger Zone").

(** The [forEach] over the reasons of a risk-grid threat (lines 436-440). *)
Definition addGridReasons (uniqueReasons : list string) (rs : list Reason) : list string :=
  fold_left (fun uniq r =>
               match str_or (r_eventType r) (r_title r) with
               | EmptyString => uniq
               | txt => set_add (formatReasonText (Some txt)) uniq
               end) rs uniqueReasons.

(** The body of the loop over the threats, after the size test. *)
Definition addThreatReasons (uniqueReasons : list string) (t : Threat) : list string :=
  let gridReasons :=
    if String.eqb (t_type t) "risk_grid" then
      match t_reasons t with
      | Some (r :: rs) => Some (r :: rs)
      | _ => None
      end
    else None in
  match gridReasons with
  | Some rs => addGridReasons uniqueReasons rs
  | None =>
      match t_category t with
      | Some (String c s) => set_add (String c s) uniqueReasons
      | _ =>
          match t_name t with
          | EmptyString => uniqueReasons
          | n => set_add (formatReasonText (Some n)) uniqueReasons
          end
      end
  end.

(** [for (const t of threats) { if (uniqueReasons.size >= 3) break; ... }] *)
Fixpoint collectReasons (ts : list Threat) (uniqueReasons : list string) : list string :=
  match ts with
  | [] => uniqueReasons
  | t :: rest =>
      if (3 <=? length uniqueReasons)%nat then uniqueReasons
      else collectReasons rest (addThreatReasons uniqueReasons t)
  end.

(** The content of [uniqueReasons] when the description is composed. *)
Definition reasonList (finalScore : Z) (sorted : list Threat) : list string :=
  if (finalScore <? 90)%Z && negb (length sorted =? 0)%nat
  then collectReasons sorted []
  else [].

Definition describe (finalScore : Z) (sorted : list Threat) : string :=
  let base := snd (levelOf finalScore) in
  if (finalScore <? 90)%Z && negb (length sorted =? 0)%nat then
    match reasonList finalScore sorted with
    | [] => (base ++ " • Threats detected nearby.")%string
    | rs => (base ++ " • Reported issues: " ++ join ", " rs ++ ".")%string
    end
  else if (90 <=? finalScore)%Z then
    (base ++ " • Low crime rate reported recently.")%string
  else base.

Definition resultOf (now : Z) (lat lng : Q) (acc : Acc) : ScoreResult :=
  let finalScore := finalScoreOf (totalPenalty acc) in
  let sorted := sortThreats (acc_threats acc) in
  {| safetyScore := finalScore;
     safetyLevel := fst (fst (levelOf finalScore));
     safetyColor := snd (fst (levelOf finalScore));
     description := describe finalScore sorted;
     totalThreats := length sorted;
     nearestThreat := head sorted;
     threats := take 5 sorted;
     sr_location := (lat, lng);
     sr_timestamp := now;
     sr_error := false |}.

(** The body of the [try] block: each query may reject. *)
Definition scorePass (env : Env) (now : Z) (lat lng : Q) : result Acc :=
  nearbyRiskGrids ← findRiskGrids env now lat lng;
  let acc := fold_left (gridStep (math env) lat lng) nearbyRiskGrids emptyAcc in
  nearbyDangerZones ← findDangerZones env now lat lng;
  let acc := fold_left zoneStep
                       (dangerZonesInRange (math env) lat lng nearbyDangerZones) acc in
  nearbySOS ← findSOS env now lat lng;
  let acc := fold_left (sosStep (math env) lat lng) nearbySOS acc in
  nearbyIncidents ← findIncidents env now lat lng;
  let acc := fold_left (incidentStep (math env) lat lng) nearbyIncidents acc in
  mret acc.

(** The object returned by the [catch] block (lines 478-494). *)
Definition safeDefault (now : Z) (lat lng : Q) : ScoreResult :=
  {| safetyScore := 80;
     safetyLevel := "GOOD";
     safetyColor := "#3b82f6";
     description := "Unable to calculate precise safety score. Assuming safe area.";
     totalThreats := 0;
     nearestThreat := None;
     threats := [];
     sr_location := (lat, lng);
     sr_timestamp := now;
     sr_error := true |}.

Definition calculateSafetyScore (env : Env) (now : Z) (lat lng : Q) : ScoreResult :=
  match scorePass env now lat lng with
  | Ok acc => resultOf now lat lng acc
  | Throw _ => safeDefault now lat lng
  end.

(** The same environment with another answer to one of the queries. *)
Definition with_findSOS (env : Env) (f : Z -> Q -> Q -> result (list SOSAlert)) : Env :=
  {| math := math env;
     findRiskGrids := findRiskGrids env;
     findDangerZones := findDangerZones env;
     findSOS := f;
     findIncidents := findIncidents env |}.

Definition with_findIncidents (env : Env)
    (f : Z -> Q -> Q -> result (list Incident)) : Env :=
  {| math := math env;
     findRiskGrids := findRiskGrids env;
     findDangerZones := findDangerZones env;
     findSOS := findSOS env;
     findIncidents := f |}.

(** [shouldNotifyScoreChange] (lines 505-533): the [type] of the
    notification, if one is due. *)
Definition shouldNotifyScoreChange (oldScore newScore : Z) : option string :=
  let scoreDifference := (oldScore - newScore)%Z in
  if (30 <=? scoreDifference)%Z then Some "critical"
  else if (15 <=? scoreDifference)%Z then Some "warning"
  else if (scoreDifference <=? -30)%Z then Some "improvement"
  else None.

End SafetyScore.

(** * services/realtimeService.js: authority broadcast *)
Module Realtime.

(** [socket.data.location] as the client sent it: a field that is missing
    is [None]. *)
Record Location : Type := { loc_lat : option Q; loc_lng : option Q }.

Record Socket : Type := {
  sock_id : string;
  sock_location : option Location
}.

Record TargetArea : Type := { ta_lat : Q; ta_lng : Q; ta_radius : Q }.

(** The alert as the authority dashboard sends it; [None] is a field that is
    missing or [null]. *)
Record AlertData : Type := {
  ad_type : option string;
  ad_title : option string;
  ad_message : option string;
  ad_priority : option string;
  ad_authorityName : option string;
  ad_authorityId : option string;
  ad_requiresAcknowledgment : option bool;
  ad_actionRequired : option string;
  ad_expiresAt : option Z;
  ad_targetArea : option TargetArea
}.

Record AlertPayload : Type := {
  alertId : string;
  ap_type : string;
  ap_title : string;
  ap_message : string;
  priority : string;
  ap_timestamp : Z;
  authorityName : string;
  authorityId : string;
  requiresAcknowledgment : bool;
  actionRequired : option string;
  ap_expiresAt : option Z;
  targetArea : option TargetArea;
  distanceFromEvent : option Z
}.

(** What the dispatcher sends: to a room of the server, or on one socket. *)
Inductive Emission : Type :=
| ToRoom (room event : string) (payload : AlertPayload)
| ToSocket (socket : Socket) (event : string) (payload : AlertPayload).

(** The part of the module state the broadcast reads: whether [io] is set,
    and the registry [touristSockets], a [Map] from tourist id to the [Set]
    of its sockets, both in insertion order. *)
Record State : Type := {
  io : bool;
  touristSockets : list (string * list Socket)
}.

(** Every live end-user connection. Each of them joined the room
    ['tourists'] when it registered (line 81). *)
Definition liveSockets (st : State) : list Socket :=
  flat_map snd (touristSockets st).

(** Haversine formula (lines 265-278). *)
Definition calculateDistance (m : MathLib) (lat1 lon1 lat2 lon2 : Q) : Q :=
  let R := 6371000 in
  let phi1 := lat1 * Math_PI m / 180 in
  let phi2 := lat2 * Math_PI m / 180 in
  let dphi := (lat2 - lat1) * Math_PI m / 180 in
  let dlambda := (lon2 - lon1) * Math_PI m / 180 in
  let a := Math_sin m (dphi / 2) * Math_sin m (dphi / 2)
           + Math_cos m phi1 * Math_cos m phi2
             * Math_sin m (dlambda / 2) * Math_sin m (dlambda / 2) in
  let c := 2 * Math_atan2 m (Math_sqrt m a) (Math_sqrt m (1 - a)) in
  R * c.

(** Truthiness of a string field and of a numeric field. *)
Definition truthy_str (s : option string) : bool :=
  match s with
  | Some (String _ _) => true
  | _ => false
  end.

Definition truthy_num (x : option Q) : option Q :=
  match x with
  | Some q => if Qeq_bool q 0 then None else Some q
  | None => None
  end.

(** [touristLocation && touristLocation.lat && touristLocation.lng]: the
    coordinates, when the guard lets the socket through. *)
Definition guardedLocation (s : Socket) : option (Q * Q) :=
  match sock_location s with
  | Some l =>
      match truthy_num (loc_lat l), truthy_num (loc_lng l) with
      | Some la, Some ln => Some (la, ln)
      | _, _ => None
      end
  | None => None
  end.

Definition touristAlertPayload (alertId : string) (now : Z) (alertData : AlertData)
  : AlertPayload :=
  {| alertId := alertId;
     ap_type := default EmptyString (ad_type alertData);
     ap_title := default EmptyString (ad_title alertData);
     ap_message := default EmptyString (ad_message alertData);
     priority := str_or (ad_priority alertData) "medium";
     ap_timestamp := now;
     authorityName := str_or (ad_authorityName alertData) "Safety Authority";
     authorityId := str_or (ad_authorityId alertData) "unknown";
     requiresAcknowledgment := default false (ad_requiresAcknowledgment alertData);
     actionRequired :=
       match ad_actionRequired alertData with
       | Some (String c s) => Some (String c s)
       | _ => None
       end;
     ap_expiresAt :=
       match ad_expiresAt alertData with
       | Some 0%Z => None
       | e => e
       end;
     targetArea := ad_targetArea alertData;
     distanceFromEvent := None |}.

(** [{...touristAlertPayload, distanceFromEvent: Math.round(distance)}] *)
Definition withDistance (p : AlertPayload) (distance : Q) : AlertPayload :=
  {| alertId := alertId p;
     ap_type := ap_type p;
     ap_title := ap_title p;
     ap_message := ap_message p;
     priority := priority p;
     ap_timestamp := ap_timestamp p;
     authorityName := authorityName p;
     authorityId := authorityId p;
     requiresAcknowledgment := requiresAcknowledgment p;
     actionRequired := actionRequired p;
     ap_expiresAt := ap_expiresAt p;
     targetArea := targetArea p;
     distanceFromEvent := Some (Math_round distance) |}.

(** The body of the inner loop (lines 360-380) for one socket. *)
Definition targetSocket (m : MathLib) (area : TargetArea) (payload : AlertPayload)
    (socket : Socket) : list Emission :=
  match guardedLocation socket with
  | Some (tLat, tLng) =>
      let distance := calculateDistance m (ta_lat area) (ta_lng area) tLat tLng in
      if Qleb distance (ta_radius area)
      then [ToSocket socket "authorityAlert" (withDistance payload distance)]
      else []
  | None => []
  end.

(** [emitAuthorityAlertToTourists] (lines 303-384). [alertId] is the fresh
    identifier built from the clock and [Math.random()]. *)
Definition emitAuthorityAlertToTourists (m : MathLib) (st : State)
    (alertId : string) (now : Z) (alertData : AlertData) : result (list Emission) :=
  if negb (io st) then Ok []
  else if negb (truthy_str (ad_type alertData))
          || negb (truthy_str (ad_title alertData))
          || negb (truthy_str (ad_message alertData))
  then Throw "Missing required fields: type, title, message"
  else
    let payload := touristAlertPayload alertId now alertData in
    let totalTourists :=
      fold_left (fun n entry => (n + length (snd entry))%nat) (touristSockets st) 0%nat in
    if (totalTourists =? 0)%nat then Ok []
    else
      match ad_targetArea alertData with
      | None => Ok [ToRoom "tourists" "authorityAlert" payload]
      | Some area =>
          Ok (flat_map (fun entry => flat_map (targetSocket m area payload) (snd entry))
                       (touristSockets st))
      end.

(** The sockets an emission reaches, with what they receive. *)
Definition deliveries (st : State) (e : Emission) : list (Socket * AlertPayload) :=
  match e with
  | ToRoom room _ payload =>
      if String.eqb room "tourists"
      then map (fun s => (s, payload)) (liveSockets st)
      else []
  | ToSocket s _ payload => [(s, payload)]
  end.

Definition delivered (st : State) (out : list Emission) : list (Socket * AlertPayload) :=
  flat_map (deliveries st) out.

End Realtime.

(** * services/fallbackService.js *)
Module Fallback.

(** An alert payload: the field [alertId] and the other fields. *)
Record Payload : Type := {
  alertId : string;
  fields : list (string * string)
}.

(** An entry of [logs/fallback.log]: what the logger was given. *)
Record LogEntry : Type := {
  le_level : string;
  le_message : string;
  le_payload : option Payload
}.

(** A line of the log file: [JSON.parse] gives an entry, or throws. *)
Inductive LogLine : Type :=
| Parsed (entry : LogEntry)
| Malformed (text : string).

(** [JSON.stringify] and [JSON.parse] of a payload; [None] is a
    [SyntaxError]. *)
Record Env : Type := {
  JSON_stringify : Payload -> string;
  JSON_parse : string -> option Payload
}.

Inductive RedisStatus : Type :=
| Wait | Connecting | Ready | Reconnecting | Closed.

#[global] Instance RedisStatus_eq_dec : EqDecision RedisStatus.
Proof. solve_decision. Defined.

(** The cache client: its [status], whether the server accepts a
    connection ([reachable]), whether commands are rejected ([failing]), and
    the keys it holds, each with its value and its time of expiry, if one
    is set. *)
Record Redis : Type := {
  status : RedisStatus;
  reachable : bool;
  failing : bool;
  store : gmap string (string * option Z)
}.

Definition with_status (r : Redis) (s : RedisStatus) : Redis :=
  {| status := s; reachable := reachable r; failing := failing r; store := store r |}.

Definition with_store (r : Redis) (m : gmap string (string * option Z)) : Redis :=
  {| status := status r; reachable := reachable r; failing := failing r; store := m |}.

(** [redisClient.connect()]: the client after the attempt, and whether the
    promise resolved. *)
Definition connect (r : Redis) : Redis * bool :=
  if reachable r then (with_status r Ready, true)
  else (with_status r Reconnecting, false).

(** An entry is visible until its time of expiry. *)
Definition visible (now : Z) (e : string * option Z) : bool :=
  match snd e with
  | Some t => (now <? t)%Z
  | None => true
  end.

Definition redis_get (now : Z) (r : Redis) (key : string) : result (option string) :=
  if failing r then Throw "redis"
  else match store r !! key with
       | Some e => if visible now e then Ok (Some (fst e)) else Ok None
       | None => Ok None
       end.

Definition redis_set (r : Redis) (key value : string) : result Redis :=
  if failing r then Throw "redis"
  else Ok (with_store r (<[key := (value, None)]> (store r))).

Definition redis_expire (now : Z) (r : Redis) (key : string) (seconds : Z)
  : result Redis :=
  if failing r then Throw "redis"
  else Ok (with_store r
             (alter (fun e => (fst e, Some (now + seconds * 1000)%Z)) key (store r))).

Definition redis_del (r : Redis) (key : string) : result Redis :=
  if failing r then Throw "redis"
  else Ok (with_store r (delete key (store r))).

(** The service state: the cache client and the lines of the log file, the
    oldest first. A file that does not exist yet has no line. *)
Record State : Type := {
  redis : Redis;
  log : list LogLine
}.

Section WithEnv.
Variable env : Env.

(** [logger.<level>(message, meta)]: one more line in the file. *)
Definition logger (level message : string) (payload : option Payload) (st : State)
  : State :=
  {| redis := redis st;
     log := log st ++ [Parsed {| le_level := level;
                                 le_message := message;
                                 le_payload := payload |}] |}.

Definition with_redis (st : State) (r : Redis) : State :=
  {| redis := r; log := log st |}.

Definition alertKey (alertId : string) : string :=
  ("sos:fallback:" ++ alertId)%string.

(** [handleSOSFallback] (lines 224-255). The outer [catch] logs an error
    and returns, so the function never throws. *)
Definition handleSOSFallback (now : Z) (alertData : Payload) (st : State) : State :=
  let alertId := alertId alertData in
  let failed st :=
    logger "error"
           ("Failed to handle SOS fallback for alert " ++ alertId ++ ":")%string
           None st in
  let connected :=
    if bool_decide (status (redis st) <> Ready)
       && bool_decide (status (redis st) <> Connecting)
    then connect (redis st)
    else (redis st, true) in
  let st := with_redis st (fst connected) in
  if negb (snd connected) then
    let st :=
      logger "warn"
             ("Real-time channel down AND Redis unavailable. Alert " ++ alertId
              ++ " logged to file only.")%string None st in
    logger "info" "SOS_PAYLOAD" (Some alertData) st
  else
    let alertKey := alertKey alertId in
    if bool_decide (status (redis st) = Ready) then
      match redis_set (redis st) alertKey (JSON_stringify env alertData) with
      | Throw _ => failed st
      | Ok r =>
          match redis_expire now r alertKey 3600 with
          | Throw _ => failed (with_redis st r)
          | Ok r' =>
              logger "warn"
                     ("Real-time channel down. Storing alert " ++ alertId
                      ++ " in Redis for fallback.")%string None (with_redis st r')
          end
      end
    else
      let st :=
        logger "warn"
               ("Redis not ready. Alert " ++ alertId ++ " logged to file only.")%string
               None st in
      logger "info" "SOS_PAYLOAD" (Some alertData) st.

(** The scan of the log file (lines 279-308): the payload of the first line
    that parses, carries the marker and has the id. *)
Fixpoint scanLog (alertId0 : string) (lines : list LogLine) : option Payload :=
  match lines with
  | [] => None
  | Parsed logEntry :: rest =>
      if String.eqb (le_message logEntry) "SOS_PAYLOAD" then
        match le_payload logEntry with
        | Some p => if String.eqb (alertId p) alertId0 then Some p
                    else scanLog alertId0 rest
        | None => scanLog alertId0 rest
        end
      else scanLog alertId0 rest
  | Malformed _ :: rest => scanLog alertId0 rest
  end.

(** The cache lookup of [getPendingAlert] (lines 264-277): [Some p] when
    it returns [p]; otherwise the function goes on to the log file. *)
Definition cacheLookup (now : Z) (alertId : string) (st : State)
  : option Payload * State :=
  let failed st :=
    logger "error"
           ("Redis retrieval failed for " ++ alertId ++ " checking logs...:")%string
           None st in
  if bool_decide (status (redis st) = Ready) then
    let alertKey := alertKey alertId in
    match redis_get now (redis st) alertKey with
    | Throw _ => (None, failed st)
    | Ok (Some (String c s)) =>
        match redis_del (redis st) alertKey with
        | Throw _ => (None, failed st)
        | Ok r =>
            match JSON_parse env (String c s) with
            | Some p => (Some p, with_redis st r)
            | None => (None, failed (with_redis st r))
            end
        end
    | Ok _ => (None, st)
    end
  else (None, st).

(** [getPendingAlert] (lines 262-309). *)
Definition getPendingAlert (now : Z) (alertId : string) (st : State)
  : option Payload * State :=
  match cacheLookup now alertId st with
  | (Some p, st') => (Some p, st')
  | (None, st') => (scanLog alertId (log st'), st')
  end.

End WithEnv.
End Fallback.

(** * services/riskEngineService.js: the grid index in rounded arithmetic *)
Module Rounded.
Import RiskEngine.

Section WithArithmetic.
Variable env : Env.

(** The doubles of lines 19-20: [quot x] is [x / GRID_SIZE_DEG] as the
    runtime computes it, and [centreOf k] is
    [k * GRID_SIZE_DEG + (GRID_SIZE_DEG / 2)] as it computes it for the
    integer [k]. *)
Variable quot : Q -> Q.
Variable centreOf : Z -> Q.

Definition snap (x : Q) : Q := centreOf (Qfloor (quot x)).

(** [getGridIdAndCenter(lat, lng)] (lines 18-25). *)
Definition getGridIdAndCenter (lat lng : Q) : string * Point :=
  let snapedLat := snap lat in
  let snapedLng := snap lng in
  ((toFixed5 env snapedLat ++ "_" ++ toFixed5 env snapedLng)%string,
   {| p_lng := snapedLng; p_lat := snapedLat |}).

(** The quotient of [x] is computed within [tol]. *)
Definition accurate (tol x : Q) : Prop :=
  Qabs (quot x - x / GRID_SIZE_DEG) <= tol.

End WithArithmetic.

(** [x] lies in the cell of index [k], at least [tol] cells away from its
    two edges. *)
Definition inside (tol : Q) (k : Z) (x : Q) : Prop :=
  inject_Z k + tol <= x / GRID_SIZE_DEG /\
  x / GRID_SIZE_DEG + tol < inject_Z k + 1.

(** Exact arithmetic. *)
Definition exactQuot (x : Q) : Q := x / GRID_SIZE_DEG.

Definition exactCentre (k : Z) : Q :=
  inject_Z k * GRID_SIZE_DEG + GRID_SIZE_DEG / 2.

End Rounded.

(** * services/realtimeService.js: the registries and their handlers *)
Module Connections.
Import Realtime.

(** [socket.data] of one connection, with the rooms the socket is in; a
    field that was never set is [None]. The object lives as long as a
    registry refers to it: [connected] tells whether the connection is
    still open. *)
Record SocketData : Type := {
  userId : option string;
  touristId : option string;
  userType : option string;
  location : option Location;
  rooms : list string;
  connected : bool
}.

(** The data of a socket at its connection (line 31): an empty object. *)
Definition freshSocket : SocketData :=
  {| userId := None; touristId := None; userType := None; location := None;
     rooms := []; connected := true |}.

(** A registry ([authoritySockets], [touristSockets]): a [Map] from a user
    id to the [Set] of the user's sockets, both in insertion order. A socket
    stands by its [socket.id]. *)
Definition Registry : Type := list (string * list string).

(** The module state (lines 6-9). The key of [touristLastScores] is a
    tourist id as read from [socket.data], [None] when the field is
    missing. *)
Record Server : Type := {
  io : bool;
  sockets : gmap string SocketData;
  authoritySockets : Registry;
  touristSockets : Registry;
  touristLastScores : gmap (option string) Z
}.

Inductive Message : Type :=
| SafetyScoreUpdate (safetyScoreData : SafetyScore.ScoreResult)
| SafetyScoreAlert (type : string) (previousScore newScore : Z)
    (safetyScoreData : SafetyScore.ScoreResult)
| RegistrationConfirmed (touristId : string)
| NewSOSAlert (alertData : Fallback.Payload).

Inductive Emission : Type :=
| ToSocket (socketId : string) (message : Message)
| ToRoom (room : string) (message : Message).

(** What a client sends with [registerAuthority] or [registerTourist]. *)
Record Registration : Type := {
  role : option string;
  reg_userId : option string;
  reg_touristId : option string;
  reg_location : option Location
}.

(** ** Map and Set operations on a registry *)

Fixpoint registry_get (k : string) (m : Registry) : option (list string) :=
  match m with
  | [] => None
  | (k', set) :: rest => if String.eqb k' k then Some set else registry_get k rest
  end.

(** The set of [k] becomes [set]: in place when [k] is a key, as a new last
    entry otherwise. *)
Fixpoint registry_put (k : string) (set : list string) (m : Registry) : Registry :=
  match m with
  | [] => [(k, set)]
  | (k', set') :: rest =>
      if String.eqb k' k then (k', set) :: rest
      else (k', set') :: registry_put k set rest
  end.

Fixpoint registry_delete (k : string) (m : Registry) : Registry :=
  match m with
  | [] => []
  | (k', set) :: rest =>
      if String.eqb k' k then rest else (k', set) :: registry_delete k rest
  end.

(** The loop of lines 176-181: the first socket with the id leaves the
    set. *)
Fixpoint set_delete (sid : string) (set : list string) : list string :=
  match set with
  | [] => []
  | s :: rest => if String.eqb s sid then rest else s :: set_delete sid rest
  end.

(** Lines 45-50 and 73-78. *)
Definition enter (k sid : string) (m : Registry) : Registry :=
  registry_put k (set_add sid (default [] (registry_get k m))) m.

(** Lines 174-184 and 186-200: the registry, and whether the entry of [k]
    was deleted. *)
Definition leave (k sid : string) (m : Registry) : Registry * bool :=
  match registry_get k m with
  | Some set =>
      let set' := set_delete sid set in
      if (length set' =? 0)%nat then (registry_delete k m, true)
      else (registry_put k set' m, false)
  | None => (m, false)
  end.

Definition socketData (sid : string) (srv : Server) : SocketData :=
  default freshSocket (sockets srv !! sid).

Definition is_str (v : string) (s : option string) : bool :=
  match s with
  | Some x => String.eqb x v
  | None => false
  end.

(** [location && location.lat && location.lng], with the coordinates. *)
Definition usable (l : option Location) : option (Q * Q) :=
  match l with
  | Some l =>
      match truthy_num (loc_lat l), truthy_num (loc_lng l) with
      | Some la, Some ln => Some (la, ln)
      | _, _ => None
      end
  | None => None
  end.

(** [touristLastScores.get(touristId) || 80] *)
Definition previousScoreOf (tid : option string) (scores : gmap (option string) Z) : Z :=
  match scores !! tid with
  | Some 0%Z => 80
  | Some s => s
  | None => 80
  end.

(** The sockets that would get what is sent to a room. *)
Definition roomMembers (room : string) (srv : Server) : list string :=
  map fst (filter (fun e => connected (snd e) && bool_decide (room ∈ rooms (snd e)))
             (map_to_list (sockets srv))).

(** The total of line 224. *)
Definition totalSockets (m : Registry) : nat :=
  fold_left (fun n e => (n + length (snd e))%nat) m 0%nat.

(** A registry as the handlers keep it: no user twice, and for each user a
    set that is not empty and holds no socket twice. *)
Definition well_kept (m : Registry) : Prop :=
  List.NoDup (map fst m) /\
  Forall (fun e => snd e <> [] /\ List.NoDup (snd e)) m.

Section Handlers.

(** [calculateSafetyScore] of safetyScoreService.js as it answers during the
    call, as a function of the two arguments it is given ([None]: the
    coordinate is missing). It returns an object on every input, so the
    [catch] of each handler around it is never entered. Each handler is
    taken as one step: nothing else runs while it waits for the score. *)
Variable calculateSafetyScore : option Q -> option Q -> SafetyScore.ScoreResult.

(** A new connection (line 31). *)
Definition connection (sid : string) (srv : Server) : Server :=
  {| io := io srv;
     sockets := <[sid := freshSocket]> (sockets srv);
     authoritySockets := authoritySockets srv;
     touristSockets := touristSockets srv;
     touristLastScores := touristLastScores srv |}.

(** Lines 35-58. *)
Definition registerAuthority (sid : string) (data : option Registration)
    (srv : Server) : Server :=
  match data with
  | Some d =>
      if is_str "authority" (role d) && truthy_str (reg_userId d) then
        let uid := default EmptyString (reg_userId d) in
        let sd := socketData sid srv in
        let sd' :=
          {| userId := Some uid;
             touristId := touristId sd;
             userType := Some "authority";
             location := location sd;
             rooms := set_add ("authority:" ++ uid)%string
                        (set_add "authorities" (rooms sd));
             connected := connected sd |} in
        {| io := io srv;
           sockets := <[sid := sd']> (sockets srv);
           authoritySockets := enter uid sid (authoritySockets srv);
           touristSockets := touristSockets srv;
           touristLastScores := touristLastScores srv |}
      else srv
  | None => srv
  end.

(** Lines 61-109. *)
Definition registerTourist (sid : string) (data : option Registration)
    (srv : Server) : Server * list Emission :=
  match data with
  | Some d =>
      if is_str "tourist" (role d) && truthy_str (reg_touristId d) then
        let tid := default EmptyString (reg_touristId d) in
        let sd := socketData sid srv in
        let sd' :=
          {| userId := userId sd;
             touristId := Some tid;
             userType := Some "tourist";
             location := reg_location d;
             rooms := set_add ("tourist:" ++ tid)%string
                        (set_add "tourists" (rooms sd));
             connected := connected sd |} in
        let confirmed := ToSocket sid (RegistrationConfirmed tid) in
        match usable (reg_location d) with
        | Some (la, ln) =>
            let safetyScoreData := calculateSafetyScore (Some la) (Some ln) in
            ({| io := io srv;
                sockets := <[sid := sd']> (sockets srv);
                authoritySockets := authoritySockets srv;
                touristSockets := enter tid sid (touristSockets srv);
                touristLastScores :=
                  <[Some tid := SafetyScore.safetyScore safetyScoreData]>
                    (touristLastScores srv) |},
             [ToSocket sid (SafetyScoreUpdate safetyScoreData); confirmed])
        | None =>
            ({| io := io srv;
                sockets := <[sid := sd']> (sockets srv);
                authoritySockets := authoritySockets srv;
                touristSockets := enter tid sid (touristSockets srv);
                touristLastScores := touristLastScores srv |},
             [confirmed])
        end
      else (srv, [])
  | None => (srv, [])
  end.

(** What follows a new score (lines 125-145 and 447-471): the alert for the
    sockets [to], if the change is worth one. *)
Definition scoreAlerts (previousScore : Z) (safetyScoreData : SafetyScore.ScoreResult)
    (to : list string) : list Emission :=
  let newScore := SafetyScore.safetyScore safetyScoreData in
  match SafetyScore.shouldNotifyScoreChange previousScore newScore with
  | Some type =>
      map (fun s => ToSocket s (SafetyScoreAlert type previousScore newScore
                                  safetyScoreData)) to
  | None => []
  end.

(** Lines 112-152; [newLocation] is [data.location]. *)
Definition updateTouristLocation (sid : string) (newLocation : option Location)
    (srv : Server) : Server * list Emission :=
  let sd := socketData sid srv in
  match newLocation with
  | Some l =>
      if is_str "tourist" (userType sd) then
        let tid := touristId sd in
        let sd' :=
          {| userId := userId sd;
             touristId := touristId sd;
             userType := userType sd;
             location := Some l;
             rooms := rooms sd;
             connected := connected sd |} in
        let safetyScoreData := calculateSafetyScore (loc_lat l) (loc_lng l) in
        let previousScore := previousScoreOf tid (touristLastScores srv) in
        ({| io := io srv;
            sockets := <[sid := sd']> (sockets srv);
            authoritySockets := authoritySockets srv;
            touristSockets := touristSockets srv;
            touristLastScores :=
              <[tid := SafetyScore.safetyScore safetyScoreData]>
                (touristLastScores srv) |},
         ToSocket sid (SafetyScoreUpdate safetyScoreData)
           :: scoreAlerts previousScore safetyScoreData [sid])
      else (srv, [])
  | None => (srv, [])
  end.

(** The connection is closed: the socket is in no room any more. *)
Definition closed (sd : SocketData) : SocketData :=
  {| userId := userId sd;
     touristId := touristId sd;
     userType := userType sd;
     location := location sd;
     rooms := [];
     connected := false |}.

(** Lines 168-204. *)
Definition disconnect (sid : string) (srv : Server) : Server :=
  let sd := socketData sid srv in
  let sockets' := <[sid := closed sd]> (sockets srv) in
  if is_str "authority" (userType sd) && truthy_str (userId sd) then
    {| io := io srv;
       sockets := sockets';
       authoritySockets :=
         fst (leave (default EmptyString (userId sd)) sid (authoritySockets srv));
       touristSockets := touristSockets srv;
       touristLastScores := touristLastScores srv |}
  else if is_str "tourist" (userType sd) && truthy_str (touristId sd) then
    let tid := default EmptyString (touristId sd) in
    let '(m, deleted) := leave tid sid (touristSockets srv) in
    {| io := io srv;
       sockets := sockets';
       authoritySockets := authoritySockets srv;
       touristSockets := m;
       touristLastScores :=
         if deleted then delete (Some tid) (touristLastScores srv)
         else touristLastScores srv |}
  else
    {| io := io srv;
       sockets := sockets';
       authoritySockets := authoritySockets srv;
       touristSockets := touristSockets srv;
       touristLastScores := touristLastScores srv |}.

(** Lines 441-443: the location of the first socket of the set, when the
    guard lets it through. *)
Definition canonicalLocation (srv : Server) (set : list string) : option (Q * Q) :=
  match set with
  | [] => None
  | firstSocket :: _ => usable (location (socketData firstSocket srv))
  end.

(** One turn of the loop of [runPeriodicSafetyScoreUpdate] (lines 439-475):
    the scores and what was sent so far, after the entry of one tourist. *)
Definition rescore (srv : Server)
    (acc : gmap (option string) Z * list Emission) (entry : string * list string)
  : gmap (option string) Z * list Emission :=
  let '(tid, set) := entry in
  match canonicalLocation srv set with
  | Some (la, ln) =>
      let safetyScoreData := calculateSafetyScore (Some la) (Some ln) in
      let previousScore := previousScoreOf (Some tid) (fst acc) in
      (<[Some tid := SafetyScore.safetyScore safetyScoreData]> (fst acc),
       snd acc
         ++ map (fun s => ToSocket s (SafetyScoreUpdate safetyScoreData)) set
         ++ scoreAlerts previousScore safetyScoreData set)
  | None => acc
  end.

(** Lines 436-476. *)
Definition runPeriodicSafetyScoreUpdate (srv : Server) : Server * list Emission :=
  if io srv then
    let '(scores, sent) :=
      fold_left (rescore srv) (touristSockets srv) (touristLastScores srv, []) in
    ({| io := io srv;
        sockets := sockets srv;
        authoritySockets := authoritySockets srv;
        touristSockets := touristSockets srv;
        touristLastScores := scores |}, sent)
  else (srv, []).

End Handlers.

(** [emitSOSAlert] (lines 213-255): what is sent, and the fallback service
    after the call. [emitThrows] tells whether the broadcast of line 240
    throws. *)
Definition emitSOSAlert (env : Fallback.Env) (now : Z) (emitThrows : bool)
    (alertData : Fallback.Payload) (srv : Server) (fb : Fallback.State)
  : list Emission * Fallback.State :=
  if negb (io srv) then ([], Fallback.handleSOSFallback env now alertData fb)
  else if (totalSockets (authoritySockets srv) =? 0)%nat then
    ([], Fallback.handleSOSFallback env now alertData fb)
  else if emitThrows then ([], Fallback.handleSOSFallback env now alertData fb)
  else ([ToRoom "authorities" (NewSOSAlert alertData)], fb).

End Connections.

(** * The rules as the specification words them

    These definitions follow the text of the specification; the theorems
    below compare the services with them. *)
Module Spec.

Definition critical_signal (count : nat) (severity safety : Q) : Prop :=
  (5 < count)%nat \/ 8 # 10 <= severity \/ safety <= 30.

Definition high_signal (count : nat) (severity safety : Q) : Prop :=
  (2 < count)%nat \/ 6 # 10 <= severity \/ safety <= 50.

(** [tier_rule count severity safety t days metres]: the thresholds give
    tier [t], kept [days] days and displayed with a radius of [metres]. *)
Inductive tier_rule (count : nat) (severity safety : Q) : Tier -> Z -> Z -> Prop :=
| rule_critical :
    critical_signal count severity safety ->
    tier_rule count severity safety Critical 30 1500
| rule_high :
    ~ critical_signal count severity safety ->
    high_signal count severity safety ->
    tier_rule count severity safety High 14 1000
| rule_standard :
    ~ critical_signal count severity safety ->
    ~ high_signal count severity safety ->
    tier_rule count severity safety Standard 7 500.

(** The ceiling of the sliding floor of a tier. *)
Definition ceiling (t : Tier) : Q :=
  match t with
  | Critical => 8 # 10
  | High => 6 # 10
  | Standard => 0
  end.

Definition retentionMs (t : Tier) : Z :=
  match t with
  | Critical => 30 * RiskEngine.MS_PER_DAY
  | High => 14 * RiskEngine.MS_PER_DAY
  | Standard => 7 * RiskEngine.MS_PER_DAY
  end.

(** The ceiling scaled by the fraction of the retention that remains. *)
Definition floorAt (t : Tier) (expiry now : Z) : Q :=
  ceiling t * (inject_Z (expiry - now) / inject_Z (retentionMs t)).

(** The sliding floor of a persisted cell at time [now]. *)
Definition cellFloor (cell : RiskGrid) (now : Z) : Q :=
  floorAt (tierLevel cell) (expiresAt cell) now.

(** The floor is enforced on the cell persisted at [now], for a weighted
    sum [w] and a latest event at [latest]: the cell expires one retention
    after the latest event, is not expired, and its score is the larger of
    the weighted sum and the floor, capped at 1. A latest event dated after
    the evaluation leaves more than the whole retention: the floor is then
    the ceiling itself. *)
Definition floor_enforced (cell : RiskGrid) (now latest : Z) (w : Q) : Prop :=
  expiresAt cell = (latest + retentionMs (tierLevel cell))%Z /\
  (now <= expiresAt cell)%Z /\
  ((latest <= now)%Z -> riskScore cell == Qmin (Qmax w (cellFloor cell now)) 1) /\
  ((now < latest)%Z -> riskScore cell == Qmin (Qmax w (ceiling (tierLevel cell))) 1).

(** What the claim asks of a cell persisted High or Critical as [cell]: the
    score [score] persisted by an evaluation at [now], before the expiry of
    the cell, is not below the floor of the cell at [now]. *)
Definition above_floor (cell : RiskGrid) (now : Z) (score : Q) : Prop :=
  cellFloor cell now <= score.

(** Rank of a level in the order Low, Medium, High, Very High. *)
Definition levelRank (l : RiskLevel) : nat :=
  match l with
  | Low => 0
  | Medium => 1
  | HighRisk => 2
  | VeryHigh => 3
  end.

(** The score bands. *)
Inductive level_band (score : Q) : RiskLevel -> Prop :=
| band_very_high : 8 # 10 <= score -> level_band score VeryHigh
| band_high : 6 # 10 <= score -> score < 8 # 10 -> level_band score HighRisk
| band_medium : 3 # 10 <= score -> score < 6 # 10 -> level_band score Medium
| band_low : score < 3 # 10 -> level_band score Low.

(** A grid of the first step of a scoring pass at [(lat, lng)] is penalized
    when it is within its monitoring range and its impact is positive. *)
Definition penalized (m : MathLib) (lat lng : Q) (grid : RiskGrid) : Prop :=
  let distance :=
    SafetyScore.calculateDistance m lat lng (p_lat (location grid))
                                  (p_lng (location grid)) in
  let gridRadius := SafetyScore.gridRadiusOf grid in
  distance <= gridRadius + 3000 /\
  0 < SafetyScore.calculateThreatImpact distance (riskScore grid) "risk_grid"
                                         (Some gridRadius).

(** The point [p] lies strictly inside the coverage circle of [grid]. *)
Definition strictly_inside (m : MathLib) (grid : RiskGrid) (p : Point) : Prop :=
  SafetyScore.calculateDistance m (p_lat p) (p_lng p)
                                (p_lat (location grid)) (p_lng (location grid))
  < SafetyScore.gridRadiusOf grid.

(** Some step of the scoring pass failed. *)
Definition is_throw {A : Type} (r : result A) : Prop :=
  match r with
  | Ok _ => False
  | Throw _ => True
  end.

(** The last known location of the connection [s] is within the radius of
    [area] of its centre. *)
Definition within_area (m : MathLib) (area : Realtime.TargetArea)
    (s : Realtime.Socket) : Prop :=
  exists l la ln,
    Realtime.sock_location s = Some l /\
    Realtime.loc_lat l = Some la /\ Realtime.loc_lng l = Some ln /\
    Realtime.calculateDistance m (Realtime.ta_lat area) (Realtime.ta_lng area) la ln
    <= Realtime.ta_radius area.

(** The connection has no stored location, or a stored coordinate is
    missing or equal to [0]. *)
Definition no_usable_location (s : Realtime.Socket) : Prop :=
  match Realtime.sock_location s with
  | None => True
  | Some l =>
      match Realtime.loc_lat l, Realtime.loc_lng l with
      | Some la, Some ln => la == 0 \/ ln == 0
      | _, _ => True
      end
  end.

(** The alert passes the validation of the required fields. *)
Definition well_formed (alertData : Realtime.AlertData) : Prop :=
  Realtime.truthy_str (Realtime.ad_type alertData) = true /\
  Realtime.truthy_str (Realtime.ad_title alertData) = true /\
  Realtime.truthy_str (Realtime.ad_message alertData) = true.

(** The payload survives [JSON.stringify] and [JSON.parse], and its text
    is not empty. *)
Definition codec_ok (env : Fallback.Env) (p : Fallback.Payload) : Prop :=
  Fallback.JSON_parse env (Fallback.JSON_stringify env p) = Some p /\
  Fallback.JSON_stringify env p <> EmptyString.

(** The cache is ready and answers: a lookup can use it. *)
Definition cache_available (st : Fallback.State) : Prop :=
  Fallback.status (Fallback.redis st) = Fallback.Ready /\
  Fallback.failing (Fallback.redis st) = false.

(** The cache takes a [put]: it answers, and it is ready or a connection
    can be opened. *)
Definition cache_accepts (st : Fallback.State) : Prop :=
  Fallback.failing (Fallback.redis st) = false /\
  (Fallback.status (Fallback.redis st) = Fallback.Ready \/
   (Fallback.status (Fallback.redis st) <> Fallback.Connecting /\
    Fallback.reachable (Fallback.redis st) = true)).

(** The cache is not ready and cannot be connected to. *)
Definition cache_down (st : Fallback.State) : Prop :=
  Fallback.status (Fallback.redis st) <> Fallback.Ready /\
  (Fallback.status (Fallback.redis st) = Fallback.Connecting \/
   Fallback.reachable (Fallback.redis st) = false).

(** The hand-off of [p] in two lookups, the second one on the state [st2]:
    the first returns [p]; the second returns nothing, or the cache was
    unavailable to it. *)
Definition handed_off_once (p : Fallback.Payload)
    (r1 r2 : option Fallback.Payload) (st2 : Fallback.State) : Prop :=
  r1 = Some p /\ (r2 = None \/ ~ cache_available st2).

End Spec.

(** * Sample environments and data

    Stand-ins for the parameters, precise enough to run the services on
    small inputs, and the sample inputs the examples below use. *)
Module Examples.

(** Low-order rational approximations of the numeric primitives. They are
    exact at the points the samples rely on: [sin 0 = 0], [cos 0 = 1],
    [sqrt 0 = 0], [sqrt 1 = 1] and [atan2 0 x = 0] for positive [x]. *)
Definition approx_exp (x : Q) : Q :=
  Qred (if Qleb x 0 then 1 / (1 - x + x * x / 2) else 1 + x + x * x / 2).

Definition approx_sin (x : Q) : Q := Qred (x - x * x * x / 6).

Definition approx_cos (x : Q) : Q := Qred (1 - x * x / 2).

(** Two Newton steps from [(1 + a) / 2]. *)
Definition approx_sqrt (a : Q) : Q :=
  if Qeq_bool a 0 then 0
  else
    let x0 := (1 + a) / 2 in
    let x1 := (x0 + a / x0) / 2 in
    Qred ((x1 + a / x1) / 2).

Definition approx_atan2 (y x : Q) : Q :=
  if Qeq_bool y 0 then 0
  else if Qeq_bool x 0 then (355 # 226)
  else let z := y / x in Qred (z - z * z * z / 3).

Definition sampleMath : MathLib :=
  {| Math_exp := approx_exp;
     Math_sin := approx_sin;
     Math_cos := approx_cos;
     Math_sqrt := approx_sqrt;
     Math_atan2 := approx_atan2;
     Math_PI := 355 # 113 |}.

(** Decimal digits of a natural number. *)
Definition digits (n : Z) : string :=
  NilZero.string_of_uint (N.to_uint (Z.to_N n)).

Fixpoint zeros (n : nat) : string :=
  match n with
  | O => EmptyString
  | S k => String "0" (zeros k)
  end.

Definition pad_left (width : nat) (s : string) : string :=
  (zeros (width - String.length s) ++ s)%string.

(** [x.toFixed(5)] *)
Definition toFixed5 (x : Q) : string :=
  let n := Qfloor (Qabs x * 100000 + (1 # 2)) in
  let body := (digits (n / 100000) ++ "." ++ pad_left 5 (digits (n mod 100000)))%string in
  if Qltb x 0 then String "-" body else body.

Definition number_of (s : string) : Q :=
  match NilZero.uint_of_string s with
  | Some u => inject_Z (Z.of_N (N.of_uint u))
  | None => 0
  end.

(** [parseFloat(s)] on a plain decimal numeral. *)
Definition parseFloat (s : string) : Q :=
  let '(negative, body) :=
    match s with
    | String "-" r => (true, r)
    | _ => (false, s)
    end in
  let value :=
    match split_on "." body with
    | [ip] => number_of ip
    | ip :: fp :: _ =>
        number_of ip + number_of fp / inject_Z (10 ^ Z.of_nat (String.length fp))
    | [] => 0
    end in
  Qred (if negative then - value else value).

(** The spherical cap on a small patch, in degrees on a flat map. *)
Definition flatSphere (c : Point) (r : Q) (p : Point) : bool :=
  let dlat := p_lat p - p_lat c in
  let dlng := p_lng p - p_lng c in
  let deg := r * 180 / (355 # 113) in
  Qleb (dlat * dlat + dlng * dlng) (deg * deg).

(** A geocoder whose requests fail north of 13 degrees. *)
Definition flakyGeocoder (lat lng : Q) : result string :=
  if Qleb 13 lat then Throw "geocoder: request failed" else Ok "MG Road".

Definition riskEnv : RiskEngine.Env :=
  {| RiskEngine.math := sampleMath;
     RiskEngine.toFixed5 := toFixed5;
     RiskEngine.parseFloat := parseFloat;
     RiskEngine.centerSphere := flatSphere;
     RiskEngine.getGridName := flakyGeocoder |}.

Definition now0 : Z := 1700000000000.
Definition hour : Z := 3600000.
Definition day : Z := 86400000.

(** A distress signal in the north, one hour old. *)
Definition sosNorth : SOSAlert :=
  {| sos_location := Some {| p_lng := 775946 # 10000; p_lat := 130500 # 10000 |};
     sos_timestamp := now0 - hour;
     sos_status := "new";
     sos_safetyScore := Some 60;
     sos_reason := Some "lost" |}.

(** A distress signal in the centre with a very low safety score. *)
Definition sosCentre : SOSAlert :=
  {| sos_location := Some {| p_lng := 775946 # 10000; p_lat := 129716 # 10000 |};
     sos_timestamp := now0 - hour;
     sos_status := "new";
     sos_safetyScore := Some 20;
     sos_reason := Some "IMMEDIATE PANIC" |}.

Definition gidNorth : string := "13.05225_77.59575".
Definition gidCentre : string := "12.97125_77.59575".

Definition db0 : DB :=
  {| sosAlerts := [sosNorth; sosCentre]; incidents := []; riskGrids := ∅ |}.

Definition dbCentre : DB :=
  {| sosAlerts := [sosCentre]; incidents := []; riskGrids := ∅ |}.

(** The database after a call of [processGrid] that completes. *)
Definition after (r : result DB) (db : DB) : DB :=
  match r with
  | Ok db' => db'
  | Throw _ => db
  end.

Definition dbCentre1 : DB :=
  after (RiskEngine.processGrid riskEnv now0 gidCentre dbCentre) dbCentre.

Definition dbCentre2 : DB :=
  after (RiskEngine.processGrid riskEnv (now0 + day) gidCentre dbCentre1) dbCentre1.

(** A cluster in the centre: five signals thirty days old to the
    millisecond and one of the day before, none with a low safety score. *)
Definition sosAt (time : Z) : SOSAlert :=
  {| sos_location := Some {| p_lng := 775946 # 10000; p_lat := 129716 # 10000 |};
     sos_timestamp := time;
     sos_status := "new";
     sos_safetyScore := Some 80;
     sos_reason := Some "lost" |}.

Definition dbCluster : DB :=
  {| sosAlerts := [sosAt (now0 - 30 * day); sosAt (now0 - 30 * day);
                   sosAt (now0 - 30 * day); sosAt (now0 - 30 * day);
                   sosAt (now0 - 30 * day); sosAt (now0 - day)];
     incidents := [];
     riskGrids := ∅ |}.

(** The cluster evaluated at [now0], and one millisecond later. *)
Definition dbCluster1 : DB :=
  after (RiskEngine.processGrid riskEnv now0 gidCentre dbCluster) dbCluster.

Definition dbCluster2 : DB :=
  after (RiskEngine.processGrid riskEnv (now0 + 1) gidCentre dbCluster1) dbCluster1.

(** A signal of very low safety score that is dated one day ahead. *)
Definition sosAhead : SOSAlert :=
  {| sos_location := Some {| p_lng := 775946 # 10000; p_lat := 129716 # 10000 |};
     sos_timestamp := now0 + day;
     sos_status := "new";
     sos_safetyScore := Some 20;
     sos_reason := Some "medical" |}.

Definition dbAhead : DB :=
  {| sosAlerts := [sosAhead]; incidents := []; riskGrids := ∅ |}.

Definition dbAhead1 : DB :=
  after (RiskEngine.processGrid riskEnv now0 gidCentre dbAhead) dbAhead.

(** The two signals in the other order. *)
Definition db1 : DB :=
  {| sosAlerts := [sosCentre; sosNorth]; incidents := []; riskGrids := ∅ |}.

(** ** A scoring pass at the centre of a risk grid *)

Definition lat0 : Q := 1297125 # 100000.
Definition lng0 : Q := 7759575 # 100000.

Definition reasonOf (eventType : string) : Reason :=
  {| r_type := "incident";
     r_title := "report";
     r_timestamp := now0 - hour;
     r_severity := Some (1 # 2);
     r_eventType := Some eventType |}.

(** A grid centred on the query point, with four kinds of event. *)
Definition busyGrid : RiskGrid :=
  {| gridId := gidCentre;
     location := {| p_lng := lng0; p_lat := lat0 |};
     riskScore := 9 # 10;
     riskLevel := VeryHigh;
     tierLevel := Critical;
     radius := 1500;
     expiresAt := now0 + 29 * day;
     lastUpdated := now0 - hour;
     gridName := "MG Road";
     reasons := [reasonOf "theft"; reasonOf "assault"; reasonOf "riot";
                 reasonOf "flood"] |}.

(** A distress signal and an incident at the centre of that grid. *)
Definition sosInGrid : SOSAlert :=
  {| sos_location := Some {| p_lng := lng0; p_lat := lat0 |};
     sos_timestamp := now0 - hour;
     sos_status := "new";
     sos_safetyScore := Some 20;
     sos_reason := Some "medical" |}.

Definition incidentInGrid : Incident :=
  {| inc_location := Some {| p_lng := lng0; p_lat := lat0 |};
     inc_timestamp := now0 - hour;
     inc_severity := Some (7 # 10);
     inc_title := Some "phone stolen";
     inc_type := Some "theft" |}.

Definition scoreEnv : SafetyScore.Env :=
  {| SafetyScore.math := sampleMath;
     SafetyScore.findRiskGrids := fun _ _ _ => Ok [busyGrid];
     SafetyScore.findDangerZones := fun _ _ _ => Ok [];
     SafetyScore.findSOS := fun _ _ _ => Ok [sosInGrid];
     SafetyScore.findIncidents := fun _ _ _ => Ok [incidentInGrid] |}.

(** The same pass when the query for the incidents is rejected. *)
Definition brokenScoreEnv : SafetyScore.Env :=
  SafetyScore.with_findIncidents scoreEnv (fun _ _ _ => Throw "MongoNetworkError").

(** The same pass with no grid near: only the raw events count. *)
Definition rawScoreEnv : SafetyScore.Env :=
  {| SafetyScore.math := sampleMath;
     SafetyScore.findRiskGrids := fun _ _ _ => Ok [];
     SafetyScore.findDangerZones := fun _ _ _ => Ok [];
     SafetyScore.findSOS := fun _ _ _ => Ok [sosInGrid];
     SafetyScore.findIncidents := fun _ _ _ => Ok [incidentInGrid] |}.

(** ** Live connections and authority alerts *)

Definition connection (id : string) (lat lng : Q) : Realtime.Socket :=
  {| Realtime.sock_id := id;
     Realtime.sock_location :=
       Some {| Realtime.loc_lat := Some lat; Realtime.loc_lng := Some lng |} |}.

Definition touristNear : Realtime.Socket := connection "sock-1" lat0 lng0.
Definition touristFar : Realtime.Socket := connection "sock-2" (lat0 + (1 # 100)) lng0.
Definition touristEquator : Realtime.Socket := connection "sock-3" 0 lng0.
Definition touristSilent : Realtime.Socket :=
  {| Realtime.sock_id := "sock-4"; Realtime.sock_location := None |}.

Definition stCity : Realtime.State :=
  {| Realtime.io := true;
     Realtime.touristSockets :=
       [("T1", [touristNear]); ("T2", [touristFar; touristSilent])] |}.

Definition stEquator : Realtime.State :=
  {| Realtime.io := true;
     Realtime.touristSockets := [("T3", [touristEquator])] |}.

Definition floodAlert (area : option Realtime.TargetArea) : Realtime.AlertData :=
  {| Realtime.ad_type := Some "emergency";
     Realtime.ad_title := Some "Flood";
     Realtime.ad_message := Some "Move to higher ground";
     Realtime.ad_priority := Some "critical";
     Realtime.ad_authorityName := None;
     Realtime.ad_authorityId := Some "A7";
     Realtime.ad_requiresAcknowledgment := None;
     Realtime.ad_actionRequired := None;
     Realtime.ad_expiresAt := None;
     Realtime.ad_targetArea := area |}.

Definition areaCity : Realtime.TargetArea :=
  {| Realtime.ta_lat := lat0; Realtime.ta_lng := lng0; Realtime.ta_radius := 1000 |}.

(** A target area of radius 0: its centre is on the boundary. *)
Definition areaPoint : Realtime.TargetArea :=
  {| Realtime.ta_lat := lat0; Realtime.ta_lng := lng0; Realtime.ta_radius := 0 |}.

Definition areaEquator : Realtime.TargetArea :=
  {| Realtime.ta_lat := 0; Realtime.ta_lng := lng0; Realtime.ta_radius := 1000 |}.

(** What a call that completes has sent. *)
Definition sent (r : result (list Realtime.Emission)) : list Realtime.Emission :=
  match r with
  | Ok out => out
  | Throw _ => []
  end.

Definition broadcast (st : Realtime.State) (area : option Realtime.TargetArea)
  : list Realtime.Emission :=
  sent (Realtime.emitAuthorityAlertToTourists sampleMath st "auth-alert-1" now0
          (floodAlert area)).

(** ** Fallback hand-off *)

(** A small text codec for payloads: [{alertId=...;key=value;...}]. *)
Definition stringify (p : Fallback.Payload) : string :=
  ("{" ++ join ";" (("alertId=" ++ Fallback.alertId p)
                    :: map (fun kv => fst kv ++ "=" ++ snd kv) (Fallback.fields p))
   ++ "}")%string.

Definition field_of (item : list string) : option (string * string) :=
  match item with
  | [k; v] => Some (k, v)
  | _ => None
  end.

Definition parse (s : string) : option Fallback.Payload :=
  match s with
  | String "{" r =>
      match split_on "}" r with
      | [body; EmptyString] =>
          match map (split_on "=") (split_on ";" body) with
          | ["alertId"; id] :: items =>
              fs ← mapM field_of items;
              Some {| Fallback.alertId := id; Fallback.fields := fs |}
          | _ => None
          end
      | _ => None
      end
  | _ => None
  end.

Definition jsonEnv : Fallback.Env :=
  {| Fallback.JSON_stringify := stringify; Fallback.JSON_parse := parse |}.

Definition alert42 : Fallback.Payload :=
  {| Fallback.alertId := "sos-42";
     Fallback.fields := [("touristId", "T1"); ("status", "new")] |}.

(** The cache client before its first connection, the server being up. *)
Definition redisIdle : Fallback.Redis :=
  {| Fallback.status := Fallback.Wait;
     Fallback.reachable := true;
     Fallback.failing := false;
     Fallback.store := ∅ |}.

Definition redisDown : Fallback.Redis :=
  {| Fallback.status := Fallback.Wait;
     Fallback.reachable := false;
     Fallback.failing := false;
     Fallback.store := ∅ |}.

Definition redisUp : Fallback.Redis :=
  {| Fallback.status := Fallback.Ready;
     Fallback.reachable := true;
     Fallback.failing := false;
     Fallback.store := ∅ |}.

Definition stIdle : Fallback.State :=
  {| Fallback.redis := redisIdle; Fallback.log := [] |}.

Definition stOutage : Fallback.State :=
  {| Fallback.redis := redisDown; Fallback.log := [] |}.

(** The alert was handed to the fallback during an outage, and the cache
    came back afterwards. *)
Definition stRecovered : Fallback.State :=
  {| Fallback.redis := redisUp;
     Fallback.log := Fallback.log (Fallback.handleSOSFallback jsonEnv now0 alert42 stOutage) |}.

End Examples.

(** * More sample data *)
Module Samples.
Import Examples.

(** The risk engine with a geocoder that always answers. *)
Definition steadyEnv : RiskEngine.Env :=
  {| RiskEngine.math := sampleMath;
     RiskEngine.toFixed5 := toFixed5;
     RiskEngine.parseFloat := parseFloat;
     RiskEngine.centerSphere := flatSphere;
     RiskEngine.getGridName := fun _ _ => Ok "Old Town" |}.

(** A cell left over from events that are gone. *)
Definition staleCell : RiskGrid :=
  {| gridId := gidNorth;
     location := {| p_lng := lng0; p_lat := 1305225 # 100000 |};
     riskScore := 4 # 10;
     riskLevel := Medium;
     tierLevel := Standard;
     radius := 500;
     expiresAt := now0 - day;
     lastUpdated := now0 - 2 * day;
     gridName := "Hill Road";
     reasons := [] |}.

(** One stale cell in the north and one signal in the centre. *)
Definition dbStale : DB :=
  {| sosAlerts := [sosCentre];
     incidents := [];
     riskGrids := {[ gidNorth := staleCell ]} |}.

(** A distress signal that carries no coordinates. *)
Definition sosNowhere : SOSAlert :=
  {| sos_location := None;
     sos_timestamp := now0 - hour;
     sos_status := "new";
     sos_safetyScore := Some 10;
     sos_reason := Some "sos" |}.

Definition incidentNowhere : Incident :=
  {| inc_location := None;
     inc_timestamp := now0 - hour;
     inc_severity := Some 1;
     inc_title := Some "riot";
     inc_type := Some "riot" |}.

Definition nowhereScoreEnv : SafetyScore.Env :=
  {| SafetyScore.math := sampleMath;
     SafetyScore.findRiskGrids := fun _ _ _ => Ok [];
     SafetyScore.findDangerZones := fun _ _ _ => Ok [];
     SafetyScore.findSOS := fun _ _ _ => Ok [sosNowhere; sosInGrid];
     SafetyScore.findIncidents := fun _ _ _ => Ok [incidentInGrid; incidentNowhere] |}.

(** A cache that is connected and rejects every command. *)
Definition redisRejecting : Fallback.Redis :=
  {| Fallback.status := Fallback.Ready;
     Fallback.reachable := true;
     Fallback.failing := true;
     Fallback.store := ∅ |}.

Definition alert43 : Fallback.Payload :=
  {| Fallback.alertId := "sos-43";
     Fallback.fields := [("touristId", "T2"); ("status", "new")] |}.

(** The alert 42 again, with another status. *)
Definition alert42b : Fallback.Payload :=
  {| Fallback.alertId := "sos-42";
     Fallback.fields := [("touristId", "T1"); ("status", "acknowledged")] |}.

(** A quotient rounded to the nearest multiple of 2^-20. *)
Definition roundedQuot (x : Q) : Q :=
  Qred (inject_Z (Qfloor (x / RiskEngine.GRID_SIZE_DEG * 1048576 + (1 # 2)))
        / 1048576).

(** ** Connections *)

(** The scorer over the sample data. With a coordinate missing it is taken
    to give its default answer. *)
Definition scorer (la ln : option Q) : SafetyScore.ScoreResult :=
  match la, ln with
  | Some a, Some b => SafetyScore.calculateSafetyScore scoreEnv now0 a b
  | _, _ => SafetyScore.safeDefault now0 (default 0 la) (default 0 ln)
  end.

Definition srvEmpty : Connections.Server :=
  {| Connections.io := true;
     Connections.sockets := ∅;
     Connections.authoritySockets := [];
     Connections.touristSockets := [];
     Connections.touristLastScores := ∅ |}.

Definition here : Realtime.Location :=
  {| Realtime.loc_lat := Some lat0; Realtime.loc_lng := Some lng0 |}.

Definition asTourist (id : string) (l : option Realtime.Location)
  : Connections.Registration :=
  {| Connections.role := Some "tourist";
     Connections.reg_userId := None;
     Connections.reg_touristId := Some id;
     Connections.reg_location := l |}.

(** The tourist T1 on one device, with a location. *)
Definition srvOne : Connections.Server :=
  fst (Connections.registerTourist scorer "s1" (Some (asTourist "T1" (Some here)))
         (Connections.connection "s1" srvEmpty)).

(** A second device of T1 and a device of T2, both without a location. *)
Definition srvTwo : Connections.Server :=
  fst (Connections.registerTourist scorer "s3" (Some (asTourist "T2" None))
         (Connections.connection "s3"
            (fst (Connections.registerTourist scorer "s2" (Some (asTourist "T1" None))
                    (Connections.connection "s2" srvOne))))).

(** The state [srvOne] with a last score of 0 for T1. *)
Definition srvZero : Connections.Server :=
  {| Connections.io := true;
     Connections.sockets := Connections.sockets srvOne;
     Connections.authoritySockets := [];
     Connections.touristSockets := Connections.touristSockets srvOne;
     Connections.touristLastScores := {[ Some "T1" := 0%Z ]} |}.

End Samples.

(** * Properties *)

(** ** Comparisons on exact numbers *)

Lemma Qleb_le x y : Qleb x y = true <-> x <= y.
Proof. unfold Qleb. apply Qle_bool_iff. Qed.

Lemma Qleb_gt x y : Qleb x y = false <-> y < x.
Proof.
  unfold Qleb. split; intros H.
  - apply Qnot_le_lt. intros Hle. apply Qle_bool_iff in Hle. congruence.
  - destruct (Qle_bool x y) eqn:E; [|reflexivity].
    apply Qle_bool_iff in E. exfalso. apply (Qlt_not_le _ _ H E).
Qed.

Lemma Qltb_lt x y : Qltb x y = true <-> x < y.
Proof.
  unfold Qltb. rewrite negb_true_iff. apply Qleb_gt.
Qed.

Lemma Qltb_ge x y : Qltb x y = false <-> y <= x.
Proof.
  unfold Qltb. rewrite negb_false_iff. apply Qleb_le.
Qed.


(** ** The risk engine *)

Section RiskEngineFacts.
Import RiskEngine.
Variable env : Env.

Lemma determineTier_rule (count : nat) (sev saf : Q) :
  let pl := determineTier count sev saf in
  Spec.tier_rule count sev saf (tier pl) (durationDays pl) (displayRadius pl).
Proof.
  unfold determineTier, Qgeb.
  destruct (5 <? Z.of_nat count)%Z eqn:Hc5;
    destruct (Qleb (8 # 10) sev) eqn:Hs8;
    destruct (Qleb saf 30) eqn:Hf30; simpl;
    try (apply Spec.rule_critical; unfold Spec.critical_signal;
         first [ left; apply Z.ltb_lt in Hc5; lia
               | right; left; apply Qleb_le; assumption
               | right; right; apply Qleb_le; assumption ]).
  assert (Hnc : ~ Spec.critical_signal count sev saf).
  { intros [H | [H | H]].
    - apply Z.ltb_ge in Hc5. lia.
    - apply Qleb_gt in Hs8. apply (Qlt_not_le _ _ Hs8 H).
    - apply Qleb_gt in Hf30. apply (Qlt_not_le _ _ Hf30 H). }
  destruct (2 <? Z.of_nat count)%Z eqn:Hc2;
    destruct (Qleb (6 # 10) sev) eqn:Hs6;
    destruct (Qleb saf 50) eqn:Hf50; simpl;
    try (apply Spec.rule_high; [exact Hnc|]; unfold Spec.high_signal;
         first [ left; apply Z.ltb_lt in Hc2; lia
               | right; left; apply Qleb_le; assumption
               | right; right; apply Qleb_le; assumption ]).
  apply Spec.rule_standard; [exact Hnc|].
  intros [H | [H | H]].
  - apply Z.ltb_ge in Hc2. lia.
  - apply Qleb_gt in Hs6. apply (Qlt_not_le _ _ Hs6 H).
  - apply Qleb_gt in Hf50. apply (Qlt_not_le _ _ Hf50 H).
Qed.

(** The two ways [processGrid] completes: eviction of an expired cell, or
    the upsert of [cellFor]. *)
Lemma processGrid_Ok now gid db db' :
  processGrid env now gid db = Ok db' ->
  let expires := expiryOf (scannedSOS env now gid db) (scannedIncidents env now gid db) in
  ((expires < now)%Z /\ riskGrids db' !! gid = None) \/
  ((now <= expires)%Z /\
   exists name, riskGrids db' !! gid = Some (cellFor env now gid db name)).
Proof.
  intros H expires. unfold processGrid in H. fold expires in H.
  destruct (expires <? now)%Z eqn:Hexp.
  - left. apply Z.ltb_lt in Hexp. split; [exact Hexp|].
    injection H as <-. simpl. apply lookup_delete_eq.
  - right. apply Z.ltb_ge in Hexp. split; [exact Hexp|].
    destruct (carriedName (riskGrids db !! gid)) as [n|].
    + simpl in H. injection H as <-. exists n. simpl. apply lookup_insert_eq.
    + destruct (getGridName env _ _) as [n|e]; simpl in H; [|discriminate].
      injection H as <-. exists n. simpl. apply lookup_insert_eq.
Qed.

Lemma determineTier_cases (count : nat) (sev saf : Q) :
  let pl := determineTier count sev saf in
  durationMs pl = Spec.retentionMs (tier pl) /\
  (0 < durationMs pl)%Z /\
  (forall ratio, tier pl <> Standard ->
     dynamicFloor (tier pl) ratio = Some (Spec.ceiling (tier pl) * ratio)).
Proof.
  unfold determineTier.
  destruct (_ || _ || _); [|destruct (_ || _ || _)]; simpl;
    (split; [reflexivity|split; [reflexivity|]]);
    intros ratio Hne; try reflexivity.
  congruence.
Qed.

(** C1. Each recomputation of a cell by [processGrid] classifies it by the
    fixed thresholds on the combined event count, the highest incident
    severity and the lowest safety score of the scanned events: Critical
    (30 days, 1500 m), else High (14 days, 1000 m), else Standard (7 days,
    500 m). The retention decides the eviction, and a cell that is
    persisted carries the tier, the radius and the expiry. *)
Theorem C1_tier_thresholds now gid db db' :
  processGrid env now gid db = Ok db' ->
  let sos := scannedSOS env now gid db in
  let incs := scannedIncidents env now gid db in
  exists t days metres,
    Spec.tier_rule (length sos + length incs)
                   (maxIncidentSeverity incs) (minSosSafetyScore sos)
                   t days metres /\
    let expiry := (latestEventTime sos incs + days * MS_PER_DAY)%Z in
    ((expiry < now)%Z /\ riskGrids db' !! gid = None) \/
    ((now <= expiry)%Z /\
     exists cell, riskGrids db' !! gid = Some cell /\
                  tierLevel cell = t /\ radius cell = metres /\
                  expiresAt cell = expiry).
Proof.
  intros H sos incs.
  exists (tier (planOf sos incs)), (durationDays (planOf sos incs)),
         (displayRadius (planOf sos incs)).
  split; [apply determineTier_rule|].
  apply processGrid_Ok in H. cbv zeta in H. fold sos incs in H.
  destruct H as [[Hlt Hnone] | [Hle [name Hsome]]].
  - left. split; assumption.
  - right. split; [exact Hle|].
    exists (cellFor env now gid db name). repeat split; try reflexivity.
    exact Hsome.
Qed.

(** The folds of lines 103-121 compute a maximum and a minimum. *)
Lemma maxIncidentSeverity_fold (incs : list Incident) (a : Q) :
  let r := fold_left (fun m i =>
                        match inc_severity i with
                        | Some s => if Qgtb s m then s else m
                        | None => m
                        end) incs a in
  a <= r /\
  (forall i s, In i incs -> inc_severity i = Some s -> s <= r) /\
  (r = a \/ exists i, In i incs /\ inc_severity i = Some r).
Proof.
  revert a. induction incs as [|i incs IH]; intros a; simpl.
  - split; [apply Qle_refl|]. split; [intros ? ? []|]. left; reflexivity.
  - set (a' := match inc_severity i with
               | Some s => if Qgtb s a then s else a
               | None => a
               end).
    destruct (IH a') as (Hle & Hall & Hatt).
    assert (Ha : a <= a').
    { unfold a'. destruct (inc_severity i) as [s|]; [|apply Qle_refl].
      destruct (Qgtb s a) eqn:E; [|apply Qle_refl].
      apply Qltb_lt in E. apply Qlt_le_weak. exact E. }
    split; [eapply Qle_trans; eassumption|]. split.
    + intros j s [<- | Hin] Hs.
      * eapply Qle_trans; [|exact Hle]. unfold a'. rewrite Hs.
        destruct (Qgtb s a) eqn:E; [apply Qle_refl|].
        apply Qltb_ge in E. exact E.
      * eapply Hall; eassumption.
    + destruct Hatt as [-> | (j & Hin & Hj)].
      * unfold a'. destruct (inc_severity i) as [s|] eqn:Hs; [|left; reflexivity].
        destruct (Qgtb s a); [|left; reflexivity].
        right. exists i. split; [left; reflexivity|exact Hs].
      * right. exists j. split; [right; exact Hin|exact Hj].
Qed.

Lemma maxIncidentSeverity_max (incs : list Incident) :
  (forall i s, In i incs -> inc_severity i = Some s ->
               s <= maxIncidentSeverity incs) /\
  (maxIncidentSeverity incs = 0 \/
   exists i, In i incs /\ inc_severity i = Some (maxIncidentSeverity incs)).
Proof.
  destruct (maxIncidentSeverity_fold incs 0) as (_ & H1 & H2).
  split; assumption.
Qed.

Lemma minSosSafetyScore_fold (sos : list SOSAlert) (a : Q) :
  let r := fold_left (fun m x =>
                        match sos_safetyScore x with
                        | Some s => if Qltb s m then s else m
                        | None => m
                        end) sos a in
  r <= a /\
  (forall x s, In x sos -> sos_safetyScore x = Some s -> r <= s) /\
  (r = a \/ exists x, In x sos /\ sos_safetyScore x = Some r).
Proof.
  revert a. induction sos as [|x sos IH]; intros a; simpl.
  - split; [apply Qle_refl|]. split; [intros ? ? []|]. left; reflexivity.
  - set (a' := match sos_safetyScore x with
               | Some s => if Qltb s a then s else a
               | None => a
               end).
    destruct (IH a') as (Hle & Hall & Hatt).
    assert (Ha : a' <= a).
    { unfold a'. destruct (sos_safetyScore x) as [s|]; [|apply Qle_refl].
      destruct (Qltb s a) eqn:E; [|apply Qle_refl].
      apply Qltb_lt in E. apply Qlt_le_weak. exact E. }
    split; [eapply Qle_trans; eassumption|]. split.
    + intros j s [<- | Hin] Hs.
      * eapply Qle_trans; [exact Hle|]. unfold a'. rewrite Hs.
        destruct (Qltb s a) eqn:E; [apply Qle_refl|].
        apply Qltb_ge in E. exact E.
      * eapply Hall; eassumption.
    + destruct Hatt as [-> | (j & Hin & Hj)].
      * unfold a'. destruct (sos_safetyScore x) as [s|] eqn:Hs; [|left; reflexivity].
        destruct (Qltb s a); [|left; reflexivity].
        right. exists x. split; [left; reflexivity|exact Hs].
      * right. exists j. split; [right; exact Hin|exact Hj].
Qed.

Lemma minSosSafetyScore_min (sos : list SOSAlert) :
  (forall x s, In x sos -> sos_safetyScore x = Some s ->
               minSosSafetyScore sos <= s) /\
  (minSosSafetyScore sos = 100 \/
   exists x, In x sos /\ sos_safetyScore x = Some (minSosSafetyScore sos)).
Proof.
  destruct (minSosSafetyScore_fold sos 100) as (_ & H1 & H2).
  split; assumption.
Qed.

Lemma latestOf_upper (times : list Z) (start : Z) :
  (start <= latestOf times start)%Z /\
  (forall t, In t times -> (t <= latestOf times start)%Z).
Proof.
  revert start. induction times as [|t times IH]; intros start; simpl.
  - split; [lia|intros ? []].
  - destruct (IH (if (start <? t)%Z then t else start)) as [H1 H2].
    destruct (start <? t)%Z eqn:E;
      [apply Z.ltb_lt in E|apply Z.ltb_ge in E];
      (split; [lia|]); intros u [<- | Hin]; try lia; apply H2; exact Hin.
Qed.

(** ** Score range and level bands *)

Lemma clamp01_range (x : Q) : 0 <= clamp01 x /\ clamp01 x <= 1.
Proof.
  unfold clamp01, Math_min, Math_max. split.
  - apply Q.min_glb; [apply Q.le_max_r|discriminate].
  - apply Q.le_min_r.
Qed.

Lemma clamp01_lower (x fl : Q) : fl <= x -> fl <= 1 -> fl <= clamp01 x.
Proof.
  intros Hx H1. unfold clamp01, Math_min, Math_max.
  apply Q.min_glb; [|exact H1].
  eapply Qle_trans; [exact Hx|apply Q.le_max_l].
Qed.

Lemma riskLevelOf_band (s : Q) : Spec.level_band s (riskLevelOf s).
Proof.
  unfold riskLevelOf, Qgeb.
  destruct (Qleb (8 # 10) s) eqn:H8.
  { apply Spec.band_very_high. apply Qleb_le. exact H8. }
  apply Qleb_gt in H8.
  destruct (Qleb (6 # 10) s) eqn:H6.
  { apply Spec.band_high; [apply Qleb_le|]; assumption. }
  apply Qleb_gt in H6.
  destruct (Qleb (3 # 10) s) eqn:H3.
  { apply Spec.band_medium; [apply Qleb_le|]; assumption. }
  apply Qleb_gt in H3. apply Spec.band_low. exact H3.
Qed.

Lemma level_band_monotone (s1 s2 : Q) (l1 l2 : RiskLevel) :
  Spec.level_band s1 l1 -> Spec.level_band s2 l2 -> s1 <= s2 ->
  (Spec.levelRank l1 <= Spec.levelRank l2)%nat.
Proof.
  intros H1 H2 Hle.
  destruct H1, H2; simpl; try lia; exfalso; lra.
Qed.

Lemma riskLevelOf_monotone (s1 s2 : Q) :
  s1 <= s2 ->
  (Spec.levelRank (riskLevelOf s1) <= Spec.levelRank (riskLevelOf s2))%nat.
Proof.
  apply level_band_monotone; apply riskLevelOf_band.
Qed.

(** C8. A cell persisted by [processGrid] has a score in [0, 1], and its
    level is the band of that score: at least 0.8 Very High, at least 0.6
    High, at least 0.3 Medium, else Low. The level is a function of the
    score alone, and a higher score never has a lower level. *)
Theorem C8_score_range_and_level now gid db db' cell :
  processGrid env now gid db = Ok db' ->
  riskGrids db' !! gid = Some cell ->
  (0 <= riskScore cell /\ riskScore cell <= 1) /\
  riskLevel cell = riskLevelOf (riskScore cell) /\
  Spec.level_band (riskScore cell) (riskLevel cell) /\
  (forall s1 s2, s1 <= s2 ->
     (Spec.levelRank (riskLevelOf s1) <= Spec.levelRank (riskLevelOf s2))%nat).
Proof.
  intros H Hcell. apply processGrid_Ok in H. cbv zeta in H.
  destruct H as [[_ Hnone] | [_ [name Hsome]]]; [congruence|].
  rewrite Hsome in Hcell. injection Hcell as <-. simpl.
  split; [apply clamp01_range|]. split; [reflexivity|].
  split; [apply riskLevelOf_band|]. apply riskLevelOf_monotone.
Qed.

(** ** The sliding floor *)

Lemma inject_Z_pos (d : Z) : (0 < d)%Z -> 0 < inject_Z d.
Proof. intros H. unfold Qlt. simpl. lia. Qed.

Lemma inject_Z_nonneg (a : Z) : (0 <= a)%Z -> 0 <= inject_Z a.
Proof. intros H. unfold Qle. simpl. lia. Qed.

Lemma fraction_range (a d : Z) :
  (0 <= a <= d)%Z -> (0 < d)%Z ->
  0 <= inject_Z a / inject_Z d /\ inject_Z a / inject_Z d <= 1.
Proof.
  intros [Ha Had] Hd.
  assert (Hd' : 0 < inject_Z d) by (apply inject_Z_pos; exact Hd).
  split.
  - apply Qle_shift_div_l; [exact Hd'|]. rewrite Qmult_0_l.
    apply inject_Z_nonneg. exact Ha.
  - apply Qle_shift_div_r; [exact Hd'|]. rewrite Qmult_1_l.
    rewrite <- Zle_Qle. exact Had.
Qed.

(** Between the latest event and the expiry the clamps of line 233 leave
    the remaining fraction as it is. *)
Lemma timeRemainingRatio_linear (expiry now d : Z) :
  (expiry - d <= now <= expiry)%Z -> (0 < d)%Z ->
  timeRemainingRatio expiry now d == inject_Z (expiry - now) / inject_Z d.
Proof.
  intros Hnow Hd. unfold timeRemainingRatio, Math_max, Math_min.
  destruct (fraction_range (expiry - now) d) as [H0 H1]; [lia|exact Hd|].
  rewrite (Q.min_r _ _ H1). apply Q.max_r. exact H0.
Qed.

Lemma ceiling_range (t : Tier) : 0 <= Spec.ceiling t /\ Spec.ceiling t <= 1.
Proof. destruct t; simpl; split; discriminate. Qed.

Lemma retentionMs_pos (t : Tier) : (0 < Spec.retentionMs t)%Z.
Proof. destruct t; reflexivity. Qed.

Lemma floorAt_range (t : Tier) (expiry now : Z) :
  (expiry - Spec.retentionMs t <= now <= expiry)%Z ->
  0 <= Spec.floorAt t expiry now /\ Spec.floorAt t expiry now <= 1.
Proof.
  intros Hnow. unfold Spec.floorAt.
  destruct (fraction_range (expiry - now) (Spec.retentionMs t)) as [H0 H1];
    [lia|apply retentionMs_pos|].
  destruct (ceiling_range t) as [Hc0 Hc1].
  set (f := inject_Z (expiry - now) / inject_Z (Spec.retentionMs t)) in *.
  split; [apply Qmult_le_0_compat; assumption|].
  apply Qle_trans with (1 * f); [|rewrite Qmult_1_l; exact H1].
  apply Qmult_le_compat_r; assumption.
Qed.

Lemma floorAt_decreasing (t : Tier) (expiry t1 t2 : Z) :
  t <> Standard -> (t1 < t2)%Z ->
  Spec.floorAt t expiry t2 < Spec.floorAt t expiry t1.
Proof.
  intros Ht Hlt. unfold Spec.floorAt.
  assert (Hd : 0 < inject_Z (Spec.retentionMs t))
    by (apply inject_Z_pos; apply retentionMs_pos).
  assert (Hc : 0 < Spec.ceiling t) by (destruct t; [congruence|reflexivity..]).
  rewrite !(Qmult_comm (Spec.ceiling t)).
  apply Qmult_lt_compat_r; [exact Hc|].
  unfold Qdiv. apply Qmult_lt_compat_r; [apply Qinv_lt_0_compat; exact Hd|].
  rewrite <- Zlt_Qlt. lia.
Qed.

Lemma floorAt_expiry (t : Tier) (expiry : Z) :
  Spec.floorAt t expiry expiry == 0.
Proof.
  unfold Spec.floorAt. rewrite Z.sub_diag. unfold Qdiv.
  rewrite Qmult_0_l. apply Qmult_0_r.
Qed.

(** One evaluation: the floor the code enforces is the linear one, and the
    score to be clamped is not below it. *)
Lemma flooredScore_floor now (sos : list SOSAlert) (incs : list Incident)
    (prevGrid : option RiskGrid) :
  let pl := planOf sos incs in
  let expiry := expiryOf sos incs in
  tier pl <> Standard ->
  (latestEventTime sos incs <= now <= expiry)%Z ->
  exists fl,
    dynamicFloor (tier pl) (timeRemainingRatio expiry now (durationMs pl)) = Some fl /\
    fl == Spec.floorAt (tier pl) expiry now /\
    fl <= flooredScore env now sos incs prevGrid.
Proof.
  intros pl expiry Ht Hnow.
  destruct (determineTier_cases (length sos + length incs)
              (maxIncidentSeverity incs) (minSosSafetyScore sos))
    as (Hdur & Hpos & Hfloor).
  fold (planOf sos incs) in Hdur, Hpos, Hfloor. fold pl in Hdur, Hpos, Hfloor.
  eexists. split; [apply Hfloor; exact Ht|]. split.
  - unfold Spec.floorAt. rewrite <- Hdur.
    rewrite timeRemainingRatio_linear; [reflexivity| |exact Hpos].
    subst pl expiry. unfold expiryOf in *. lia.
  - unfold flooredScore. fold pl. fold expiry. unfold applyFloor.
    rewrite (Hfloor _ Ht). apply Q.le_max_r.
Qed.

(** *** The latest event between two evaluations *)

Lemma latestOf_attained (times : list Z) (start : Z) :
  latestOf times start = start \/ In (latestOf times start) times.
Proof.
  revert start. induction times as [|t times IH]; intros start; simpl.
  - left. reflexivity.
  - destruct (IH (if (start <? t)%Z then t else start)) as [H | H].
    + rewrite H. destruct (start <? t)%Z; [right; left|left]; reflexivity.
    + right. right. exact H.
Qed.

Lemma latestEventTime_spec (sos : list SOSAlert) (incs : list Incident) :
  let latest := latestEventTime sos incs in
  (0 <= latest)%Z /\
  (forall a, In a sos -> (sos_timestamp a <= latest)%Z) /\
  (forall i, In i incs -> (inc_timestamp i <= latest)%Z) /\
  (latest = 0%Z \/
   (exists a, In a sos /\ sos_timestamp a = latest) \/
   (exists i, In i incs /\ inc_timestamp i = latest)).
Proof.
  unfold latestEventTime.
  set (l1 := latestOf (map sos_timestamp sos) 0).
  destruct (latestOf_upper (map sos_timestamp sos) 0) as [H10 H1].
  destruct (latestOf_upper (map inc_timestamp incs) l1) as [H20 H2].
  fold l1 in H10, H1. cbv zeta. split; [lia|]. split; [|split].
  - intros a Ha. specialize (H1 (sos_timestamp a) (in_map _ _ _ Ha)). lia.
  - intros i Hi. apply H2. apply in_map. exact Hi.
  - destruct (latestOf_attained (map inc_timestamp incs) l1) as [H | H].
    + rewrite H.
      destruct (latestOf_attained (map sos_timestamp sos) 0) as [H' | H'];
        fold l1 in H'.
      * left. exact H'.
      * right. left. apply in_map_iff in H' as (a & Ha & Hin). exists a. tauto.
    + right. right. apply in_map_iff in H as (i & Hi & Hin). exists i. tauto.
Qed.

Lemma scanSOS_In (c : Point) (w : Z) (db : DB) (a : SOSAlert) :
  In a (scanSOS env c w db) <->
  In a (sosAlerts db) /\ in_scan env c (sos_location a) = true /\
  (w <= sos_timestamp a)%Z /\ sos_status a = "new".
Proof.
  unfold scanSOS. rewrite <- !list_elem_of_In, list_elem_of_filter.
  rewrite !andb_True, !Is_true_true, Z.leb_le, String.eqb_eq. tauto.
Qed.

Lemma scanIncidents_In (c : Point) (w : Z) (db : DB) (i : Incident) :
  In i (scanIncidents env c w db) <->
  In i (incidents db) /\ in_scan env c (inc_location i) = true /\
  (w <= inc_timestamp i)%Z.
Proof.
  unfold scanIncidents. rewrite <- !list_elem_of_In, list_elem_of_filter.
  rewrite !andb_True, !Is_true_true, Z.leb_le. tauto.
Qed.

Lemma durationMs_le_lookback (count : nat) (sev saf : Q) :
  (durationMs (determineTier count sev saf) <= LOOKBACK_MS)%Z.
Proof.
  unfold determineTier.
  destruct (_ || _ || _); [|destruct (_ || _ || _)]; vm_compute; discriminate.
Qed.

(** With the same events on record, a cell that is not expired at the
    second evaluation has the same latest event at both. *)
Lemma latestEventTime_stable t1 t2 gid (db1 db2 : DB) :
  sosAlerts db2 = sosAlerts db1 ->
  incidents db2 = incidents db1 ->
  (t1 <= t2)%Z ->
  (t2 <= expiryOf (scannedSOS env t2 gid db2) (scannedIncidents env t2 gid db2))%Z ->
  latestEventTime (scannedSOS env t2 gid db2) (scannedIncidents env t2 gid db2)
  = latestEventTime (scannedSOS env t1 gid db1) (scannedIncidents env t1 gid db1).
Proof.
  intros Hsos Hinc Ht Hlive.
  set (S1 := scannedSOS env t1 gid db1). set (I1 := scannedIncidents env t1 gid db1).
  set (S2 := scannedSOS env t2 gid db2) in *.
  set (I2 := scannedIncidents env t2 gid db2) in *.
  destruct (latestEventTime_spec S1 I1) as (H10 & H1s & H1i & H1a).
  destruct (latestEventTime_spec S2 I2) as (H20 & H2s & H2i & H2a).
  assert (Hwin : (t2 - LOOKBACK_MS <= latestEventTime S2 I2)%Z).
  { unfold expiryOf in Hlive.
    pose proof (durationMs_le_lookback (length S2 + length I2)
                  (maxIncidentSeverity I2) (minSosSafetyScore S2)) as Hd.
    fold (planOf S2 I2) in Hd. lia. }
  assert (HS21 : forall a, In a S2 -> In a S1).
  { intros a Ha. apply scanSOS_In in Ha as (Hin & Hgeo & Hw & Hst).
    apply scanSOS_In. rewrite <- Hsos. repeat split; try assumption. lia. }
  assert (HI21 : forall i, In i I2 -> In i I1).
  { intros i Hi. apply scanIncidents_In in Hi as (Hin & Hgeo & Hw).
    apply scanIncidents_In. rewrite <- Hinc. repeat split; try assumption. lia. }
  assert (H21 : (latestEventTime S2 I2 <= latestEventTime S1 I1)%Z).
  { destruct H2a as [H | [(a & Ha & Hts) | (i & Hi & Hts)]].
    - lia.
    - rewrite <- Hts. apply H1s. apply HS21. exact Ha.
    - rewrite <- Hts. apply H1i. apply HI21. exact Hi. }
  apply Z.le_antisymm; [exact H21|].
  - destruct H1a as [H | [(a & Ha & Hts) | (i & Hi & Hts)]].
    + lia.
    + rewrite <- Hts. apply H2s.
      apply scanSOS_In in Ha as (Hin & Hgeo & Hw & Hst).
      apply scanSOS_In. rewrite Hsos. repeat split; try assumption. lia.
    + rewrite <- Hts. apply H2i.
      apply scanIncidents_In in Hi as (Hin & Hgeo & Hw).
      apply scanIncidents_In. rewrite Hinc. repeat split; try assumption. lia.
Qed.

(** Before the latest event the clamps of line 233 leave the whole
    retention. *)
Lemma timeRemainingRatio_full (expiry now d : Z) :
  (now <= expiry - d)%Z -> (0 < d)%Z ->
  timeRemainingRatio expiry now d == 1.
Proof.
  intros Hnow Hd. unfold timeRemainingRatio, Math_max, Math_min.
  assert (Hd' : 0 < inject_Z d) by (apply inject_Z_pos; exact Hd).
  assert (H1 : 1 <= inject_Z (expiry - now) / inject_Z d).
  { apply Qle_shift_div_l; [exact Hd'|]. rewrite Qmult_1_l.
    rewrite <- Zle_Qle. lia. }
  rewrite (Q.min_l _ _ H1). apply Q.max_r. discriminate.
Qed.

(** Lines 235-243: the floor of the tier, then the clamp. *)
Lemma clamp01_applyFloor (t : Tier) (ratio w fl : Q) :
  0 <= fl -> Spec.ceiling t * ratio == fl ->
  clamp01 (applyFloor t ratio w) == Qmin (Qmax w fl) 1.
Proof.
  intros Hfl Heq. unfold clamp01, Math_min, Math_max.
  assert (H : Qmax (applyFloor t ratio w) 0 == Qmax w fl).
  { destruct t; unfold applyFloor, dynamicFloor, Math_max; simpl in Heq.
    - rewrite Qmult_0_l in Heq. rewrite <- Heq. reflexivity.
    - rewrite Heq. apply Q.max_l.
      eapply Qle_trans; [exact Hfl|apply Q.le_max_r].
    - rewrite Heq. apply Q.max_l.
      eapply Qle_trans; [exact Hfl|apply Q.le_max_r]. }
  rewrite H. reflexivity.
Qed.

Lemma weightedScore_floored now (sos : list SOSAlert) (incs : list Incident)
    (prevGrid : option RiskGrid) :
  flooredScore env now sos incs prevGrid
  = applyFloor (tier (planOf sos incs))
      (timeRemainingRatio (expiryOf sos incs) now (durationMs (planOf sos incs)))
      (weightedScore env now sos incs prevGrid).
Proof. reflexivity. Qed.

(** One evaluation: the score persisted is the larger of the weighted sum
    and the floor of the cell, capped at 1. *)
Lemma processGrid_floor_enforced now gid db db' cell :
  processGrid env now gid db = Ok db' ->
  riskGrids db' !! gid = Some cell ->
  Spec.floor_enforced cell now
    (latestEventTime (scannedSOS env now gid db) (scannedIncidents env now gid db))
    (weightedScore env now (scannedSOS env now gid db)
       (scannedIncidents env now gid db) (riskGrids db !! gid)).
Proof.
  intros H Hc. apply processGrid_Ok in H. cbv zeta in H.
  destruct H as [[_ Hnone] | [Hle [name Hsome]]]; [congruence|].
  rewrite Hsome in Hc. injection Hc as <-.
  set (sos := scannedSOS env now gid db) in *.
  set (incs := scannedIncidents env now gid db) in *.
  destruct (determineTier_cases (length sos + length incs)
              (maxIncidentSeverity incs) (minSosSafetyScore sos))
    as (Hdur & Hpos & _).
  fold (planOf sos incs) in Hdur, Hpos.
  unfold Spec.floor_enforced, Spec.cellFloor. simpl.
  fold sos. fold incs. rewrite weightedScore_floored.
  split; [unfold expiryOf; rewrite Hdur; reflexivity|]. split; [exact Hle|].
  split; intros Hlatest.
  - apply clamp01_applyFloor.
    + apply floorAt_range. unfold expiryOf in *. rewrite <- Hdur. lia.
    + unfold Spec.floorAt. rewrite <- Hdur.
      rewrite timeRemainingRatio_linear; [reflexivity| |exact Hpos].
      unfold expiryOf in *. lia.
  - apply clamp01_applyFloor.
    + apply ceiling_range.
    + rewrite timeRemainingRatio_full; [apply Qmult_1_r| |exact Hpos].
      unfold expiryOf. lia.
Qed.

(** C2, as amended. At every evaluation that persists a cell, the score
    is the larger of the weighted sum and the sliding floor, capped at 1;
    the sliding floor is the ceiling of the tier of that evaluation (0.8
    Critical, 0.6 High, none for Standard) scaled by the fraction of the
    retention that remains, and the whole ceiling while the latest event is
    dated after the evaluation. Two evaluations with the same events on
    record have the same latest event; when the cell is High or Critical,
    is in the same tier at the second, and its latest event is not dated
    after the first, the expiry is the same, both scores are at least the
    floor, and the floor strictly decreases, is never negative and is 0 at
    the expiry. *)
Theorem C2_sliding_floor t1 t2 gid db1 db2 db1' db2' c1 c2 :
  sosAlerts db2 = sosAlerts db1 ->
  incidents db2 = incidents db1 ->
  processGrid env t1 gid db1 = Ok db1' -> riskGrids db1' !! gid = Some c1 ->
  processGrid env t2 gid db2 = Ok db2' -> riskGrids db2' !! gid = Some c2 ->
  (t1 < t2)%Z ->
  let sos1 := scannedSOS env t1 gid db1 in
  let incs1 := scannedIncidents env t1 gid db1 in
  let sos2 := scannedSOS env t2 gid db2 in
  let incs2 := scannedIncidents env t2 gid db2 in
  let latest := latestEventTime sos1 incs1 in
  Spec.floor_enforced c1 t1 latest
    (weightedScore env t1 sos1 incs1 (riskGrids db1 !! gid)) /\
  Spec.floor_enforced c2 t2 latest
    (weightedScore env t2 sos2 incs2 (riskGrids db2 !! gid)) /\
  (tierLevel c1 <> Standard ->
   tierLevel c2 = tierLevel c1 ->
   (latest <= t1)%Z ->
   expiresAt c2 = expiresAt c1 /\
   Spec.cellFloor c1 t1 <= riskScore c1 /\
   Spec.cellFloor c2 t2 <= riskScore c2 /\
   Spec.cellFloor c2 t2 < Spec.cellFloor c1 t1 /\
   0 <= Spec.cellFloor c2 t2 /\
   Spec.cellFloor c2 (expiresAt c2) == 0).
Proof.
  intros Hsos Hinc H1 Hc1 H2 Hc2 Hlt sos1 incs1 sos2 incs2 latest.
  pose proof (processGrid_floor_enforced _ _ _ _ _ H1 Hc1) as Hf1.
  pose proof (processGrid_floor_enforced _ _ _ _ _ H2 Hc2) as Hf2.
  fold sos1 incs1 latest in Hf1. fold sos2 incs2 in Hf2.
  assert (Hsame : latestEventTime sos2 incs2 = latest).
  { apply latestEventTime_stable; [assumption..|lia|].
    apply processGrid_Ok in H2. cbv zeta in H2.
    destruct H2 as [[_ Hnone] | [Hle _]]; [congruence|exact Hle]. }
  rewrite Hsame in Hf2.
  split; [exact Hf1|]. split; [exact Hf2|].
  intros Ht Htier Hlatest.
  destruct Hf1 as (He1 & Hle1 & Hs1 & _). destruct Hf2 as (He2 & Hle2 & Hs2 & _).
  assert (Hexp : expiresAt c2 = expiresAt c1) by (rewrite He1, He2, Htier; reflexivity).
  assert (Hr1 : 0 <= Spec.cellFloor c1 t1 /\ Spec.cellFloor c1 t1 <= 1)
    by (apply floorAt_range; rewrite He1; lia).
  assert (Hr2 : 0 <= Spec.cellFloor c2 t2 /\ Spec.cellFloor c2 t2 <= 1)
    by (apply floorAt_range; rewrite He2; lia).
  assert (Hlow : forall w fl, fl <= 1 -> fl <= Qmin (Qmax w fl) 1).
  { intros w fl Hfl. apply Q.min_glb; [apply Q.le_max_r|exact Hfl]. }
  split; [exact Hexp|].
  split; [rewrite (Hs1 Hlatest); apply Hlow; apply Hr1|].
  split; [rewrite (Hs2 ltac:(lia)); apply Hlow; apply Hr2|].
  split.
  - unfold Spec.cellFloor. rewrite Htier, Hexp.
    apply floorAt_decreasing; assumption.
  - split; [apply Hr2|apply floorAt_expiry].
Qed.

(** ** The batch *)

Lemma processAll_app now (pre rest : list string) (db : DB) (done : list string) :
  processAll env now (pre ++ rest) db done =
  let run := processAll env now pre db done in
  match br_error run with
  | None => processAll env now rest (br_db run) (br_done run)
  | Some _ => run
  end.
Proof.
  revert db done. induction pre as [|g pre IH]; intros db done; simpl.
  - reflexivity.
  - destruct (processGrid env now g db) as [db'|e]; simpl; [apply IH|reflexivity].
Qed.

Lemma processAll_done now (ids : list string) (db : DB) (done : list string) :
  br_error (processAll env now ids db done) = None ->
  br_done (processAll env now ids db done) = done ++ ids.
Proof.
  revert db done. induction ids as [|g ids IH]; intros db done; simpl.
  - intros _. symmetry. apply app_nil_r.
  - destruct (processGrid env now g db) as [db'|e]; simpl; [|discriminate].
    intros H. rewrite (IH _ _ H), <- app_assoc. reflexivity.
Qed.

(** C4 (as the code has it). The loop of [updateRiskScores] does not catch:
    when [processGrid] throws for a cell, the exception leaves the loop and
    the function. The cells before it in iteration order have been
    recomputed, and the database is left as they left it; the failing cell
    and the cells after it are not recomputed in that pass. *)
Theorem C4_failure_leaves_the_batch now db (pre post : list string) gid run e :
  activeGridIds env now db = pre ++ gid :: post ->
  processAll env now pre db [] = run ->
  br_error run = None ->
  processGrid env now gid (br_db run) = Throw e ->
  updateRiskScores env now db =
  {| br_db := br_db run; br_done := pre; br_error := Some e |}.
Proof.
  intros Hids Hrun Hok Hthrow. unfold updateRiskScores.
  rewrite Hids, processAll_app. cbv zeta. rewrite Hrun, Hok. simpl.
  rewrite Hthrow. f_equal.
  rewrite <- Hrun in Hok |- *. apply (processAll_done _ _ _ _ Hok).
Qed.

End RiskEngineFacts.

(** ** The risk engine on the sample data *)

Section RiskEngineExamples.
Import RiskEngine Examples.

Example sample_activeGridIds :
  activeGridIds riskEnv now0 db0 = [gidNorth; gidCentre].
Proof. vm_compute. reflexivity. Qed.

Example sample_north_fails :
  processGrid riskEnv now0 gidNorth db0 = Throw "geocoder: request failed".
Proof. vm_compute. reflexivity. Qed.

Example sample_centre_tier :
  tierLevel <$> (riskGrids dbCentre1 !! gidCentre) = Some Critical.
Proof. vm_compute. reflexivity. Qed.

Lemma C1_tier_thresholds_witness :
  processGrid riskEnv now0 gidCentre dbCentre = Ok dbCentre1 /\
  exists t days metres,
    Spec.tier_rule
      (length (scannedSOS riskEnv now0 gidCentre dbCentre)
       + length (scannedIncidents riskEnv now0 gidCentre dbCentre))
      (maxIncidentSeverity (scannedIncidents riskEnv now0 gidCentre dbCentre))
      (minSosSafetyScore (scannedSOS riskEnv now0 gidCentre dbCentre))
      t days metres /\
    let expiry :=
      (latestEventTime (scannedSOS riskEnv now0 gidCentre dbCentre)
                       (scannedIncidents riskEnv now0 gidCentre dbCentre)
       + days * MS_PER_DAY)%Z in
    ((expiry < now0)%Z /\ riskGrids dbCentre1 !! gidCentre = None) \/
    ((now0 <= expiry)%Z /\
     exists cell, riskGrids dbCentre1 !! gidCentre = Some cell /\
                  tierLevel cell = t /\ radius cell = metres /\
                  expiresAt cell = expiry).
Proof.
  assert (H : processGrid riskEnv now0 gidCentre dbCentre = Ok dbCentre1)
    by (vm_compute; reflexivity).
  split; [exact H|].
  exact (C1_tier_thresholds riskEnv now0 gidCentre dbCentre dbCentre1 H).
Defined.

Lemma C8_score_range_and_level_witness :
  exists cell,
    riskGrids dbCentre1 !! gidCentre = Some cell /\
    (0 <= riskScore cell /\ riskScore cell <= 1) /\
    riskLevel cell = riskLevelOf (riskScore cell) /\
    Spec.level_band (riskScore cell) (riskLevel cell) /\
    (forall s1 s2, s1 <= s2 ->
       (Spec.levelRank (riskLevelOf s1) <= Spec.levelRank (riskLevelOf s2))%nat).
Proof.
  assert (H : processGrid riskEnv now0 gidCentre dbCentre = Ok dbCentre1)
    by (vm_compute; reflexivity).
  exists (cellFor riskEnv now0 gidCentre dbCentre "MG Road").
  assert (Hc : riskGrids dbCentre1 !! gidCentre
               = Some (cellFor riskEnv now0 gidCentre dbCentre "MG Road"))
    by (vm_compute; reflexivity).
  split; [exact Hc|].
  exact (C8_score_range_and_level riskEnv now0 gidCentre dbCentre dbCentre1 _ H Hc).
Defined.

(** The Critical cell of the sample, evaluated one hour and then 25 hours
    after its only event: the floor went down from 0.8 * 719/720 to
    0.8 * 695/720, and both scores are the floor itself, the weighted sums
    being smaller. *)
Lemma C2_sliding_floor_witness :
  exists c1 c2,
    riskGrids dbCentre1 !! gidCentre = Some c1 /\
    riskGrids dbCentre2 !! gidCentre = Some c2 /\
    tierLevel c1 = Critical /\
    riskScore c1 == Spec.cellFloor c1 now0 /\
    riskScore c2 == Spec.cellFloor c2 (now0 + day) /\
    Spec.cellFloor c2 (now0 + day) < Spec.cellFloor c1 now0 /\
    0 <= Spec.cellFloor c2 (now0 + day) /\
    Spec.cellFloor c2 (expiresAt c2) == 0.
Proof.
  assert (H1 : processGrid riskEnv now0 gidCentre dbCentre = Ok dbCentre1)
    by (vm_compute; reflexivity).
  assert (H2 : processGrid riskEnv (now0 + day) gidCentre dbCentre1 = Ok dbCentre2)
    by (vm_compute; reflexivity).
  exists (cellFor riskEnv now0 gidCentre dbCentre "MG Road"),
         (cellFor riskEnv (now0 + day) gidCentre dbCentre1 "MG Road").
  assert (Hc1 : riskGrids dbCentre1 !! gidCentre
                = Some (cellFor riskEnv now0 gidCentre dbCentre "MG Road"))
    by (vm_compute; reflexivity).
  assert (Hc2 : riskGrids dbCentre2 !! gidCentre
                = Some (cellFor riskEnv (now0 + day) gidCentre dbCentre1 "MG Road"))
    by (vm_compute; reflexivity).
  split; [exact Hc1|]. split; [exact Hc2|].
  split; [vm_compute; reflexivity|].
  pose proof (C2_sliding_floor riskEnv now0 (now0 + day) gidCentre
                dbCentre dbCentre1 dbCentre1 dbCentre2 _ _
                eq_refl eq_refl H1 Hc1 H2 Hc2 eq_refl) as H.
  cbv zeta in H. destruct H as ((_ & _ & Hs1 & _) & (_ & _ & Hs2 & _) & Hrest).
  destruct Hrest as (_ & _ & _ & Hdec & Hpos & Hend).
  - vm_compute. discriminate.
  - vm_compute. reflexivity.
  - vm_compute. discriminate.
  - split; [rewrite Hs1 by (vm_compute; discriminate); vm_compute; reflexivity|].
    split; [rewrite Hs2 by (vm_compute; discriminate); vm_compute; reflexivity|].
    split; [exact Hdec|]. split; [exact Hpos|exact Hend].
Defined.

(** C2 (as stated) fails. The cluster of six signals makes the cell
    Critical at [now0], with 29 of its 30 days left and the score on the
    floor, 58/75. One millisecond later, with no new event and 29 days
    before the expiry persisted with the cell, five of the signals have
    left the window of 30 days: the cell is recomputed as Standard and its
    score is below the floor it had. And a Critical cell whose only signal
    is dated one day ahead has 31 days left of 30: the fraction is clamped
    and the score, 0.8, is below the ceiling scaled by the fraction that
    remains. *)
Lemma C2_floor_lost_with_the_tier :
  (exists c1 c2,
     processGrid riskEnv now0 gidCentre dbCluster = Ok dbCluster1 /\
     riskGrids dbCluster1 !! gidCentre = Some c1 /\
     processGrid riskEnv (now0 + 1) gidCentre dbCluster1 = Ok dbCluster2 /\
     riskGrids dbCluster2 !! gidCentre = Some c2 /\
     sosAlerts dbCluster1 = sosAlerts dbCluster /\
     incidents dbCluster1 = incidents dbCluster /\
     tierLevel c1 = Critical /\
     (now0 + 1 < expiresAt c1)%Z /\
     Spec.above_floor c1 now0 (riskScore c1) /\
     tierLevel c2 = Standard /\
     ~ Spec.above_floor c1 (now0 + 1) (riskScore c2)) /\
  (exists c,
     processGrid riskEnv now0 gidCentre dbAhead = Ok dbAhead1 /\
     riskGrids dbAhead1 !! gidCentre = Some c /\
     tierLevel c = Critical /\
     (now0 < expiresAt c)%Z /\
     riskScore c == 8 # 10 /\
     ~ Spec.above_floor c now0 (riskScore c)).
Proof.
  split.
  - exists (cellFor riskEnv now0 gidCentre dbCluster "MG Road"),
           (cellFor riskEnv (now0 + 1) gidCentre dbCluster1 "MG Road").
    repeat split; try (vm_compute; reflexivity); try (vm_compute; discriminate).
    unfold Spec.above_floor. apply Qlt_not_le. vm_compute. reflexivity.
  - exists (cellFor riskEnv now0 gidCentre dbAhead "MG Road").
    repeat split; try (vm_compute; reflexivity); try (vm_compute; discriminate).
    unfold Spec.above_floor. apply Qlt_not_le. vm_compute. reflexivity.
Qed.

(** C4 (as stated) fails: the northern cell comes first and its geocoder
    request fails; the central cell, which [processGrid] recomputes without
    error, is not recomputed in that pass. *)
Lemma C4_batch_not_isolated :
  ~ (forall gid,
       In gid (activeGridIds riskEnv now0 db0) ->
       (exists db', processGrid riskEnv now0 gid db0 = Ok db') ->
       In gid (br_done (updateRiskScores riskEnv now0 db0))).
Proof.
  intros H. specialize (H gidCentre).
  assert (Hin : In gidCentre (activeGridIds riskEnv now0 db0))
    by (vm_compute; right; left; reflexivity).
  assert (Hok : exists db', processGrid riskEnv now0 gidCentre db0 = Ok db').
  { eexists. vm_compute. reflexivity. }
  specialize (H Hin Hok). vm_compute in H. exact H.
Qed.

Lemma C4_failure_leaves_the_batch_witness :
  updateRiskScores riskEnv now0 db1 =
  {| br_db := after (processGrid riskEnv now0 gidCentre db1) db1;
     br_done := [gidCentre];
     br_error := Some "geocoder: request failed" |}.
Proof.
  apply (C4_failure_leaves_the_batch riskEnv now0 db1 [gidCentre] [] gidNorth
           (processAll riskEnv now0 [gidCentre] db1 [])).
  - vm_compute. reflexivity.
  - reflexivity.
  - vm_compute. reflexivity.
  - vm_compute. reflexivity.
Defined.

End RiskEngineExamples.

(** ** The safety scorer *)

Section SafetyScoreFacts.
Import SafetyScore.

(** C5. [calculateSafetyScore] returns a value for every input, and when
    any of its queries fails it returns the neutral default: score 80,
    level GOOD, no threat. *)
Theorem C5_scorer_never_throws (env : Env) (now : Z) (lat lng : Q) :
  Spec.is_throw (findRiskGrids env now lat lng) \/
  Spec.is_throw (findDangerZones env now lat lng) \/
  Spec.is_throw (findSOS env now lat lng) \/
  Spec.is_throw (findIncidents env now lat lng) ->
  calculateSafetyScore env now lat lng = safeDefault now lat lng /\
  safetyScore (calculateSafetyScore env now lat lng) = 80%Z /\
  safetyLevel (calculateSafetyScore env now lat lng) = "GOOD" /\
  threats (calculateSafetyScore env now lat lng) = [].
Proof.
  intros H.
  assert (Hd : calculateSafetyScore env now lat lng = safeDefault now lat lng).
  { unfold calculateSafetyScore, scorePass.
    destruct (findRiskGrids env now lat lng) as [grids|]; simpl; [|reflexivity].
    destruct (findDangerZones env now lat lng) as [zones|]; simpl; [|reflexivity].
    destruct (findSOS env now lat lng) as [sos|]; simpl; [|reflexivity].
    destruct (findIncidents env now lat lng) as [incs|]; simpl; [|reflexivity].
    simpl in H. tauto. }
  rewrite Hd. repeat split; reflexivity.
Qed.

(** *** Coverage circles *)

Section Pass.
Variable m : MathLib.
Variables lat lng : Q.

Lemma gridStep_keeps_zones (acc : Acc) (g : RiskGrid) (z : GridZone) :
  In z (penalizedGridZones acc) ->
  In z (penalizedGridZones (gridStep m lat lng acc g)).
Proof.
  intros Hz. unfold gridStep.
  destruct (Qleb _ _); [|exact Hz].
  destruct (Qgtb _ _); [|exact Hz].
  simpl. apply in_or_app. left. exact Hz.
Qed.

Lemma gridStep_records_zone (acc : Acc) (g : RiskGrid) :
  Spec.penalized m lat lng g ->
  In (zoneOfGrid g) (penalizedGridZones (gridStep m lat lng acc g)).
Proof.
  intros [Hrange Himpact]. unfold gridStep.
  apply Qleb_le in Hrange. rewrite Hrange.
  apply Qltb_lt in Himpact. unfold Qgtb. rewrite Himpact.
  simpl. apply in_or_app. right. left. reflexivity.
Qed.

Lemma grids_keep_zones (grids : list RiskGrid) (acc : Acc) (z : GridZone) :
  In z (penalizedGridZones acc) ->
  In z (penalizedGridZones (fold_left (gridStep m lat lng) grids acc)).
Proof.
  revert acc. induction grids as [|g grids IH]; intros acc Hz; simpl.
  - exact Hz.
  - apply IH. apply gridStep_keeps_zones. exact Hz.
Qed.

(** Step 1 records the circle of every penalized grid. *)
Lemma grids_record_zones (grids : list RiskGrid) (acc : Acc) (g : RiskGrid) :
  In g grids -> Spec.penalized m lat lng g ->
  In (zoneOfGrid g)
     (penalizedGridZones (fold_left (gridStep m lat lng) grids acc)).
Proof.
  revert acc. induction grids as [|g' grids IH]; intros acc Hin Hpen; simpl.
  - destruct Hin.
  - destruct Hin as [-> | Hin].
    + apply grids_keep_zones. apply gridStep_records_zone. exact Hpen.
    + apply IH; assumption.
Qed.

(** Steps 2 to 4 leave the recorded circles as they are. *)
Lemma zoneStep_zones (acc : Acc) (z : ZoneInRange) :
  penalizedGridZones (zoneStep acc z) = penalizedGridZones acc.
Proof. unfold zoneStep. destruct (Qgtb _ _); reflexivity. Qed.

Lemma sosStep_zones (acc : Acc) (sos : SOSAlert) :
  penalizedGridZones (sosStep m lat lng acc sos) = penalizedGridZones acc.
Proof.
  unfold sosStep. destruct (sos_location sos); [|reflexivity].
  destruct (isCoveredByGrid _ _ _ _); [reflexivity|].
  destruct (Qgtb _ _); reflexivity.
Qed.

Lemma incidentStep_zones (acc : Acc) (inc : Incident) :
  penalizedGridZones (incidentStep m lat lng acc inc) = penalizedGridZones acc.
Proof.
  unfold incidentStep. destruct (inc_location inc); [|reflexivity].
  destruct (isCoveredByGrid _ _ _ _); [reflexivity|].
  destruct (Qgtb _ _); reflexivity.
Qed.

Lemma fold_zones {A : Type} (step : Acc -> A -> Acc) (l : list A) (acc : Acc) :
  (forall a x, penalizedGridZones (step a x) = penalizedGridZones a) ->
  penalizedGridZones (fold_left step l acc) = penalizedGridZones acc.
Proof.
  intros Hstep. revert acc. induction l as [|x l IH]; intros acc; simpl.
  - reflexivity.
  - rewrite IH. apply Hstep.
Qed.

Lemma covered_by (zones : list GridZone) (g : RiskGrid) (p : Point) :
  In (zoneOfGrid g) zones -> Spec.strictly_inside m g p ->
  isCoveredByGrid m zones (p_lat p) (p_lng p) = true.
Proof.
  intros Hin Hlt. unfold isCoveredByGrid. apply existsb_exists.
  exists (zoneOfGrid g). split; [exact Hin|].
  apply Qleb_le. apply Qlt_le_weak. exact Hlt.
Qed.

(** A covered event is skipped: it leaves the totals as they are. *)
Lemma sosStep_covered (acc : Acc) (sos : SOSAlert) (p : Point) :
  sos_location sos = Some p ->
  isCoveredByGrid m (penalizedGridZones acc) (p_lat p) (p_lng p) = true ->
  sosStep m lat lng acc sos = acc.
Proof. intros Hp Hc. unfold sosStep. rewrite Hp, Hc. reflexivity. Qed.

Lemma incidentStep_covered (acc : Acc) (inc : Incident) (p : Point) :
  inc_location inc = Some p ->
  isCoveredByGrid m (penalizedGridZones acc) (p_lat p) (p_lng p) = true ->
  incidentStep m lat lng acc inc = acc.
Proof. intros Hp Hc. unfold incidentStep. rewrite Hp, Hc. reflexivity. Qed.

Lemma sosLoop_skips (pre post : list SOSAlert) (e : SOSAlert) (p : Point) (acc : Acc) :
  sos_location e = Some p ->
  isCoveredByGrid m (penalizedGridZones acc) (p_lat p) (p_lng p) = true ->
  fold_left (sosStep m lat lng) (pre ++ e :: post) acc =
  fold_left (sosStep m lat lng) (pre ++ post) acc.
Proof.
  intros Hp Hc. rewrite !fold_left_app. simpl. f_equal.
  apply (sosStep_covered _ _ p Hp).
  rewrite (fold_zones _ _ _ sosStep_zones). exact Hc.
Qed.

Lemma incidentLoop_skips (pre post : list Incident) (e : Incident) (p : Point)
    (acc : Acc) :
  inc_location e = Some p ->
  isCoveredByGrid m (penalizedGridZones acc) (p_lat p) (p_lng p) = true ->
  fold_left (incidentStep m lat lng) (pre ++ e :: post) acc =
  fold_left (incidentStep m lat lng) (pre ++ post) acc.
Proof.
  intros Hp Hc. rewrite !fold_left_app. simpl. f_equal.
  apply (incidentStep_covered _ _ p Hp).
  rewrite (fold_zones _ _ _ incidentStep_zones). exact Hc.
Qed.

End Pass.

(** C3. In one scoring pass a raw SOS alert or incident that lies strictly
    inside the coverage circle of a grid penalized in step 1 adds nothing:
    the totals of the pass, and so the result, are those of the pass
    without that event. *)
Theorem C3_no_double_counting (env : Env) (now : Z) (lat lng : Q)
    (grids : list RiskGrid) (g : RiskGrid) :
  findRiskGrids env now lat lng = Ok grids ->
  In g grids ->
  Spec.penalized (math env) lat lng g ->
  (forall pre e post p,
     findSOS env now lat lng = Ok (pre ++ e :: post) ->
     sos_location e = Some p ->
     Spec.strictly_inside (math env) g p ->
     let env' := with_findSOS env (fun _ _ _ => Ok (pre ++ post)) in
     scorePass env now lat lng = scorePass env' now lat lng /\
     calculateSafetyScore env now lat lng = calculateSafetyScore env' now lat lng) /\
  (forall pre i post p,
     findIncidents env now lat lng = Ok (pre ++ i :: post) ->
     inc_location i = Some p ->
     Spec.strictly_inside (math env) g p ->
     let env' := with_findIncidents env (fun _ _ _ => Ok (pre ++ post)) in
     scorePass env now lat lng = scorePass env' now lat lng /\
     calculateSafetyScore env now lat lng = calculateSafetyScore env' now lat lng).
Proof.
  intros Hgrids Hin Hpen.
  assert (Hzone : forall acc, In (zoneOfGrid g)
            (penalizedGridZones (fold_left (gridStep (math env) lat lng) grids acc)))
    by (intros acc; apply grids_record_zones; assumption).
  split.
  - intros pre e post p Hsos Hp Hinside env'.
    assert (Hpass : scorePass env now lat lng = scorePass env' now lat lng).
    { unfold scorePass, env'. simpl. rewrite Hgrids, Hsos. simpl.
      destruct (findDangerZones env now lat lng) as [zones|]; simpl; [|reflexivity].
      rewrite (sosLoop_skips _ _ _ pre post e p _ Hp); [reflexivity|].
      apply (covered_by _ _ g p); [|exact Hinside].
      rewrite (fold_zones _ _ _ zoneStep_zones). apply Hzone. }
    split; [exact Hpass|]. unfold calculateSafetyScore. rewrite Hpass. reflexivity.
  - intros pre i post p Hinc Hp Hinside env'.
    assert (Hpass : scorePass env now lat lng = scorePass env' now lat lng).
    { unfold scorePass, env'. simpl. rewrite Hgrids, Hinc. simpl.
      destruct (findDangerZones env now lat lng) as [zones|]; simpl; [|reflexivity].
      destruct (findSOS env now lat lng) as [sos|]; simpl; [|reflexivity].
      rewrite (incidentLoop_skips _ _ _ pre post i p _ Hp); [reflexivity|].
      apply (covered_by _ _ g p); [|exact Hinside].
      rewrite (fold_zones _ _ _ (sosStep_zones _ _ _)).
      rewrite (fold_zones _ _ _ zoneStep_zones). apply Hzone. }
    split; [exact Hpass|]. unfold calculateSafetyScore. rewrite Hpass. reflexivity.
Qed.

(** *** The reasons of the description *)

Lemma set_add_NoDup (x : string) (l : list string) :
  List.NoDup l -> List.NoDup (set_add x l).
Proof.
  intros Hl. unfold set_add. case_bool_decide as Hx; [exact Hl|].
  apply List.NoDup_app; repeat split.
  - exact Hl.
  - constructor; [intros []|constructor].
  - intros y Hy [<- | []]. apply Hx. apply list_elem_of_In. exact Hy.
Qed.

Lemma addGridReasons_NoDup (rs : list Reason) (uniq : list string) :
  List.NoDup uniq -> List.NoDup (addGridReasons uniq rs).
Proof.
  unfold addGridReasons. revert uniq.
  induction rs as [|r rs IH]; intros uniq Hu; simpl; [exact Hu|].
  apply IH. destruct (str_or _ _); [exact Hu|]. apply set_add_NoDup. exact Hu.
Qed.

Lemma addThreatReasons_NoDup (t : Threat) (uniq : list string) :
  List.NoDup uniq -> List.NoDup (addThreatReasons uniq t).
Proof.
  intros Hu. unfold addThreatReasons.
  destruct (if String.eqb (t_type t) "risk_grid"
            then match t_reasons t with
                 | Some (r :: rs) => Some (r :: rs)
                 | _ => None
                 end
            else None) as [rs|].
  - apply addGridReasons_NoDup. exact Hu.
  - destruct (t_category t) as [[|c s]|].
    + destruct (t_name t); [exact Hu|]. apply set_add_NoDup. exact Hu.
    + apply set_add_NoDup. exact Hu.
    + destruct (t_name t); [exact Hu|]. apply set_add_NoDup. exact Hu.
Qed.

(** The reasons of the description are distinct. *)
Lemma reasonList_NoDup (finalScore : Z) (sorted : list Threat) :
  List.NoDup (reasonList finalScore sorted).
Proof.
  unfold reasonList. destruct (_ && _); [|constructor].
  assert (H : forall ts uniq, List.NoDup uniq -> List.NoDup (collectReasons ts uniq)).
  { induction ts as [|t ts IH]; intros uniq Hu; [exact Hu|].
    change (collectReasons (t :: ts) uniq)
      with (if (3 <=? length uniq)%nat then uniq
            else collectReasons ts (addThreatReasons uniq t)).
    destruct (3 <=? length uniq)%nat; [exact Hu|].
    apply IH. apply addThreatReasons_NoDup. exact Hu. }
  apply H. constructor.
Qed.

End SafetyScoreFacts.

(** ** The scorer on the sample data *)

Section SafetyScoreExamples.
Import SafetyScore Examples.

Lemma C5_scorer_never_throws_witness :
  calculateSafetyScore brokenScoreEnv now0 lat0 lng0 = safeDefault now0 lat0 lng0 /\
  safetyScore (calculateSafetyScore brokenScoreEnv now0 lat0 lng0) = 80%Z /\
  safetyLevel (calculateSafetyScore brokenScoreEnv now0 lat0 lng0) = "GOOD" /\
  threats (calculateSafetyScore brokenScoreEnv now0 lat0 lng0) = [].
Proof.
  apply (C5_scorer_never_throws brokenScoreEnv now0 lat0 lng0).
  right. right. right. simpl. exact I.
Defined.

Example busyGrid_penalized : Spec.penalized sampleMath lat0 lng0 busyGrid.
Proof. split; vm_compute; [discriminate|reflexivity]. Qed.

Example centre_inside_busyGrid :
  Spec.strictly_inside sampleMath busyGrid {| p_lng := lng0; p_lat := lat0 |}.
Proof. vm_compute. reflexivity. Qed.

(** With the grid in the way the raw events at its centre do not count:
    the score is 55, as without them; without the grid they bring it down
    to 37. *)
Example sample_scores :
  safetyScore (calculateSafetyScore scoreEnv now0 lat0 lng0) = 55%Z /\
  safetyScore (calculateSafetyScore rawScoreEnv now0 lat0 lng0) = 37%Z.
Proof. split; vm_compute; reflexivity. Qed.

Lemma C3_no_double_counting_witness :
  (scorePass scoreEnv now0 lat0 lng0
   = scorePass (with_findSOS scoreEnv (fun _ _ _ => Ok [])) now0 lat0 lng0 /\
   calculateSafetyScore scoreEnv now0 lat0 lng0
   = calculateSafetyScore (with_findSOS scoreEnv (fun _ _ _ => Ok [])) now0 lat0 lng0) /\
  (scorePass scoreEnv now0 lat0 lng0
   = scorePass (with_findIncidents scoreEnv (fun _ _ _ => Ok [])) now0 lat0 lng0 /\
   calculateSafetyScore scoreEnv now0 lat0 lng0
   = calculateSafetyScore (with_findIncidents scoreEnv (fun _ _ _ => Ok []))
                          now0 lat0 lng0).
Proof.
  destruct (C3_no_double_counting scoreEnv now0 lat0 lng0 [busyGrid] busyGrid
              eq_refl (or_introl eq_refl) busyGrid_penalized) as [Hsos Hinc].
  split.
  - exact (Hsos [] sosInGrid [] {| p_lng := lng0; p_lat := lat0 |}
                eq_refl eq_refl centre_inside_busyGrid).
  - exact (Hinc [] incidentInGrid [] {| p_lng := lng0; p_lat := lat0 |}
                eq_refl eq_refl centre_inside_busyGrid).
Defined.

(** C9 (failing input). One nearby grid whose reasons have four kinds of
    event: the loop tests the size of the set only between threats, so the
    [forEach] over the reasons of the grid puts all four in the list. *)
Theorem C9_reason_list_overflow :
  match scorePass scoreEnv now0 lat0 lng0 with
  | Ok acc =>
      reasonList (finalScoreOf (totalPenalty acc)) (sortThreats (acc_threats acc))
      = ["Theft"; "Assault"; "Riot"; "Flood"]
  | Throw _ => False
  end /\
  description (calculateSafetyScore scoreEnv now0 lat0 lng0)
  = "Moderate Risk • Reported issues: Theft, Assault, Riot, Flood.".
Proof. split; vm_compute; reflexivity. Qed.

End SafetyScoreExamples.

(** ** The authority broadcast *)

Section RealtimeFacts.
Import Realtime.
Variable m : MathLib.

Lemma totalTourists_length (l : list (string * list Socket)) (k : nat) :
  fold_left (fun n entry => (n + length (snd entry))%nat) l k
  = (k + length (flat_map snd l))%nat.
Proof.
  revert k. induction l as [|e l IH]; intros k; simpl.
  - lia.
  - rewrite IH, length_app. lia.
Qed.

Lemma guardedLocation_None (s : Socket) :
  Spec.no_usable_location s <-> guardedLocation s = None.
Proof.
  unfold Spec.no_usable_location, guardedLocation, truthy_num.
  destruct (sock_location s) as [l|]; [|tauto].
  destruct (loc_lat l) as [la|]; [|tauto].
  destruct (loc_lng l) as [ln|].
  - destruct (Qeq_bool la 0) eqn:Ea.
    + apply Qeq_bool_iff in Ea. tauto.
    + destruct (Qeq_bool ln 0) eqn:En.
      * apply Qeq_bool_iff in En. tauto.
      * split; [|discriminate]. intros [H | H]; apply Qeq_bool_iff in H; congruence.
  - destruct (Qeq_bool la 0); tauto.
Qed.

(** What the inner loop sends on one socket. *)
Lemma targetSocket_spec (area : TargetArea) (payload : AlertPayload) (s : Socket)
    (e : Emission) :
  In e (targetSocket m area payload s) <->
  exists tLat tLng,
    guardedLocation s = Some (tLat, tLng) /\
    calculateDistance m (ta_lat area) (ta_lng area) tLat tLng <= ta_radius area /\
    e = ToSocket s "authorityAlert"
          (withDistance payload
             (calculateDistance m (ta_lat area) (ta_lng area) tLat tLng)).
Proof.
  unfold targetSocket.
  destruct (guardedLocation s) as [[tLat tLng]|].
  - destruct (Qleb _ _) eqn:E.
    + apply Qleb_le in E. split.
      * intros [<- | []]. exists tLat, tLng. repeat split. exact E.
      * intros (a & b & Hg & _ & ->). injection Hg as <- <-. left. reflexivity.
    + apply Qleb_gt in E. split; [intros []|].
      intros (a & b & Hg & Hle & _). injection Hg as <- <-.
      exact (Qlt_not_le _ _ E Hle).
  - split; [intros []|]. intros (a & b & Hg & _). discriminate.
Qed.

Lemma targeted_delivery (st : State) (area : TargetArea) (payload : AlertPayload)
    (s : Socket) (p : AlertPayload) :
  In (s, p)
     (delivered st
        (flat_map (fun entry => flat_map (targetSocket m area payload) (snd entry))
                  (touristSockets st))) <->
  In s (liveSockets st) /\
  exists tLat tLng,
    guardedLocation s = Some (tLat, tLng) /\
    calculateDistance m (ta_lat area) (ta_lng area) tLat tLng <= ta_radius area /\
    p = withDistance payload
          (calculateDistance m (ta_lat area) (ta_lng area) tLat tLng).
Proof.
  unfold delivered, liveSockets. rewrite in_flat_map. split.
  - intros (e & He & Hd). apply in_flat_map in He as (entry & Hentry & He).
    apply in_flat_map in He as (s' & Hs' & He).
    apply targetSocket_spec in He as (a & b & Hg & Hle & ->).
    simpl in Hd. destruct Hd as [Hd | []]. injection Hd as <- <-.
    split.
    + apply in_flat_map. exists entry. split; assumption.
    + exists a, b. repeat split; assumption.
  - intros (Hs & a & b & Hg & Hle & ->).
    apply in_flat_map in Hs as (entry & Hentry & Hs).
    eexists. split.
    + apply in_flat_map. exists entry. split; [exact Hentry|].
      apply in_flat_map. exists s. split; [exact Hs|].
      apply targetSocket_spec. exists a, b. repeat split; assumption.
    + simpl. left. reflexivity.
Qed.

(** C6 (as the code has it). A well-formed alert with a target area is
    delivered exactly to the live end-user connections that pass the guard
    on the location (a stored location with a non-zero latitude and
    longitude) and whose distance to the centre is at most the radius, the
    boundary included; each delivery carries that distance, rounded. With no
    target area the alert goes to every live end-user connection. *)
Theorem C6_geofenced_delivery (st : State) (alertId : string) (now : Z)
    (alertData : AlertData) :
  io st = true ->
  Spec.well_formed alertData ->
  exists out,
    emitAuthorityAlertToTourists m st alertId now alertData = Ok out /\
    let payload := touristAlertPayload alertId now alertData in
    match ad_targetArea alertData with
    | Some area =>
        forall s p,
          In (s, p) (delivered st out) <->
          In s (liveSockets st) /\
          exists tLat tLng,
            guardedLocation s = Some (tLat, tLng) /\
            calculateDistance m (ta_lat area) (ta_lng area) tLat tLng
            <= ta_radius area /\
            p = withDistance payload
                  (calculateDistance m (ta_lat area) (ta_lng area) tLat tLng)
    | None =>
        forall s p,
          In (s, p) (delivered st out) <-> In s (liveSockets st) /\ p = payload
    end.
Proof.
  intros Hio (Ht & Hti & Hm). unfold emitAuthorityAlertToTourists.
  rewrite Hio, Ht, Hti, Hm. simpl.
  rewrite totalTourists_length. simpl.
  fold (liveSockets st).
  destruct (length (liveSockets st) =? 0)%nat eqn:Hn.
  - apply Nat.eqb_eq in Hn. apply length_zero_iff_nil in Hn.
    exists []. split; [reflexivity|]. cbv zeta.
    destruct (ad_targetArea alertData) as [area|]; intros s p; rewrite Hn; simpl;
      tauto.
  - destruct (ad_targetArea alertData) as [area|].
    + eexists. split; [reflexivity|]. cbv zeta. intros s p.
      apply targeted_delivery.
    + eexists. split; [reflexivity|]. cbv zeta. intros s p.
      unfold delivered. simpl. rewrite app_nil_r, in_map_iff. split.
      * intros (s' & Heq & Hin). injection Heq as <- <-. split; [exact Hin|reflexivity].
      * intros (Hin & ->). exists s. split; [reflexivity|exact Hin].
Qed.

(** C10. In a targeted broadcast a connection with no stored location, or
    with a stored latitude or longitude that is missing or equal to [0], is
    sent nothing, whatever its distance to the centre: the truthiness guard
    of line 363 skips it. *)
Theorem C10_unusable_location_skipped (st : State) (alertId : string) (now : Z)
    (alertData : AlertData) (area : TargetArea) (out : list Emission)
    (s : Socket) (p : AlertPayload) :
  ad_targetArea alertData = Some area ->
  emitAuthorityAlertToTourists m st alertId now alertData = Ok out ->
  Spec.no_usable_location s ->
  ~ In (s, p) (delivered st out).
Proof.
  intros Harea Hout Hloc Hin. apply guardedLocation_None in Hloc.
  unfold emitAuthorityAlertToTourists in Hout. rewrite Harea in Hout.
  destruct (negb (io st)); [injection Hout as <-; exact Hin|].
  destruct (_ || _ || _); [discriminate|].
  destruct (_ =? 0)%nat; [injection Hout as <-; exact Hin|].
  injection Hout as <-.
  apply targeted_delivery in Hin as (_ & a & b & Hg & _). congruence.
Qed.

End RealtimeFacts.

(** ** The broadcast on the sample data *)

Section RealtimeExamples.
Import Realtime Examples.

Example sample_targeted_broadcast :
  map (fun d => (sock_id (fst d), distanceFromEvent (snd d)))
      (delivered stCity (broadcast stCity (Some areaCity)))
  = [("sock-1", Some 0%Z)].
Proof. vm_compute. reflexivity. Qed.

Example sample_boundary_included :
  map (fun d => (sock_id (fst d), distanceFromEvent (snd d)))
      (delivered stCity (broadcast stCity (Some areaPoint)))
  = [("sock-1", Some 0%Z)].
Proof. vm_compute. reflexivity. Qed.

Example sample_untargeted_broadcast :
  map (fun d => sock_id (fst d)) (delivered stCity (broadcast stCity None))
  = ["sock-1"; "sock-2"; "sock-4"].
Proof. vm_compute. reflexivity. Qed.

Example floodAlert_well_formed area : Spec.well_formed (floodAlert area).
Proof. repeat split. Qed.

(** C6 (as stated) fails: a connection on the equator, at the centre of
    the target area, is live and within the radius, and is sent nothing. *)
Lemma C6_equator_connection_missed :
  ~ (forall s,
       In s (liveSockets stEquator) ->
       Spec.within_area sampleMath areaEquator s ->
       exists p, In (s, p) (delivered stEquator (broadcast stEquator (Some areaEquator)))).
Proof.
  intros H. destruct (H touristEquator) as [p Hp].
  - left. reflexivity.
  - exists {| loc_lat := Some 0; loc_lng := Some lng0 |}, 0, lng0.
    repeat split. vm_compute. discriminate.
  - vm_compute in Hp. exact Hp.
Qed.

Lemma C6_geofenced_delivery_witness :
  exists out,
    emitAuthorityAlertToTourists sampleMath stCity "auth-alert-1" now0
      (floodAlert (Some areaPoint)) = Ok out /\
    forall s p,
      In (s, p) (delivered stCity out) <->
      In s (liveSockets stCity) /\
      exists tLat tLng,
        guardedLocation s = Some (tLat, tLng) /\
        calculateDistance sampleMath lat0 lng0 tLat tLng <= 0 /\
        p = withDistance (touristAlertPayload "auth-alert-1" now0
                            (floodAlert (Some areaPoint)))
              (calculateDistance sampleMath lat0 lng0 tLat tLng).
Proof.
  exact (C6_geofenced_delivery sampleMath stCity "auth-alert-1" now0
           (floodAlert (Some areaPoint)) eq_refl
           (floodAlert_well_formed (Some areaPoint))).
Defined.

Lemma C10_unusable_location_skipped_witness :
  (forall p, ~ In (touristEquator, p)
               (delivered stEquator (broadcast stEquator (Some areaEquator)))) /\
  (forall p, ~ In (touristSilent, p)
               (delivered stCity (broadcast stCity (Some areaCity)))).
Proof.
  split; intros p.
  - apply (C10_unusable_location_skipped sampleMath stEquator "auth-alert-1" now0
             (floodAlert (Some areaEquator)) areaEquator).
    + reflexivity.
    + vm_compute. reflexivity.
    + left. reflexivity.
  - apply (C10_unusable_location_skipped sampleMath stCity "auth-alert-1" now0
             (floodAlert (Some areaCity)) areaCity).
    + reflexivity.
    + vm_compute. reflexivity.
    + exact I.
Defined.

End RealtimeExamples.

(** ** The fallback store *)

Section FallbackFacts.
Import Fallback.
Variable env : Env.

Lemma scanLog_app (id : string) (l1 l2 : list LogLine) :
  scanLog id (l1 ++ l2) =
  match scanLog id l1 with
  | Some p => Some p
  | None => scanLog id l2
  end.
Proof.
  induction l1 as [|line l1 IH]; simpl; [reflexivity|].
  destruct line as [e|t]; [|exact IH].
  destruct (String.eqb (le_message e) "SOS_PAYLOAD"); [|exact IH].
  destruct (le_payload e) as [p|]; [|exact IH].
  destruct (String.eqb (alertId p) id); [reflexivity|exact IH].
Qed.

(** A notice, which carries no payload, is never a match. *)
Lemma scanLog_notice (id level message : string) (rest : list LogLine) :
  scanLog id (Parsed {| le_level := level; le_message := message;
                        le_payload := None |} :: rest)
  = scanLog id rest.
Proof. simpl. destruct (String.eqb message "SOS_PAYLOAD"); reflexivity. Qed.

Lemma scanLog_payload (p : Payload) (rest : list LogLine) :
  scanLog (alertId p)
          (Parsed {| le_level := "info"; le_message := "SOS_PAYLOAD";
                     le_payload := Some p |} :: rest)
  = Some p.
Proof. simpl. rewrite String.eqb_refl. reflexivity. Qed.

(** [put] when the cache takes it: the entry is stored for an hour and the
    log gets a notice. *)
Lemma handleSOSFallback_cached now (p : Payload) (st : State) :
  Spec.cache_accepts st ->
  let st1 := handleSOSFallback env now p st in
  Spec.cache_available st1 /\
  store (redis st1) !! alertKey (alertId p)
  = Some (JSON_stringify env p, Some (now + 3600 * 1000)%Z) /\
  scanLog (alertId p) (log st1) = scanLog (alertId p) (log st).
Proof.
  intros [Hf Hst] st1. subst st1. unfold handleSOSFallback.
  assert (Hconn : (if bool_decide (status (redis st) <> Ready)
                      && bool_decide (status (redis st) <> Connecting)
                   then connect (redis st) else (redis st, true))
                  = (with_status (redis st) Ready, true)).
  { destruct Hst as [Hr | [Hc Hreach]].
    - rewrite (bool_decide_eq_false_2 _ (fun H => H Hr)). simpl.
      destruct st as [r l]. destruct r as [s re fa sto]. simpl in *. subst s.
      reflexivity.
    - destruct (decide (status (redis st) = Ready)) as [Hr | Hr].
      + rewrite (bool_decide_eq_false_2 _ (fun H => H Hr)). simpl.
        destruct st as [r l]. destruct r as [s re fa sto]. simpl in *. subst s.
        reflexivity.
      + rewrite (bool_decide_eq_true_2 _ Hr), (bool_decide_eq_true_2 _ Hc). simpl.
        unfold connect. rewrite Hreach. reflexivity. }
  rewrite Hconn. simpl. unfold redis_set, redis_expire. simpl. rewrite Hf. simpl.
  rewrite Hf. simpl. repeat split.
  - exact Hf.
  - rewrite lookup_alter_eq, lookup_insert_eq. reflexivity.
  - rewrite scanLog_app. destruct (scanLog (alertId p) (log st)); [reflexivity|].
    apply scanLog_notice.
Qed.

(** [put] when the cache is down: the payload goes to the log only. *)
Lemma handleSOSFallback_logged now (p : Payload) (st : State) :
  Spec.cache_down st ->
  let st1 := handleSOSFallback env now p st in
  status (redis st1) <> Ready /\
  store (redis st1) = store (redis st) /\
  scanLog (alertId p) (log st1) =
  match scanLog (alertId p) (log st) with
  | Some q => Some q
  | None => Some p
  end.
Proof.
  intros [Hnr Hdown] st1. subst st1. unfold handleSOSFallback.
  rewrite (bool_decide_eq_true_2 _ Hnr).
  destruct (decide (status (redis st) = Connecting)) as [Hc | Hc].
  - rewrite (bool_decide_eq_false_2 _ (fun H => H Hc)). simpl.
    rewrite (bool_decide_eq_false_2 _ Hnr). simpl.
    split; [exact Hnr|]. split; [reflexivity|].
    rewrite <- app_assoc, scanLog_app.
    destruct (scanLog (alertId p) (log st)); [reflexivity|].
    simpl "++". rewrite scanLog_notice. apply scanLog_payload.
  - rewrite (bool_decide_eq_true_2 _ Hc). simpl.
    destruct Hdown as [Hd | Hd]; [contradiction|].
    unfold connect. rewrite Hd. simpl.
    split; [discriminate|]. split; [reflexivity|].
    rewrite <- app_assoc, scanLog_app.
    destruct (scanLog (alertId p) (log st)); [reflexivity|].
    simpl "++". rewrite scanLog_notice. apply scanLog_payload.
Qed.

(** [get] on a cache that holds a live entry: the payload is returned and
    the entry removed. *)
Lemma getPendingAlert_hit now (p : Payload) (st : State) (expiry : option Z) :
  Spec.cache_available st ->
  Spec.codec_ok env p ->
  store (redis st) !! alertKey (alertId p) = Some (JSON_stringify env p, expiry) ->
  visible now (JSON_stringify env p, expiry) = true ->
  let g := getPendingAlert env now (alertId p) st in
  fst g = Some p /\
  Spec.cache_available (snd g) /\
  store (redis (snd g)) !! alertKey (alertId p) = None /\
  log (snd g) = log st.
Proof.
  intros [Hr Hf] [Hparse Hne] Hstore Hvis g. subst g.
  unfold getPendingAlert, cacheLookup.
  rewrite (bool_decide_eq_true_2 _ Hr).
  unfold redis_get, redis_del. rewrite Hf, Hstore, Hvis. simpl.
  destruct (JSON_stringify env p) as [|c s] eqn:Hjson; [congruence|].
  rewrite Hparse. simpl. repeat split; try assumption.
  apply lookup_delete_eq.
Qed.

(** [get] on a cache that is ready and has no entry, or that is not ready:
    the answer is that of the scan of the log. *)
Lemma getPendingAlert_miss now (id : string) (st : State) :
  (status (redis st) <> Ready \/
   (failing (redis st) = false /\ store (redis st) !! alertKey id = None)) ->
  getPendingAlert env now id st = (scanLog id (log st), st).
Proof.
  intros H. unfold getPendingAlert, cacheLookup.
  destruct H as [Hnr | [Hf Hnone]].
  - rewrite (bool_decide_eq_false_2 _ Hnr). reflexivity.
  - destruct (decide (status (redis st) = Ready)) as [Hr | Hr].
    + rewrite (bool_decide_eq_true_2 _ Hr). unfold redis_get.
      rewrite Hf, Hnone. reflexivity.
    + rewrite (bool_decide_eq_false_2 _ Hr). reflexivity.
Qed.

(** C7 (as the code has it). For an alert id with no payload entry in the
    log: when the cache takes the [put] and the first [get] comes within
    the hour, that [get] returns the payload and removes the cache entry,
    and a second [get] returns nothing; when the cache is down, the [put]
    writes the payload to the log only, and every [get] returns it from
    the log, which is left as it is. *)
Theorem C7_fallback_round_trip now now' now'' (p : Payload) (st : State) :
  Spec.codec_ok env p ->
  scanLog (alertId p) (log st) = None ->
  let st1 := handleSOSFallback env now p st in
  let g1 := getPendingAlert env now' (alertId p) st1 in
  let g2 := getPendingAlert env now'' (alertId p) (snd g1) in
  (Spec.cache_accepts st -> (now' < now + 3600 * 1000)%Z ->
   fst g1 = Some p /\
   store (redis (snd g1)) !! alertKey (alertId p) = None /\
   fst g2 = None) /\
  (Spec.cache_down st ->
   fst g1 = Some p /\ fst g2 = Some p /\ log (snd g2) = log st1).
Proof.
  intros Hcodec Hfresh st1 g1 g2. split.
  - intros Hacc Httl.
    destruct (handleSOSFallback_cached now p st Hacc) as (Hav & Hstore & Hlog).
    fold st1 in Hav, Hstore, Hlog.
    destruct (getPendingAlert_hit now' p st1 _ Hav Hcodec Hstore)
      as (H1 & Hav2 & Hgone & Hlog2).
    { simpl. apply Z.ltb_lt. exact Httl. }
    fold g1 in H1, Hav2, Hgone, Hlog2.
    split; [exact H1|]. split; [exact Hgone|].
    subst g2. rewrite getPendingAlert_miss.
    + simpl. rewrite Hlog2, Hlog. exact Hfresh.
    + right. split; [apply Hav2|exact Hgone].
  - intros Hdown.
    destruct (handleSOSFallback_logged now p st Hdown) as (Hnr & _ & Hlog).
    fold st1 in Hnr, Hlog. rewrite Hfresh in Hlog.
    assert (Hg1 : g1 = (Some p, st1)).
    { subst g1. rewrite getPendingAlert_miss; [|left; exact Hnr].
      rewrite Hlog. reflexivity. }
    assert (Hg2 : g2 = (Some p, st1)).
    { subst g2. rewrite Hg1. simpl.
      rewrite getPendingAlert_miss; [|left; exact Hnr].
      rewrite Hlog. reflexivity. }
    rewrite Hg1, Hg2. simpl. repeat split.
Qed.

End FallbackFacts.

(** ** The fallback store on the sample data *)

Section FallbackExamples.
Import Fallback Examples.

Example alert42_codec : Spec.codec_ok jsonEnv alert42.
Proof. split; vm_compute; [reflexivity|discriminate]. Qed.

Example sample_outage_log :
  log (handleSOSFallback jsonEnv now0 alert42 stOutage) =
  [Parsed {| le_level := "warn";
             le_message := "Real-time channel down AND Redis unavailable. Alert sos-42 logged to file only.";
             le_payload := None |};
   Parsed {| le_level := "info"; le_message := "SOS_PAYLOAD";
             le_payload := Some alert42 |}].
Proof. vm_compute. reflexivity. Qed.

(** C7 (as stated) fails: the alert was first handed over during an outage
    and is handed over again once the cache is back. The first [get] takes
    it from the cache; the second one misses the cache, which is ready and
    answers, goes on to the log and returns the payload a second time. *)
Lemma C7_second_get_returns_the_payload :
  let st1 := handleSOSFallback jsonEnv (now0 + 1000) alert42 stRecovered in
  let g1 := getPendingAlert jsonEnv (now0 + 2000) "sos-42" st1 in
  let g2 := getPendingAlert jsonEnv (now0 + 3000) "sos-42" (snd g1) in
  fst g1 = Some alert42 /\ fst g2 = Some alert42 /\
  ~ Spec.handed_off_once alert42 (fst g1) (fst g2) (snd g1).
Proof.
  cbv zeta. split; [vm_compute; reflexivity|]. split; [vm_compute; reflexivity|].
  intros [_ [H | H]].
  - vm_compute in H. discriminate.
  - apply H. split; vm_compute; reflexivity.
Qed.

Lemma C7_fallback_round_trip_witness :
  (let st1 := handleSOSFallback jsonEnv now0 alert42 stIdle in
   let g1 := getPendingAlert jsonEnv (now0 + 1000) "sos-42" st1 in
   let g2 := getPendingAlert jsonEnv (now0 + 2000) "sos-42" (snd g1) in
   fst g1 = Some alert42 /\
   store (redis (snd g1)) !! alertKey "sos-42" = None /\
   fst g2 = None) /\
  (let st1 := handleSOSFallback jsonEnv now0 alert42 stOutage in
   let g1 := getPendingAlert jsonEnv (now0 + 1000) "sos-42" st1 in
   let g2 := getPendingAlert jsonEnv (now0 + 2000) "sos-42" (snd g1) in
   fst g1 = Some alert42 /\ fst g2 = Some alert42 /\ log (snd g2) = log st1).
Proof.
  split.
  - apply (proj1 (C7_fallback_round_trip jsonEnv now0 (now0 + 1000) (now0 + 2000)
                    alert42 stIdle alert42_codec eq_refl)).
    + split; [reflexivity|]. right. split; [discriminate|reflexivity].
    + reflexivity.
  - apply (proj2 (C7_fallback_round_trip jsonEnv now0 (now0 + 1000) (now0 + 2000)
                    alert42 stOutage alert42_codec eq_refl)).
    split; [discriminate|]. right. reflexivity.
Defined.

End FallbackExamples.

(** * Further properties of the services *)

(** ** Sorting by a key, largest first *)

Section SortByKey.
Context {A : Type} (key : A -> Z).

Let lt (a b : A) : bool := (key b <? key a)%Z.
Let ge (a b : A) : Prop := (key b <= key a)%Z.

Lemma sort_insert_Permutation (x : A) (l : list A) :
  Permutation (sort_insert lt x l) (x :: l).
Proof.
  induction l as [|y l IH]; simpl; [reflexivity|].
  destruct (lt y x); [|reflexivity].
  rewrite IH. apply perm_swap.
Qed.

Lemma stable_sort_Permutation (l : list A) : Permutation (stable_sort lt l) l.
Proof.
  unfold stable_sort. induction l as [|x l IH]; simpl; [reflexivity|].
  rewrite sort_insert_Permutation, IH. reflexivity.
Qed.

Lemma sort_insert_sorted (x : A) (l : list A) :
  StronglySorted ge l -> StronglySorted ge (sort_insert lt x l).
Proof.
  induction l as [|y l IH]; intros Hs; simpl.
  - constructor; constructor.
  - inversion Hs as [|? ? Hs' Hall]; subst.
    rewrite Forall_forall in Hall.
    destruct (lt y x) eqn:E; unfold lt in E.
    + apply Z.ltb_lt in E. constructor; [apply IH; exact Hs'|].
      apply Forall_forall. intros z Hz.
      rewrite sort_insert_Permutation in Hz.
      apply elem_of_cons in Hz as [-> | Hz]; [unfold ge; lia|].
      apply Hall. exact Hz.
    + apply Z.ltb_ge in E. constructor; [exact Hs|].
      constructor; [unfold ge; lia|].
      apply Forall_forall. intros z Hz.
      specialize (Hall z Hz). unfold ge in *. lia.
Qed.

Lemma stable_sort_sorted (l : list A) : StronglySorted ge (stable_sort lt l).
Proof.
  unfold stable_sort. induction l as [|x l IH]; simpl; [constructor|].
  apply sort_insert_sorted. exact IH.
Qed.

(** The first [n] elements of a sorted list come before the others. *)
Lemma sorted_take_drop (n : nat) (l : list A) :
  StronglySorted ge l ->
  StronglySorted ge (take n l) /\
  (forall a b, In a (take n l) -> In b (drop n l) -> (key b <= key a)%Z).
Proof.
  revert n. induction l as [|x l IH]; intros n Hs.
  - rewrite take_nil, drop_nil. split; [constructor|intros ? ? []].
  - destruct n as [|n]; simpl.
    + split; [constructor|intros ? ? []].
    + inversion Hs as [|? ? Hs' Hall]; subst.
      destruct (IH n Hs') as [Ht Hd]. rewrite Forall_forall in Hall. split.
      * constructor; [exact Ht|]. apply Forall_forall. intros z Hz.
        apply Hall. apply (subseteq_take n l). exact Hz.
      * intros a b [<- | Ha] Hb; [|apply Hd; assumption].
        apply Hall. apply (subseteq_drop n l). apply list_elem_of_In. exact Hb.
Qed.

End SortByKey.

(** ** The risk engine: eviction, frame and the grid index *)

Section RiskEngineMore.
Import RiskEngine.
Variable env : Env.

(** The scans read the events only. *)
Lemma scanned_events_only now gid (db1 db2 : DB) :
  sosAlerts db1 = sosAlerts db2 ->
  incidents db1 = incidents db2 ->
  scannedSOS env now gid db1 = scannedSOS env now gid db2 /\
  scannedIncidents env now gid db1 = scannedIncidents env now gid db2.
Proof.
  intros Hs Hi. unfold scannedSOS, scannedIncidents, scanSOS, scanIncidents.
  rewrite Hs, Hi. split; reflexivity.
Qed.

Lemma processGrid_no_events now gid db :
  scannedSOS env now gid db = [] ->
  scannedIncidents env now gid db = [] ->
  (7 * MS_PER_DAY < now)%Z ->
  processGrid env now gid db = Ok (set_riskGrids db (delete gid (riskGrids db))).
Proof.
  intros Hs Hi Hnow. unfold processGrid. rewrite Hs, Hi.
  change (expiryOf [] []) with (7 * MS_PER_DAY)%Z.
  apply Z.ltb_lt in Hnow. rewrite Hnow. reflexivity.
Qed.

(** X1. A cell whose scan finds no event is evicted, whatever document it
    had and without a call to the geocoder, once the clock is past the
    first seven days of the epoch: the latest event time is then 0 and the
    Standard retention has run out. *)
Theorem processGrid_evicts_without_events now gid db :
  scannedSOS env now gid db = [] ->
  scannedIncidents env now gid db = [] ->
  (7 * MS_PER_DAY < now)%Z ->
  exists db',
    processGrid env now gid db = Ok db' /\
    riskGrids db' !! gid = None /\
    db' = set_riskGrids db (delete gid (riskGrids db)).
Proof.
  intros Hs Hi Hnow. eexists.
  split; [apply processGrid_no_events; assumption|]. split; [|reflexivity].
  simpl. apply lookup_delete_eq.
Qed.

Lemma processGrid_others now gid db db' :
  processGrid env now gid db = Ok db' ->
  sosAlerts db' = sosAlerts db /\
  incidents db' = incidents db /\
  (forall other, other <> gid -> riskGrids db' !! other = riskGrids db !! other).
Proof.
  unfold processGrid. destruct (_ <? _)%Z.
  - intros H. injection H as <-. simpl. repeat split.
    intros other Hne. apply lookup_delete_ne. congruence.
  - destruct (match carriedName _ with Some n => Ok n | None => _ end) as [n|e];
      simpl; [|discriminate].
    intros H. injection H as <-. simpl. repeat split.
    intros other Hne. apply lookup_insert_ne. congruence.
Qed.

(** X2. [processGrid] writes one document: the events and the documents of
    the other cells are left as they are. *)
Theorem processGrid_frame now gid db db' :
  processGrid env now gid db = Ok db' ->
  sosAlerts db' = sosAlerts db /\
  incidents db' = incidents db /\
  (forall other, other <> gid -> riskGrids db' !! other = riskGrids db !! other).
Proof. apply processGrid_others. Qed.

(** A cell with an event in its scan that is at most seven days old is
    not expired. *)
Lemma recent_event_not_expired now (sos : list SOSAlert) (incs : list Incident) :
  ((exists a, In a sos /\ (now <= sos_timestamp a + 7 * MS_PER_DAY)%Z) \/
   (exists i, In i incs /\ (now <= inc_timestamp i + 7 * MS_PER_DAY)%Z)) ->
  (now <= expiryOf sos incs)%Z.
Proof.
  intros H. unfold expiryOf.
  destruct (latestEventTime_spec sos incs) as (_ & Hs & Hi & _).
  assert (Hd : (7 * MS_PER_DAY <= durationMs (planOf sos incs))%Z).
  { unfold planOf, determineTier.
    destruct (_ || _ || _); [|destruct (_ || _ || _)]; vm_compute; discriminate. }
  destruct H as [(a & Ha & Hts) | (i & Hi' & Hts)].
  - specialize (Hs a Ha). lia.
  - specialize (Hi i Hi'). lia.
Qed.

(** X3. When the cell of a location holds an event at most seven days old,
    [updateGridForLocation] that completes returns the document of that
    cell, not [null]: the document is the one now stored under the id of
    the location, and its score is within [0, 1]. *)
Theorem updateGridForLocation_returns_cell now lat lng db db' (r : option RiskGrid) :
  let gid := fst (getGridIdAndCenter env lat lng) in
  updateGridForLocation env now lat lng db = Ok (db', r) ->
  ((exists a, In a (scannedSOS env now gid db) /\
              (now <= sos_timestamp a + 7 * MS_PER_DAY)%Z) \/
   (exists i, In i (scannedIncidents env now gid db) /\
              (now <= inc_timestamp i + 7 * MS_PER_DAY)%Z)) ->
  exists cell,
    r = Some cell /\ riskGrids db' !! gid = Some cell /\
    gridId cell = gid /\ lastUpdated cell = now /\
    0 <= riskScore cell /\ riskScore cell <= 1.
Proof.
  intros gid H Hrecent. unfold updateGridForLocation in H. fold gid in H.
  destruct (processGrid env now gid db) as [d|e] eqn:Hp; simpl in H; [|discriminate].
  injection H as <- <-.
  apply recent_event_not_expired in Hrecent.
  apply processGrid_Ok in Hp. cbv zeta in Hp.
  destruct Hp as [[Hlt _] | [_ [name Hsome]]]; [lia|].
  exists (cellFor env now gid db name). rewrite Hsome.
  repeat split; try reflexivity; apply clamp01_range.
Qed.

(** *** The grid index *)

Lemma Qfloor_unique (y : Q) (k : Z) :
  inject_Z k <= y -> y < inject_Z (k + 1) -> Qfloor y = k.
Proof.
  intros Hle Hlt. apply Z.le_antisymm.
  - assert (H : inject_Z (Qfloor y) < inject_Z (k + 1))
      by (eapply Qle_lt_trans; [apply Qfloor_le|exact Hlt]).
    rewrite <- Zlt_Qlt in H. lia.
  - rewrite <- (Qfloor_Z k). apply Qfloor_resp_le. exact Hle.
Qed.

(** Away from the edges of a cell the rounding of the quotient does not
    change its floor. *)
Lemma rounded_index (quot : Q -> Q) (tol : Q) (k : Z) (x : Q) :
  Rounded.accurate quot tol x -> Rounded.inside tol k x ->
  Qfloor (quot x) = k /\ Qfloor (x / GRID_SIZE_DEG) = k.
Proof.
  unfold Rounded.accurate, Rounded.inside. intros Hacc [Hlo Hhi].
  apply Qabs_Qle_condition in Hacc. destruct Hacc as [Ha Hb].
  assert (Htol : 0 <= tol) by lra.
  split; apply Qfloor_unique; rewrite ?inject_Z_plus;
    change (inject_Z 1) with 1; lra.
Qed.

(** X4. [getGridIdAndCenter] with the quotient of line 19 computed within
    a tolerance, as a division of doubles is: two points of the same cell
    that are at least the tolerance away from its edges (in cells) get the
    same id and the same centre, the centre computed for the index of that
    cell; for such points the rounded quotient has the floor of the exact
    one. In exact arithmetic the function is that of the risk engine
    above. *)
Theorem getGridIdAndCenter_same_cell (quot : Q -> Q) (centreOf : Z -> Q) (tol : Q)
    (kLat kLng : Z) (lat lng lat' lng' : Q) :
  Rounded.accurate quot tol lat -> Rounded.accurate quot tol lat' ->
  Rounded.accurate quot tol lng -> Rounded.accurate quot tol lng' ->
  Rounded.inside tol kLat lat -> Rounded.inside tol kLat lat' ->
  Rounded.inside tol kLng lng -> Rounded.inside tol kLng lng' ->
  Rounded.getGridIdAndCenter env quot centreOf lat' lng'
  = Rounded.getGridIdAndCenter env quot centreOf lat lng /\
  snd (Rounded.getGridIdAndCenter env quot centreOf lat lng)
  = {| p_lng := centreOf kLng; p_lat := centreOf kLat |} /\
  Qfloor (quot lat) = Qfloor (lat / GRID_SIZE_DEG) /\
  Qfloor (quot lng) = Qfloor (lng / GRID_SIZE_DEG) /\
  Rounded.getGridIdAndCenter env Rounded.exactQuot Rounded.exactCentre lat lng
  = getGridIdAndCenter env lat lng.
Proof.
  intros A1 A2 A3 A4 I1 I2 I3 I4.
  destruct (rounded_index quot tol kLat lat A1 I1) as [R1 E1].
  destruct (rounded_index quot tol kLat lat' A2 I2) as [R2 _].
  destruct (rounded_index quot tol kLng lng A3 I3) as [R3 E3].
  destruct (rounded_index quot tol kLng lng' A4 I4) as [R4 _].
  split; [|split; [|split; [|split]]].
  - unfold Rounded.getGridIdAndCenter, Rounded.snap. rewrite R1, R2, R3, R4.
    reflexivity.
  - unfold Rounded.getGridIdAndCenter, Rounded.snap. rewrite R1, R3. reflexivity.
  - rewrite R1, E1. reflexivity.
  - rewrite R3, E3. reflexivity.
  - reflexivity.
Qed.

(** *** The batch over the active cells *)

Lemma set_add_In (x y : string) (l : list string) :
  In y (set_add x l) <-> y = x \/ In y l.
Proof.
  unfold set_add. case_bool_decide as Hx.
  - apply list_elem_of_In in Hx. split; [tauto|]. intros [-> | H]; assumption.
  - rewrite in_app_iff. simpl. split; [intros [H | [<- | []]]|intros [-> | H]]; tauto.
Qed.

Lemma addLocated_NoDup (ids : list string) (loc : option Point) :
  List.NoDup ids -> List.NoDup (addLocated env ids loc).
Proof. destruct loc; simpl; [apply set_add_NoDup|trivial]. Qed.

Lemma fold_NoDup {A : Type} (step : list string -> A -> list string) (l : list A)
    (ids : list string) :
  (forall i a, List.NoDup i -> List.NoDup (step i a)) ->
  List.NoDup ids -> List.NoDup (fold_left step l ids).
Proof.
  intros Hstep. revert ids. induction l as [|a l IH]; intros ids H; simpl.
  - exact H.
  - apply IH. apply Hstep. exact H.
Qed.

Lemma activeGridIds_NoDup now db : List.NoDup (activeGridIds env now db).
Proof.
  unfold activeGridIds.
  apply fold_NoDup; [intros; apply set_add_NoDup; assumption|].
  apply fold_NoDup; [intros; apply addLocated_NoDup; assumption|].
  apply fold_NoDup; [intros; apply addLocated_NoDup; assumption|].
  constructor.
Qed.




(** The loop leaves alone the cells that are not in its list. *)
Lemma processAll_frame now (ids : list string) (db : DB) (done : list string)
    (gid : string) :
  let run := processAll env now ids db done in
  sosAlerts (br_db run) = sosAlerts db /\
  incidents (br_db run) = incidents db /\
  (~ In gid ids -> riskGrids (br_db run) !! gid = riskGrids db !! gid).
Proof.
  revert db done. induction ids as [|g ids IH]; intros db done; simpl.
  - repeat split.
  - destruct (processGrid env now g db) as [db'|e] eqn:Hp; simpl; [|repeat split].
    destruct (processGrid_others now g db db' Hp) as (Hs & Hi & Hother).
    destruct (IH db' (done ++ [g])) as (Hs' & Hi' & Hother').
    rewrite Hs', Hi'. repeat split; try assumption.
    intros Hnot. rewrite Hother' by tauto. apply Hother. intros ->. tauto.
Qed.

(** What [processGrid] leaves under the id of its cell depends on the
    events and on the previous document of that cell only. *)
Lemma processGrid_local now gid (db1 db2 d1 : DB) :
  sosAlerts db1 = sosAlerts db2 ->
  incidents db1 = incidents db2 ->
  riskGrids db1 !! gid = riskGrids db2 !! gid ->
  processGrid env now gid db1 = Ok d1 ->
  exists d2, processGrid env now gid db2 = Ok d2 /\
             riskGrids d1 !! gid = riskGrids d2 !! gid.
Proof.
  intros Hs Hi Hg. unfold processGrid, cellFor.
  destruct (scanned_events_only now gid db1 db2 Hs Hi) as [-> ->].
  rewrite Hg. destruct (_ <? _)%Z.
  - intros H. injection H as <-. eexists. split; [reflexivity|].
    simpl. rewrite !lookup_delete_eq. reflexivity.
  - destruct (match carriedName _ with Some n => Ok n | None => _ end) as [n|e];
      simpl; [|discriminate].
    intros H. injection H as <-. eexists. split; [reflexivity|].
    simpl. rewrite !lookup_insert_eq. reflexivity.
Qed.


(** A loop that completes has left, under each id of its list, what
    [processGrid] alone leaves there on the initial database. *)
Lemma processAll_completed_at now (ids : list string) (db : DB) (done : list string)
    (gid : string) :
  br_error (processAll env now ids db done) = None ->
  List.NoDup ids -> In gid ids ->
  exists d, processGrid env now gid db = Ok d /\
            riskGrids (br_db (processAll env now ids db done)) !! gid
            = riskGrids d !! gid.
Proof.
  revert db done.
  induction ids as [|g ids IH]; intros db done Herr Hnd Hin; [destruct Hin|].
  apply List.NoDup_cons_iff in Hnd as [Hnotin Hnd]. simpl in *.
  destruct (processGrid env now g db) as [db'|e] eqn:Hp; [|discriminate].
  destruct (string_dec g gid) as [-> | Hne].
  - exists db'. split; [exact Hp|].
    apply (processAll_frame now ids db' (done ++ [gid]) gid). exact Hnotin.
  - destruct Hin as [Heq | Hin]; [contradiction|].
    destruct (IH db' (done ++ [g]) Herr Hnd Hin) as (d1 & Hd1 & Hlook).
    destruct (processGrid_others now g db db' Hp) as (Hs & Hi & Hother).
    destruct (processGrid_local now gid db' db d1 Hs Hi) as (d2 & Hd2 & Heq);
      [apply Hother; congruence|exact Hd1|].
    exists d2. split; [exact Hd2|]. rewrite Hlook. exact Heq.
Qed.

(** X5. A pass of [updateRiskScores] leaves the events and the cells that
    are not active as they are, whether it completes or not. A pass that
    completes, no call of it being rejected, has recomputed every active
    cell once, in order, and has left for each cell what [processGrid]
    alone leaves for it on the initial database: the cells do not influence
    one another. *)
Theorem updateRiskScores_cells_independent now db :
  let run := updateRiskScores env now db in
  sosAlerts (br_db run) = sosAlerts db /\
  incidents (br_db run) = incidents db /\
  (forall gid, ~ In gid (activeGridIds env now db) ->
     riskGrids (br_db run) !! gid = riskGrids db !! gid) /\
  (br_error run = None ->
   br_done run = activeGridIds env now db /\
   List.NoDup (br_done run) /\
   (forall gid, In gid (activeGridIds env now db) ->
      exists d, processGrid env now gid db = Ok d /\
                riskGrids (br_db run) !! gid = riskGrids d !! gid)).
Proof.
  intros run. subst run. unfold updateRiskScores.
  destruct (processAll_frame now (activeGridIds env now db) db [] EmptyString)
    as (Hs & Hi & _).
  split; [exact Hs|]. split; [exact Hi|]. split.
  - intros gid Hnot.
    apply (processAll_frame now (activeGridIds env now db) db [] gid). exact Hnot.
  - intros Herr.
    pose proof (processAll_done env now _ _ _ Herr) as Hdone. simpl in Hdone.
    split; [exact Hdone|]. split; [rewrite Hdone; apply activeGridIds_NoDup|].
    intros gid Hin.
    apply processAll_completed_at; [exact Herr|apply activeGridIds_NoDup|exact Hin].
Qed.


(** *** Reasons and levels of a persisted cell *)

(** X7. The reasons persisted with a cell are at most ten, each one built
    from a scanned event, ordered from the newest to the oldest; the
    reasons built from the scanned events that are left out are not newer
    than any reason kept. *)
Theorem persisted_reasons_newest_ten now gid db db' cell :
  processGrid env now gid db = Ok db' ->
  riskGrids db' !! gid = Some cell ->
  let sos := scannedSOS env now gid db in
  let incs := scannedIncidents env now gid db in
  (length (reasons cell) <= 10)%nat /\
  StronglySorted (fun a b => (r_timestamp b <= r_timestamp a)%Z) (reasons cell) /\
  exists rest,
    Permutation (reasons cell ++ rest)
                (map sosReasonOf sos ++ map incidentReasonOf incs) /\
    (forall a b, In a (reasons cell) -> In b rest ->
                 (r_timestamp b <= r_timestamp a)%Z).
Proof.
  intros H Hcell sos incs. apply processGrid_Ok in H. cbv zeta in H.
  destruct H as [[_ Hnone] | [_ [name Hsome]]]; [congruence|].
  rewrite Hsome in Hcell. injection Hcell as <-. simpl.
  fold sos incs. unfold topReasons.
  set (all := map sosReasonOf sos ++ map incidentReasonOf incs).
  pose proof (stable_sort_sorted r_timestamp all) as Hsorted.
  pose proof (stable_sort_Permutation r_timestamp all) as Hperm.
  cbv zeta in Hsorted, Hperm.
  set (sorted := stable_sort (fun a b => (r_timestamp b <? r_timestamp a)%Z) all) in *.
  destruct (sorted_take_drop r_timestamp 10 sorted Hsorted) as [Ht Hd].
  split; [rewrite length_take; lia|]. split; [exact Ht|].
  exists (drop 10 sorted). split; [|exact Hd].
  rewrite take_drop. exact Hperm.
Qed.

Lemma riskLevelOf_rank (s : Q) :
  (6 # 10 <= s -> (2 <= Spec.levelRank (riskLevelOf s))%nat) /\
  (3 # 10 <= s -> (1 <= Spec.levelRank (riskLevelOf s))%nat).
Proof.
  destruct (riskLevelOf_band s) as [H | H1 H2 | H1 H2 | H]; simpl;
    split; intros Hs; try lia; exfalso; lra.
Qed.

(** X8. What the sliding floor guarantees: a persisted Critical cell is at
    least High for 7.5 days after its latest event, and a persisted
    High-tier cell is at least Medium for 7 days after it, whatever the
    decayed scores are. *)
Theorem floor_keeps_level now gid db db' cell :
  processGrid env now gid db = Ok db' ->
  riskGrids db' !! gid = Some cell ->
  let latest := latestEventTime (scannedSOS env now gid db)
                                (scannedIncidents env now gid db) in
  (latest <= now)%Z ->
  (tierLevel cell = Critical -> (now - latest <= 648000000)%Z ->
   (2 <= Spec.levelRank (riskLevel cell))%nat) /\
  (tierLevel cell = High -> (now - latest <= 7 * MS_PER_DAY)%Z ->
   (1 <= Spec.levelRank (riskLevel cell))%nat).
Proof.
  intros H Hcell latest Hpast. apply processGrid_Ok in H. cbv zeta in H.
  destruct H as [[_ Hnone] | [Hle [name Hsome]]]; [congruence|].
  rewrite Hsome in Hcell. injection Hcell as <-. simpl.
  set (sos := scannedSOS env now gid db) in *.
  set (incs := scannedIncidents env now gid db) in *.
  destruct (determineTier_cases (length sos + length incs)
              (maxIncidentSeverity incs) (minSosSafetyScore sos))
    as (Hdur & _ & _).
  fold (planOf sos incs) in Hdur.
  assert (Hfloor : tier (planOf sos incs) <> Standard ->
            Spec.floorAt (tier (planOf sos incs)) (expiryOf sos incs) now
            <= clamp01 (flooredScore env now sos incs (riskGrids db !! gid))).
  { intros Hne.
    destruct (flooredScore_floor env now sos incs (riskGrids db !! gid))
      as (fl & _ & Heq & Hfl); [exact Hne|split; assumption|].
    apply clamp01_lower.
    - eapply Qle_trans; [|exact Hfl]. rewrite Heq. apply Qle_refl.
    - apply floorAt_range. unfold expiryOf in *. lia. }
  split; intros Ht Hage; rewrite Ht in Hfloor, Hdur;
    specialize (Hfloor ltac:(discriminate));
    apply riskLevelOf_rank; (eapply Qle_trans; [|exact Hfloor]);
    unfold Spec.floorAt, expiryOf; rewrite Hdur; simpl Spec.ceiling;
    simpl Spec.retentionMs.
  - assert (Hz : (1944000000 <= latest + 30 * MS_PER_DAY - now)%Z)
      by (unfold MS_PER_DAY in *; lia).
    rewrite Zle_Qle in Hz. fold latest.
    set (x := inject_Z (latest + 30 * MS_PER_DAY - now)) in *.
    change (inject_Z (30 * MS_PER_DAY)) with (2592000000 # 1).
    change (inject_Z 1944000000) with (1944000000 # 1) in Hz.
    unfold Qdiv. change (/ (2592000000 # 1)) with (1 # 2592000000). lra.
  - assert (Hz : (604800000 <= latest + 14 * MS_PER_DAY - now)%Z)
      by (unfold MS_PER_DAY in *; lia).
    rewrite Zle_Qle in Hz. fold latest.
    set (x := inject_Z (latest + 14 * MS_PER_DAY - now)) in *.
    change (inject_Z (14 * MS_PER_DAY)) with (1209600000 # 1).
    change (inject_Z 604800000) with (604800000 # 1) in Hz.
    unfold Qdiv. change (/ (1209600000 # 1)) with (1 # 1209600000). lra.
Qed.

End RiskEngineMore.

(** *** The risk engine on the sample data *)

Section RiskEngineMoreExamples.
Import RiskEngine Examples Samples.

Lemma processGrid_evicts_without_events_witness :
  exists db',
    processGrid riskEnv now0 gidNorth dbStale = Ok db' /\
    riskGrids db' !! gidNorth = None /\
    db' = set_riskGrids dbStale (delete gidNorth (riskGrids dbStale)).
Proof.
  apply (processGrid_evicts_without_events riskEnv now0 gidNorth dbStale).
  - vm_compute. reflexivity.
  - vm_compute. reflexivity.
  - vm_compute. reflexivity.
Defined.

Lemma processGrid_frame_witness :
  let db' := after (processGrid riskEnv now0 gidCentre dbStale) dbStale in
  riskGrids db' !! gidNorth = Some staleCell /\
  sosAlerts db' = sosAlerts dbStale /\
  incidents db' = incidents dbStale /\
  (forall other, other <> gidCentre ->
     riskGrids db' !! other = riskGrids dbStale !! other).
Proof.
  cbv zeta. split; [vm_compute; reflexivity|].
  apply (processGrid_frame riskEnv now0 gidCentre dbStale).
  vm_compute. reflexivity.
Defined.

Lemma updateGridForLocation_returns_cell_witness :
  exists cell,
    riskGrids dbCentre1 !! gidCentre = Some cell /\
    riskGrids dbCentre1 !! fst (getGridIdAndCenter riskEnv (129716 # 10000) (775946 # 10000))
    = Some cell /\
    gridId cell = gidCentre /\ lastUpdated cell = now0 /\
    0 <= riskScore cell /\ riskScore cell <= 1.
Proof.
  assert (Hrun : updateGridForLocation riskEnv now0 (129716 # 10000) (775946 # 10000)
                   dbCentre = Ok (dbCentre1, riskGrids dbCentre1 !! gidCentre))
    by (vm_compute; reflexivity).
  assert (Hid : fst (getGridIdAndCenter riskEnv (129716 # 10000) (775946 # 10000))
                = gidCentre) by (vm_compute; reflexivity).
  pose proof (updateGridForLocation_returns_cell riskEnv now0
                (129716 # 10000) (775946 # 10000) dbCentre dbCentre1 _ Hrun) as H.
  cbv zeta in H. rewrite Hid in H.
  destruct H as (cell & Hr & Hcell & Hg & Hup & Hrange).
  - left. exists sosCentre.
    split; [vm_compute; left; reflexivity|vm_compute; discriminate].
  - exists cell. rewrite Hid. tauto.
Defined.

Lemma getGridIdAndCenter_same_cell_witness :
  Rounded.getGridIdAndCenter riskEnv roundedQuot Rounded.exactCentre
    (1297 # 100) (7759401 # 100000)
  = Rounded.getGridIdAndCenter riskEnv roundedQuot Rounded.exactCentre
      (129716 # 10000) (775946 # 10000) /\
  fst (Rounded.getGridIdAndCenter riskEnv roundedQuot Rounded.exactCentre
         (129716 # 10000) (775946 # 10000)) = gidCentre.
Proof.
  pose proof (getGridIdAndCenter_same_cell riskEnv roundedQuot Rounded.exactCentre
                (1 # 1048576) 2882 17243
                (129716 # 10000) (775946 # 10000)
                (1297 # 100) (7759401 # 100000)) as H.
  destruct H as (H1 & _).
  - vm_compute. discriminate.
  - vm_compute. discriminate.
  - vm_compute. discriminate.
  - vm_compute. discriminate.
  - split; vm_compute; [discriminate|reflexivity].
  - split; vm_compute; [discriminate|reflexivity].
  - split; vm_compute; [discriminate|reflexivity].
  - split; vm_compute; [discriminate|reflexivity].
  - split; [exact H1|]. vm_compute. reflexivity.
Defined.


Lemma updateRiskScores_cells_independent_witness :
  let run := updateRiskScores steadyEnv now0 db0 in
  br_done run = [gidNorth; gidCentre] /\
  (exists d, processGrid steadyEnv now0 gidCentre db0 = Ok d /\
             riskGrids (br_db run) !! gidCentre = riskGrids d !! gidCentre).
Proof.
  pose proof (updateRiskScores_cells_independent steadyEnv now0 db0) as H.
  cbv zeta in H. destruct H as (_ & _ & _ & H).
  destruct H as (Hdone & _ & Hat).
  - vm_compute. reflexivity.
  - cbv zeta. split; [rewrite Hdone; vm_compute; reflexivity|].
    apply Hat. vm_compute. right. left. reflexivity.
Defined.


Lemma persisted_reasons_newest_ten_witness :
  exists cell,
    riskGrids dbCentre1 !! gidCentre = Some cell /\
    (length (reasons cell) <= 10)%nat /\
    StronglySorted (fun a b => (r_timestamp b <= r_timestamp a)%Z) (reasons cell) /\
    exists rest,
      Permutation (reasons cell ++ rest)
                  (map sosReasonOf (scannedSOS riskEnv now0 gidCentre dbCentre)
                   ++ map incidentReasonOf (scannedIncidents riskEnv now0 gidCentre dbCentre)) /\
      (forall a b, In a (reasons cell) -> In b rest ->
                   (r_timestamp b <= r_timestamp a)%Z).
Proof.
  exists (cellFor riskEnv now0 gidCentre dbCentre "MG Road").
  assert (Hc : riskGrids dbCentre1 !! gidCentre
               = Some (cellFor riskEnv now0 gidCentre dbCentre "MG Road"))
    by (vm_compute; reflexivity).
  split; [exact Hc|].
  apply (persisted_reasons_newest_ten riskEnv now0 gidCentre dbCentre dbCentre1 _);
    [vm_compute; reflexivity|exact Hc].
Defined.

(** The Critical cell of the sample, one hour after its event, is High. *)
Lemma floor_keeps_level_witness :
  exists cell,
    riskGrids dbCentre1 !! gidCentre = Some cell /\
    tierLevel cell = Critical /\
    (2 <= Spec.levelRank (riskLevel cell))%nat.
Proof.
  exists (cellFor riskEnv now0 gidCentre dbCentre "MG Road").
  assert (Hc : riskGrids dbCentre1 !! gidCentre
               = Some (cellFor riskEnv now0 gidCentre dbCentre "MG Road"))
    by (vm_compute; reflexivity).
  split; [exact Hc|]. split; [vm_compute; reflexivity|].
  apply (floor_keeps_level riskEnv now0 gidCentre dbCentre dbCentre1 _).
  - vm_compute. reflexivity.
  - exact Hc.
  - vm_compute. discriminate.
  - vm_compute. reflexivity.
  - vm_compute. discriminate.
Defined.

End RiskEngineMoreExamples.

(** ** The safety scorer: penalties, score and threats *)

Section SafetyScoreMore.
Import SafetyScore.

Lemma ratio_range (lo hi d : Q) :
  lo < hi -> lo <= d -> d <= hi ->
  0 <= (d - lo) / (hi - lo) /\ (d - lo) / (hi - lo) <= 1.
Proof.
  intros Hlt Hlo Hhi. assert (Hpos : 0 < hi - lo) by lra. split.
  - apply Qle_shift_div_l; [exact Hpos|]. lra.
  - apply Qle_shift_div_r; [exact Hpos|]. lra.
Qed.

Lemma ratio_mono (lo hi d1 d2 : Q) :
  lo < hi -> d1 <= d2 -> (d1 - lo) / (hi - lo) <= (d2 - lo) / (hi - lo).
Proof.
  intros Hlt Hle. unfold Qdiv. apply Qmult_le_compat_r; [lra|].
  apply Qlt_le_weak. apply Qinv_lt_0_compat. lra.
Qed.

Lemma penalty_mono (sev m1 m2 maxPenalty : Q) :
  0 <= sev -> 0 <= maxPenalty -> m2 <= m1 ->
  sev * m2 * maxPenalty <= sev * m1 * maxPenalty.
Proof.
  intros Hs Hp Hm. apply Qmult_le_compat_r; [|exact Hp].
  rewrite !(Qmult_comm sev). apply Qmult_le_compat_r; assumption.
Qed.

Lemma penalty_nonneg (sev m maxPenalty : Q) :
  0 <= sev -> 0 <= maxPenalty -> 0 <= m -> 0 <= sev * m * maxPenalty.
Proof.
  intros Hs Hp Hm. apply Qmult_le_0_compat; [|exact Hp].
  apply Qmult_le_0_compat; assumption.
Qed.

Lemma bandsOf_ordered (type : string) (customRadius : option Q) :
  let config := bandsOf type customRadius in
  critical config < high config /\ high config < medium config /\
  medium config < low config.
Proof.
  unfold bandsOf.
  destruct (String.eqb type "risk_grid" && _); [|destruct (String.eqb type "danger_zone")];
    simpl; repeat split; try reflexivity; lra.
Qed.

Lemma penalty_le (sev m maxPenalty : Q) :
  0 <= sev -> 0 <= maxPenalty -> m <= 1 ->
  sev * m * maxPenalty <= sev * maxPenalty.
Proof.
  intros Hs Hp Hm.
  apply Qle_trans with (sev * 1 * maxPenalty); [apply penalty_mono; assumption|].
  rewrite Qmult_1_r. apply Qle_refl.
Qed.

Ltac band_of d c h m l :=
  destruct (Qleb d c) eqn:?;
  [|destruct (Qleb d h) eqn:?;
    [|destruct (Qleb d m) eqn:?;
      [|destruct (Qleb d l) eqn:?]]].

Ltac comparisons :=
  repeat match goal with
         | H : Qleb _ _ = true |- _ => apply Qleb_le in H
         | H : Qleb _ _ = false |- _ => apply Qleb_gt in H
         end.

Ltac ratio_facts lo hi d1 d2 :=
  try (assert (0 <= (d1 - lo) / (hi - lo) /\ (d1 - lo) / (hi - lo) <= 1)
         by (apply ratio_range; lra));
  try (assert (0 <= (d2 - lo) / (hi - lo) /\ (d2 - lo) / (hi - lo) <= 1)
         by (apply ratio_range; lra));
  try (assert ((d1 - lo) / (hi - lo) <= (d2 - lo) / (hi - lo))
         by (apply ratio_mono; lra)).

(** X9. The penalty of a threat never grows with the distance: for a
    severity that is not negative, [calculateThreatImpact] is non-increasing
    in the distance, lies between 0 and the severity times the ceiling of
    the kind of threat (70 for a danger zone, 50 otherwise), and is 0 past
    the outer band. *)
Theorem calculateThreatImpact_decreasing (type : string) (customRadius : option Q)
    (severity d1 d2 : Q) :
  0 <= severity -> d1 <= d2 ->
  let impact d := calculateThreatImpact d severity type customRadius in
  impact d2 <= impact d1 /\
  0 <= impact d2 /\
  impact d1 <= severity * (if String.eqb type "danger_zone" then 70 else 50) /\
  (low (bandsOf type customRadius) < d2 -> impact d2 = 0).
Proof.
  intros Hsev Hd impact. subst impact. unfold calculateThreatImpact.
  destruct (bandsOf_ordered type customRadius) as (Hch & Hhm & Hml).
  destruct (bandsOf type customRadius) as [c h m l]. simpl in *.
  set (P := if String.eqb type "danger_zone" then 70 else 50).
  assert (HP : 0 <= P) by (subst P; destruct (String.eqb type "danger_zone"); discriminate).
  clearbody P.
  repeat split.
  - band_of d1 c h m l; band_of d2 c h m l; comparisons;
      try (exfalso; lra);
      ratio_facts c h d1 d2; ratio_facts h m d1 d2; ratio_facts m l d1 d2;
      first [ apply Qle_refl
            | apply penalty_mono; [assumption|assumption|lra]
            | apply penalty_nonneg; [assumption|assumption|lra] ].
  - band_of d2 c h m l; comparisons;
      ratio_facts c h d2 d2; ratio_facts h m d2 d2; ratio_facts m l d2 d2;
      first [ apply Qle_refl
            | apply penalty_nonneg; [assumption|assumption|lra] ].
  - band_of d1 c h m l; comparisons;
      ratio_facts c h d1 d1; ratio_facts h m d1 d1; ratio_facts m l d1 d1;
      first [ apply penalty_le; [assumption|assumption|lra]
            | apply Qmult_le_0_compat; assumption ].
  - intros Hfar. band_of d2 c h m l; comparisons; try reflexivity; exfalso; lra.
Qed.

Lemma div_range (d r : Q) :
  0 < r -> 0 <= d -> d <= r -> 0 <= d / r /\ d / r <= 1.
Proof.
  intros Hr Hd Hle. split.
  - apply Qle_shift_div_l; [exact Hr|]. lra.
  - apply Qle_shift_div_r; [exact Hr|]. lra.
Qed.

Lemma div_mono (d1 d2 r : Q) : 0 < r -> d1 <= d2 -> d1 / r <= d2 / r.
Proof.
  intros Hr Hle. unfold Qdiv. apply Qmult_le_compat_r; [exact Hle|].
  apply Qlt_le_weak. apply Qinv_lt_0_compat. exact Hr.
Qed.

(** X10. The penalty of a raw event fades out linearly: for a positive
    radius, a severity and a ceiling that are not negative, and distances
    that are not negative, [proximityPenalty] is non-increasing in the
    distance, lies between 0 and the severity times the ceiling, and is 0
    from the radius on. *)
Theorem proximityPenalty_decreasing (maxRadius severity maxPenalty d1 d2 : Q) :
  0 < maxRadius -> 0 <= severity -> 0 <= maxPenalty ->
  0 <= d1 -> d1 <= d2 ->
  let penalty d := proximityPenalty d maxRadius severity maxPenalty in
  penalty d2 <= penalty d1 /\
  0 <= penalty d2 /\
  penalty d1 <= severity * maxPenalty /\
  (maxRadius <= d2 -> penalty d2 == 0).
Proof.
  intros Hr Hs Hp H0 Hd penalty. subst penalty. unfold proximityPenalty, Qgtb.
  pose proof (div_mono d1 d2 maxRadius Hr Hd) as Hmono.
  repeat split.
  - destruct (Qltb maxRadius d1) eqn:E1; destruct (Qltb maxRadius d2) eqn:E2.
    + apply Qle_refl.
    + apply Qltb_lt in E1. apply Qltb_ge in E2. exfalso. lra.
    + apply Qltb_ge in E1.
      destruct (div_range d1 maxRadius Hr H0 E1) as [Ha Hb].
      apply penalty_nonneg; [assumption|assumption|lra].
    + apply penalty_mono; [assumption|assumption|lra].
  - destruct (Qltb maxRadius d2) eqn:E2; [apply Qle_refl|].
    apply Qltb_ge in E2.
    destruct (div_range d2 maxRadius Hr) as [Ha Hb]; [lra|exact E2|].
    apply penalty_nonneg; [assumption|assumption|lra].
  - destruct (Qltb maxRadius d1) eqn:E1.
    + apply Qmult_le_0_compat; assumption.
    + apply Qltb_ge in E1.
      destruct (div_range d1 maxRadius Hr H0 E1) as [Ha Hb].
      apply penalty_le; [assumption|assumption|lra].
  - intros Hfar. destruct (Qltb maxRadius d2) eqn:E2; [reflexivity|].
    apply Qltb_ge in E2.
    assert (Heq : d2 == maxRadius) by lra.
    rewrite Heq. field. lra.
Qed.

Lemma finalScoreOf_range (totalPenalty : Q) :
  (0 <= finalScoreOf totalPenalty <= 100)%Z.
Proof.
  unfold finalScoreOf, Math_round, Math_max, Math_min.
  set (y := Qmax 0 (Qmin 100 (CONFIG.BASE_SCORE - totalPenalty))).
  assert (H0 : 0 <= y) by apply Q.le_max_l.
  assert (H1 : y <= 100) by (apply Q.max_lub; [discriminate|apply Q.le_min_l]).
  split.
  - change 0%Z with (Qfloor 0). apply Qfloor_resp_le. lra.
  - change 100%Z with (Qfloor (201 # 2)). apply Qfloor_resp_le. lra.
Qed.

(** X11. Every result of [calculateSafetyScore], the default of the error
    path included, has a score between 0 and 100 and the level of the band
    of that score: EXCELLENT from 90, GOOD from 70, FAIR from 50, POOR from
    30, CRITICAL below. *)
Theorem calculateSafetyScore_score_and_level (env : Env) (now : Z) (lat lng : Q) :
  let r := calculateSafetyScore env now lat lng in
  (0 <= safetyScore r <= 100)%Z /\
  (safetyLevel r = "EXCELLENT" <-> (90 <= safetyScore r)%Z) /\
  (safetyLevel r = "GOOD" <-> (70 <= safetyScore r < 90)%Z) /\
  (safetyLevel r = "FAIR" <-> (50 <= safetyScore r < 70)%Z) /\
  (safetyLevel r = "POOR" <-> (30 <= safetyScore r < 50)%Z) /\
  (safetyLevel r = "CRITICAL" <-> (safetyScore r < 30)%Z).
Proof.
  intros r. subst r. unfold calculateSafetyScore.
  destruct (scorePass env now lat lng) as [acc|e].
  - simpl. pose proof (finalScoreOf_range (totalPenalty acc)) as Hr.
    split; [exact Hr|]. unfold levelOf.
    set (s := finalScoreOf (totalPenalty acc)) in *.
    destruct (90 <=? s)%Z eqn:E90; [apply Z.leb_le in E90|apply Z.leb_gt in E90];
      [simpl; repeat split; intros; try discriminate; try reflexivity; lia|].
    destruct (70 <=? s)%Z eqn:E70; [apply Z.leb_le in E70|apply Z.leb_gt in E70];
      [simpl; repeat split; intros; try discriminate; try reflexivity; lia|].
    destruct (50 <=? s)%Z eqn:E50; [apply Z.leb_le in E50|apply Z.leb_gt in E50];
      [simpl; repeat split; intros; try discriminate; try reflexivity; lia|].
    destruct (30 <=? s)%Z eqn:E30; [apply Z.leb_le in E30|apply Z.leb_gt in E30];
      simpl; repeat split; intros; try discriminate; try reflexivity; lia.
  - simpl. repeat split; intros; try discriminate; try reflexivity; lia.
Qed.

(** X12. The threats of a result: at most five are returned, the five of
    highest rounded impact in decreasing order; [totalThreats] counts all
    the threats of the pass, and [nearestThreat] is the first of the list,
    a threat of highest impact among all, [null] exactly when there is
    none. *)
Theorem calculateSafetyScore_threats (env : Env) (now : Z) (lat lng : Q) :
  let r := calculateSafetyScore env now lat lng in
  length (threats r) = Nat.min 5 (totalThreats r) /\
  StronglySorted (fun a b => (t_impact b <= t_impact a)%Z) (threats r) /\
  nearestThreat r = head (threats r) /\
  (nearestThreat r = None <-> totalThreats r = 0%nat) /\
  forall acc, scorePass env now lat lng = Ok acc ->
    totalThreats r = length (acc_threats acc) /\
    (forall t, In t (threats r) -> In t (acc_threats acc)) /\
    (forall t t', nearestThreat r = Some t -> In t' (acc_threats acc) ->
                  (t_impact t' <= t_impact t)%Z) /\
    (forall t t', In t (threats r) -> In t' (acc_threats acc) ->
                  ~ In t' (threats r) -> (t_impact t' <= t_impact t)%Z).
Proof.
  intros r. subst r. unfold calculateSafetyScore.
  destruct (scorePass env now lat lng) as [acc|e];
    unfold resultOf, safeDefault; cbn [threats totalThreats nearestThreat].
  - pose proof (stable_sort_sorted t_impact (acc_threats acc)) as Hsorted.
    pose proof (stable_sort_Permutation t_impact (acc_threats acc)) as Hperm.
    cbv zeta in Hsorted, Hperm. fold (sortThreats (acc_threats acc)) in Hsorted, Hperm.
    set (sorted := sortThreats (acc_threats acc)) in *.
    destruct (sorted_take_drop t_impact 5 sorted Hsorted) as [Ht Hd].
    split; [apply length_take|]. split; [exact Ht|].
    split; [destruct sorted; reflexivity|].
    split; [destruct sorted; simpl; split; congruence|].
    intros acc' Hacc. injection Hacc as <-.
    split; [apply Permutation_length; exact Hperm|].
    assert (Hsplit : forall t', In t' (acc_threats acc) ->
                                In t' (take 5 sorted) \/ In t' (drop 5 sorted)).
    { intros t' Hin. apply in_app_or. rewrite take_drop.
      apply (Permutation_in _ (Permutation_sym Hperm)). exact Hin. }
    split; [|split].
    + intros t Hin. apply (Permutation_in _ Hperm).
      apply list_elem_of_In. apply (subseteq_take 5 sorted).
      apply list_elem_of_In. exact Hin.
    + intros t t' Hhead Hin.
      apply (Permutation_in _ (Permutation_sym Hperm)) in Hin.
      destruct sorted as [|x rest]; [discriminate|].
      injection Hhead as ->. inversion Hsorted as [|? ? _ Hall]; subst.
      destruct Hin as [<- | Hin]; [lia|].
      rewrite Forall_forall in Hall. apply Hall. apply list_elem_of_In. exact Hin.
    + intros t t' Hin Hin' Hnot.
      destruct (Hsplit t' Hin') as [H | H]; [contradiction|].
      apply Hd; assumption.
  - split; [reflexivity|]. split; [constructor|]. split; [reflexivity|].
    split; [tauto|]. intros acc H. discriminate.
Qed.

(** An event without coordinates is skipped. *)
Lemma loop_skips {A : Type} (step : Acc -> A -> Acc) (pre post : list A) (e : A)
    (acc : Acc) :
  (forall a, step a e = a) ->
  fold_left step (pre ++ e :: post) acc = fold_left step (pre ++ post) acc.
Proof. intros H. rewrite !fold_left_app. simpl. rewrite H. reflexivity. Qed.

(** X13. A raw SOS alert or incident that has no coordinates never counts:
    the pass and its result are those of the pass without that event. *)
Theorem events_without_location_ignored (env : Env) (now : Z) (lat lng : Q) :
  (forall pre e post,
     findSOS env now lat lng = Ok (pre ++ e :: post) ->
     sos_location e = None ->
     let env' := with_findSOS env (fun _ _ _ => Ok (pre ++ post)) in
     scorePass env now lat lng = scorePass env' now lat lng /\
     calculateSafetyScore env now lat lng = calculateSafetyScore env' now lat lng) /\
  (forall pre i post,
     findIncidents env now lat lng = Ok (pre ++ i :: post) ->
     inc_location i = None ->
     let env' := with_findIncidents env (fun _ _ _ => Ok (pre ++ post)) in
     scorePass env now lat lng = scorePass env' now lat lng /\
     calculateSafetyScore env now lat lng = calculateSafetyScore env' now lat lng).
Proof.
  split.
  - intros pre e post Hsos Hloc env'.
    assert (Hpass : scorePass env now lat lng = scorePass env' now lat lng).
    { unfold scorePass, env'. simpl. rewrite Hsos.
      destruct (findRiskGrids env now lat lng) as [grids|]; simpl; [|reflexivity].
      destruct (findDangerZones env now lat lng) as [zones|]; simpl; [|reflexivity].
      rewrite (loop_skips _ pre post e); [reflexivity|].
      intros a. unfold sosStep. rewrite Hloc. reflexivity. }
    split; [exact Hpass|]. unfold calculateSafetyScore. rewrite Hpass. reflexivity.
  - intros pre i post Hinc Hloc env'.
    assert (Hpass : scorePass env now lat lng = scorePass env' now lat lng).
    { unfold scorePass, env'. simpl. rewrite Hinc.
      destruct (findRiskGrids env now lat lng) as [grids|]; simpl; [|reflexivity].
      destruct (findDangerZones env now lat lng) as [zones|]; simpl; [|reflexivity].
      destruct (findSOS env now lat lng) as [sos|]; simpl; [|reflexivity].
      rewrite (loop_skips _ pre post i); [reflexivity|].
      intros a. unfold incidentStep. rewrite Hloc. reflexivity. }
    split; [exact Hpass|]. unfold calculateSafetyScore. rewrite Hpass. reflexivity.
Qed.

End SafetyScoreMore.

(** *** The scorer on the sample data *)

Section SafetyScoreMoreExamples.
Import SafetyScore Examples Samples.

Lemma calculateThreatImpact_decreasing_witness :
  calculateThreatImpact 2000 (9 # 10) "risk_grid" (Some 1500)
  <= calculateThreatImpact 100 (9 # 10) "risk_grid" (Some 1500) /\
  0 <= calculateThreatImpact 2000 (9 # 10) "risk_grid" (Some 1500) /\
  calculateThreatImpact 100 (9 # 10) "risk_grid" (Some 1500) <= (9 # 10) * 50 /\
  (low (bandsOf "risk_grid" (Some 1500)) < 2000 ->
   calculateThreatImpact 2000 (9 # 10) "risk_grid" (Some 1500) = 0).
Proof.
  apply (calculateThreatImpact_decreasing "risk_grid" (Some 1500) (9 # 10) 100 2000).
  - vm_compute. discriminate.
  - vm_compute. discriminate.
Defined.

Lemma proximityPenalty_decreasing_witness :
  proximityPenalty 2500 2500 (8 # 10) 40 <= proximityPenalty 500 2500 (8 # 10) 40 /\
  0 <= proximityPenalty 2500 2500 (8 # 10) 40 /\
  proximityPenalty 500 2500 (8 # 10) 40 <= (8 # 10) * 40 /\
  (2500 <= 2500 -> proximityPenalty 2500 2500 (8 # 10) 40 == 0).
Proof.
  apply (proximityPenalty_decreasing 2500 (8 # 10) 40 500 2500).
  - vm_compute. reflexivity.
  - vm_compute. discriminate.
  - vm_compute. discriminate.
  - vm_compute. discriminate.
  - vm_compute. discriminate.
Defined.

Lemma calculateSafetyScore_threats_witness :
  exists acc,
    scorePass rawScoreEnv now0 lat0 lng0 = Ok acc /\
    totalThreats (calculateSafetyScore rawScoreEnv now0 lat0 lng0)
    = length (acc_threats acc) /\
    (forall t t',
       nearestThreat (calculateSafetyScore rawScoreEnv now0 lat0 lng0) = Some t ->
       In t' (acc_threats acc) -> (t_impact t' <= t_impact t)%Z).
Proof.
  destruct (scorePass rawScoreEnv now0 lat0 lng0) as [acc|e] eqn:Hpass;
    [|vm_compute in Hpass; discriminate].
  exists acc. split; [reflexivity|].
  destruct (calculateSafetyScore_threats rawScoreEnv now0 lat0 lng0)
    as (_ & _ & _ & _ & Hacc).
  destruct (Hacc acc Hpass) as (Hlen & _ & Hnear & _).
  split; [exact Hlen|exact Hnear].
Defined.

Lemma events_without_location_ignored_witness :
  calculateSafetyScore nowhereScoreEnv now0 lat0 lng0
  = calculateSafetyScore
      (with_findSOS nowhereScoreEnv (fun _ _ _ => Ok [sosInGrid])) now0 lat0 lng0 /\
  calculateSafetyScore nowhereScoreEnv now0 lat0 lng0
  = calculateSafetyScore
      (with_findIncidents nowhereScoreEnv (fun _ _ _ => Ok [incidentInGrid]))
      now0 lat0 lng0.
Proof.
  destruct (events_without_location_ignored nowhereScoreEnv now0 lat0 lng0)
    as [Hsos Hinc].
  split.
  - exact (proj2 (Hsos [] sosNowhere [sosInGrid] eq_refl eq_refl)).
  - exact (proj2 (Hinc [incidentInGrid] incidentNowhere [] eq_refl eq_refl)).
Defined.

End SafetyScoreMoreExamples.

(** ** The fallback store: loss, expiry, the log scan and key isolation *)

Section FallbackMore.
Import Fallback.
Variable env : Env.

Lemma alertKey_inj (id1 id2 : string) : alertKey id1 = alertKey id2 -> id1 = id2.
Proof. unfold alertKey. simpl. intros H. injection H as H. exact H. Qed.

(** What the scan returns is the payload of a marked entry with the id. *)
Lemma scanLog_Some (id : string) (lines : list LogLine) (p : Payload) :
  scanLog id lines = Some p ->
  alertId p = id /\
  exists level, In (Parsed {| le_level := level; le_message := "SOS_PAYLOAD";
                              le_payload := Some p |}) lines.
Proof.
  induction lines as [|line lines IH]; simpl; [discriminate|].
  destruct line as [[level message payload]|t]; simpl.
  - destruct (String.eqb message "SOS_PAYLOAD") eqn:Em.
    + apply String.eqb_eq in Em. subst message.
      destruct payload as [q|].
      * destruct (String.eqb (alertId q) id) eqn:Eid.
        -- intros H. injection H as <-. apply String.eqb_eq in Eid.
           split; [exact Eid|]. exists level. left. reflexivity.
        -- intros H. destruct (IH H) as (Hid & l & Hin).
           split; [exact Hid|]. exists l. right. exact Hin.
      * intros H. destruct (IH H) as (Hid & l & Hin).
        split; [exact Hid|]. exists l. right. exact Hin.
    + intros H. destruct (IH H) as (Hid & l & Hin).
      split; [exact Hid|]. exists l. right. exact Hin.
  - intros H. destruct (IH H) as (Hid & l & Hin).
    split; [exact Hid|]. exists l. right. exact Hin.
Qed.

Lemma scanLog_found (id level : string) (lines : list LogLine) (p : Payload) :
  alertId p = id ->
  In (Parsed {| le_level := level; le_message := "SOS_PAYLOAD";
                le_payload := Some p |}) lines ->
  exists q, scanLog id lines = Some q.
Proof.
  intros Hid. induction lines as [|line lines IH]; intros Hin; [destruct Hin|].
  destruct Hin as [-> | Hin].
  - simpl. rewrite Hid, String.eqb_refl. eexists. reflexivity.
  - destruct (IH Hin) as [q Hq]. simpl.
    destruct line as [[l m pl]|t]; simpl; [|eauto].
    destruct (String.eqb m "SOS_PAYLOAD"); [|eauto].
    destruct pl as [q'|]; [|eauto].
    destruct (String.eqb (alertId q') id); eauto.
Qed.

Lemma scanLog_malformed (id text : string) (l1 l2 : list LogLine) :
  scanLog id (l1 ++ Malformed text :: l2) = scanLog id (l1 ++ l2).
Proof. rewrite !scanLog_app. reflexivity. Qed.

(** X14. The scan of the log behind [getPendingAlert]: when the cache is
    not ready, the answer is the payload of the oldest log entry that
    carries the marker [SOS_PAYLOAD] and the id, [null] when there is none;
    lines that do not parse are skipped, wherever they stand. *)
Theorem getPendingAlert_log_scan now (id : string) (st : State) :
  status (redis st) <> Ready ->
  (forall p, fst (getPendingAlert env now id st) = Some p ->
     alertId p = id /\
     exists level, In (Parsed {| le_level := level; le_message := "SOS_PAYLOAD";
                                 le_payload := Some p |}) (log st)) /\
  (forall p level rest,
     alertId p = id -> scanLog id (log st) = None ->
     fst (getPendingAlert env now id
            {| redis := redis st;
               log := log st ++ Parsed {| le_level := level;
                                          le_message := "SOS_PAYLOAD";
                                          le_payload := Some p |} :: rest |})
     = Some p) /\
  (forall l1 l2 text,
     log st = l1 ++ Malformed text :: l2 ->
     fst (getPendingAlert env now id st)
     = fst (getPendingAlert env now id {| redis := redis st; log := l1 ++ l2 |})) /\
  snd (getPendingAlert env now id st) = st.
Proof.
  intros Hnr.
  assert (Hmiss : forall l, getPendingAlert env now id {| redis := redis st; log := l |}
                            = (scanLog id l, {| redis := redis st; log := l |})).
  { intros l. apply getPendingAlert_miss. left. exact Hnr. }
  rewrite (getPendingAlert_miss env now id st (or_introl Hnr)). simpl.
  repeat split.
  - apply (scanLog_Some id (log st) p). assumption.
  - apply (scanLog_Some id (log st) p). assumption.
  - intros p level rest Hid Hnone. rewrite Hmiss. simpl.
    rewrite scanLog_app, Hnone. simpl. rewrite Hid, String.eqb_refl. reflexivity.
  - intros l1 l2 text Hlog. rewrite Hmiss. simpl. rewrite Hlog.
    apply scanLog_malformed.
Qed.

(** [put] when the cache is ready, or can be connected to, and rejects
    the commands. *)
Lemma handleSOSFallback_rejected now (p : Payload) (st : State) :
  failing (redis st) = true ->
  status (redis st) = Ready \/
  (status (redis st) <> Connecting /\ reachable (redis st) = true) ->
  let st1 := handleSOSFallback env now p st in
  store (redis st1) = store (redis st) /\
  scanLog (alertId p) (log st1) = scanLog (alertId p) (log st).
Proof.
  intros Hf Hst st1. subst st1. unfold handleSOSFallback.
  assert (Hconn : (if bool_decide (status (redis st) <> Ready)
                      && bool_decide (status (redis st) <> Connecting)
                   then connect (redis st) else (redis st, true))
                  = (with_status (redis st) Ready, true)).
  { destruct (decide (status (redis st) = Ready)) as [Hr | Hr].
    - rewrite (bool_decide_eq_false_2 _ (fun H => H Hr)). simpl.
      destruct st as [r l]. destruct r as [s re fa sto]. simpl in *. subst s.
      reflexivity.
    - destruct Hst as [Hr' | [Hc Hreach]]; [contradiction|].
      rewrite (bool_decide_eq_true_2 _ Hr), (bool_decide_eq_true_2 _ Hc). simpl.
      unfold connect. rewrite Hreach. reflexivity. }
  rewrite Hconn. simpl. unfold redis_set. simpl. rewrite Hf. simpl.
  split; [reflexivity|].
  rewrite scanLog_app. destruct (scanLog (alertId p) (log st)); [reflexivity|].
  apply scanLog_notice.
Qed.

(** A lookup on a state that holds the alert neither in the cache nor in
    the log returns nothing, whatever the cache does. *)
Lemma getPendingAlert_nothing now (id : string) (st : State) :
  store (redis st) !! alertKey id = None ->
  scanLog id (log st) = None ->
  fst (getPendingAlert env now id st) = None.
Proof.
  intros Hnone Hlog. unfold getPendingAlert, cacheLookup.
  destruct (bool_decide (status (redis st) = Ready)); [|exact Hlog].
  unfold redis_get. destruct (failing (redis st)); simpl.
  - rewrite scanLog_app, Hlog. apply scanLog_notice.
  - rewrite Hnone. exact Hlog.
Qed.

(** X15. A cache that is connected, or can be, but rejects the commands
    loses the alert: [handleSOSFallback] catches the error and returns, the
    payload is neither in the cache nor in the log, and for an id with no
    earlier entry every later lookup returns nothing, whatever the state of
    the cache then is. *)
Theorem handleSOSFallback_rejected_loses_alert now now' (p : Payload)
    (st st2 : State) :
  failing (redis st) = true ->
  status (redis st) = Ready \/
  (status (redis st) <> Connecting /\ reachable (redis st) = true) ->
  store (redis st) !! alertKey (alertId p) = None ->
  scanLog (alertId p) (log st) = None ->
  let st1 := handleSOSFallback env now p st in
  store (redis st1) = store (redis st) /\
  scanLog (alertId p) (log st1) = None /\
  (store (redis st2) = store (redis st1) -> log st2 = log st1 ->
   fst (getPendingAlert env now' (alertId p) st2) = None).
Proof.
  intros Hf Hst Hnone Hfresh st1.
  destruct (handleSOSFallback_rejected now p st Hf Hst) as [Hstore Hlog].
  fold st1 in Hstore, Hlog.
  split; [exact Hstore|]. split; [rewrite Hlog; exact Hfresh|].
  intros Hs2 Hl2. apply getPendingAlert_nothing.
  - rewrite Hs2, Hstore. exact Hnone.
  - rewrite Hl2, Hlog. exact Hfresh.
Qed.

Lemma getPendingAlert_expired now (id value : string) (expiry : Z) (st : State) :
  Spec.cache_available st ->
  store (redis st) !! alertKey id = Some (value, Some expiry) ->
  (expiry <= now)%Z ->
  getPendingAlert env now id st = (scanLog id (log st), st).
Proof.
  intros [Hr Hf] Hstore Hlate. unfold getPendingAlert, cacheLookup.
  rewrite (bool_decide_eq_true_2 _ Hr). unfold redis_get, redis_del.
  rewrite Hf, Hstore. unfold visible. simpl.
  apply Z.ltb_ge in Hlate. rewrite Hlate. reflexivity.
Qed.

(** X16. The cache entry lives one hour: a lookup that comes 3600 seconds
    or more after a [put] the cache took does not find it, and for an id
    with no entry in the log it returns nothing. *)
Theorem getPendingAlert_after_expiry now now' (p : Payload) (st : State) :
  Spec.cache_accepts st ->
  scanLog (alertId p) (log st) = None ->
  (now + 3600 * 1000 <= now')%Z ->
  fst (getPendingAlert env now' (alertId p) (handleSOSFallback env now p st)) = None.
Proof.
  intros Hacc Hfresh Hlate.
  destruct (handleSOSFallback_cached env now p st Hacc) as (Hav & Hstore & Hlog).
  rewrite (getPendingAlert_expired now' _ _ _ _ Hav Hstore Hlate). simpl.
  rewrite Hlog. exact Hfresh.
Qed.

(** X17. The hand-offs of two alerts do not interfere: a [put] or a [get]
    for one id leaves the cache entry of another id and what the log scan
    finds for it as they are. *)
Theorem other_alert_untouched now (p : Payload) (id other : string) (st : State) :
  other <> alertId p -> other <> id ->
  let st1 := handleSOSFallback env now p st in
  let st2 := snd (getPendingAlert env now id st) in
  (store (redis st1) !! alertKey other = store (redis st) !! alertKey other /\
   scanLog other (log st1) = scanLog other (log st)) /\
  (store (redis st2) !! alertKey other = store (redis st) !! alertKey other /\
   scanLog other (log st2) = scanLog other (log st)).
Proof.
  intros Hp Hid st1 st2.
  assert (Hkp : alertKey (alertId p) <> alertKey other)
    by (intros H; apply alertKey_inj in H; congruence).
  assert (Hki : alertKey id <> alertKey other)
    by (intros H; apply alertKey_inj in H; congruence).
  assert (Hnotice : forall level message l,
             scanLog other (l ++ [Parsed {| le_level := level; le_message := message;
                                            le_payload := None |}])
             = scanLog other l).
  { intros level message l. rewrite scanLog_app.
    destruct (scanLog other l); [reflexivity|]. apply scanLog_notice. }
  assert (Hpayload : forall l,
             scanLog other (l ++ [Parsed {| le_level := "info";
                                            le_message := "SOS_PAYLOAD";
                                            le_payload := Some p |}])
             = scanLog other l).
  { intros l. rewrite scanLog_app. destruct (scanLog other l); [reflexivity|].
    simpl. destruct (String.eqb (alertId p) other) eqn:E; [|reflexivity].
    apply String.eqb_eq in E. congruence. }
  split.
  - subst st1. unfold handleSOSFallback.
    destruct (if bool_decide (status (redis st) <> Ready)
                 && bool_decide (status (redis st) <> Connecting)
              then connect (redis st) else (redis st, true)) as [r ok] eqn:Hconn.
    assert (Hr : store r = store (redis st)).
    { destruct (_ && _) in Hconn.
      - unfold connect in Hconn. destruct (reachable (redis st));
          injection Hconn as <- _; reflexivity.
      - injection Hconn as <- _. reflexivity. }
    simpl. destruct ok; simpl.
    + destruct (bool_decide (status r = Ready)).
      * unfold redis_set, redis_expire. simpl.
        destruct (failing r) eqn:Hf; simpl.
        -- rewrite Hr. split; [reflexivity|apply Hnotice].
        -- rewrite Hf. simpl. rewrite Hr. split; [|apply Hnotice].
           rewrite lookup_alter_ne, lookup_insert_ne by exact Hkp. reflexivity.
      * simpl. rewrite Hr. split; [reflexivity|].
        rewrite Hpayload. apply Hnotice.
    + rewrite Hr. split; [reflexivity|]. rewrite Hpayload. apply Hnotice.
  - subst st2. unfold getPendingAlert, cacheLookup.
    destruct (bool_decide (status (redis st) = Ready)); [|split; reflexivity].
    unfold redis_get, redis_del.
    destruct (failing (redis st)) eqn:Hf; simpl; [split; [reflexivity|apply Hnotice]|].
    destruct (store (redis st) !! alertKey id) as [[v t]|]; simpl;
      [|split; reflexivity].
    destruct (visible now (v, t)); simpl; [|split; reflexivity].
    destruct v as [|c s]; simpl; [split; reflexivity|].
    destruct (JSON_parse env (String c s)); simpl.
    + split; [apply lookup_delete_ne; exact Hki|reflexivity].
    + split; [apply lookup_delete_ne; exact Hki|apply Hnotice].
Qed.

(** X18. The last [put] wins: when two alerts with the same id are handed
    over to a cache that takes them, the lookup within the hour of the
    second returns the second payload and empties the entry, so that
    nothing is left of the first. *)
Theorem latest_put_wins now1 now2 now' (p1 p2 : Payload) (st : State) :
  alertId p1 = alertId p2 ->
  Spec.cache_accepts st ->
  Spec.codec_ok env p2 ->
  (now' < now2 + 3600 * 1000)%Z ->
  let st2 := handleSOSFallback env now2 p2 (handleSOSFallback env now1 p1 st) in
  let g := getPendingAlert env now' (alertId p2) st2 in
  fst g = Some p2 /\
  store (redis (snd g)) !! alertKey (alertId p2) = None.
Proof.
  intros Hid Hacc Hcodec Httl st2 g.
  destruct (handleSOSFallback_cached env now1 p1 st Hacc) as ([Hr Hf] & _ & _).
  assert (Hacc1 : Spec.cache_accepts (handleSOSFallback env now1 p1 st))
    by (split; [exact Hf|left; exact Hr]).
  destruct (handleSOSFallback_cached env now2 p2 _ Hacc1) as (Hav & Hstore & _).
  fold st2 in Hav, Hstore.
  destruct (getPendingAlert_hit env now' p2 st2 _ Hav Hcodec Hstore)
    as (H1 & _ & Hgone & _).
  { simpl. apply Z.ltb_lt. exact Httl. }
  split; assumption.
Qed.

End FallbackMore.

(** *** The fallback store on the sample data *)

Section FallbackMoreExamples.
Import Fallback Examples Samples.

Lemma getPendingAlert_log_scan_witness :
  fst (getPendingAlert jsonEnv now0 "sos-42"
         {| redis := redisDown;
            log := [Malformed "{broken"] ++
                   Parsed {| le_level := "info"; le_message := "SOS_PAYLOAD";
                             le_payload := Some alert42 |} :: [] |})
  = Some alert42.
Proof.
  destruct (getPendingAlert_log_scan jsonEnv now0 "sos-42"
              {| redis := redisDown; log := [Malformed "{broken"] |})
    as (_ & Hfound & _).
  - discriminate.
  - apply (Hfound alert42 "info" []); reflexivity.
Defined.

Lemma handleSOSFallback_rejected_loses_alert_witness :
  fst (getPendingAlert jsonEnv (now0 + 1000) "sos-42"
         {| redis := redisUp;
            log := log (handleSOSFallback jsonEnv now0 alert42
                          {| redis := redisRejecting; log := [] |}) |})
  = None.
Proof.
  destruct (handleSOSFallback_rejected_loses_alert jsonEnv now0 (now0 + 1000) alert42
              {| redis := redisRejecting; log := [] |}
              {| redis := redisUp;
                 log := log (handleSOSFallback jsonEnv now0 alert42
                               {| redis := redisRejecting; log := [] |}) |})
    as (_ & _ & Hlost).
  - reflexivity.
  - left. reflexivity.
  - reflexivity.
  - reflexivity.
  - apply Hlost; reflexivity.
Defined.

Lemma getPendingAlert_after_expiry_witness :
  fst (getPendingAlert jsonEnv (now0 + 3600000) "sos-42"
         (handleSOSFallback jsonEnv now0 alert42 stIdle)) = None.
Proof.
  apply (getPendingAlert_after_expiry jsonEnv now0 (now0 + 3600000) alert42 stIdle).
  - split; [reflexivity|]. right. split; [discriminate|reflexivity].
  - reflexivity.
  - vm_compute. discriminate.
Defined.

Lemma other_alert_untouched_witness :
  let st := handleSOSFallback jsonEnv now0 alert42 stIdle in
  store (redis (handleSOSFallback jsonEnv now0 alert43 st)) !! alertKey "sos-42"
  = store (redis st) !! alertKey "sos-42" /\
  store (redis (snd (getPendingAlert jsonEnv now0 "sos-43" st))) !! alertKey "sos-42"
  = store (redis st) !! alertKey "sos-42".
Proof.
  cbv zeta.
  pose proof (other_alert_untouched jsonEnv now0 alert43 "sos-43" "sos-42"
                (handleSOSFallback jsonEnv now0 alert42 stIdle)) as H.
  cbv zeta in H. destruct H as [[H1 _] [H2 _]].
  - discriminate.
  - discriminate.
  - split; assumption.
Defined.

Lemma latest_put_wins_witness :
  fst (getPendingAlert jsonEnv (now0 + 2000) "sos-42"
         (handleSOSFallback jsonEnv (now0 + 1000) alert42b
            (handleSOSFallback jsonEnv now0 alert42 stIdle)))
  = Some alert42b.
Proof.
  apply (latest_put_wins jsonEnv now0 (now0 + 1000) (now0 + 2000) alert42 alert42b stIdle).
  - reflexivity.
  - split; [reflexivity|]. right. split; [discriminate|reflexivity].
  - split; vm_compute; [reflexivity|discriminate].
  - reflexivity.
Defined.

End FallbackMoreExamples.

(** ** The registries of realtimeService.js *)

Section ConnectionsMore.
Import Connections.

Variable calculateSafetyScore : option Q -> option Q -> SafetyScore.ScoreResult.

Lemma registry_get_put (k : string) (set : list string) (m : Registry) :
  registry_get k (registry_put k set m) = Some set.
Proof.
  induction m as [|[k' s'] m IH]; simpl.
  - rewrite String.eqb_refl. reflexivity.
  - destruct (String.eqb k' k) eqn:E; simpl; rewrite E; [reflexivity|exact IH].
Qed.

Lemma registry_get_put_ne (k k' : string) (set : list string) (m : Registry) :
  k' <> k -> registry_get k' (registry_put k set m) = registry_get k' m.
Proof.
  intros Hne. induction m as [|[k0 s0] m IH]; simpl.
  - destruct (String.eqb k k') eqn:E; [|reflexivity].
    apply String.eqb_eq in E. congruence.
  - destruct (String.eqb k0 k) eqn:E; simpl.
    + apply String.eqb_eq in E. subst k0.
      destruct (String.eqb k k') eqn:E'; [|reflexivity].
      apply String.eqb_eq in E'. congruence.
    + rewrite IH. reflexivity.
Qed.

Lemma registry_get_None (k : string) (m : Registry) :
  ~ In k (map fst m) -> registry_get k m = None.
Proof.
  induction m as [|[k' s'] m IH]; simpl; [reflexivity|]. intros Hk.
  destruct (String.eqb k' k) eqn:E.
  - apply String.eqb_eq in E. tauto.
  - apply IH. tauto.
Qed.

Lemma registry_get_In (k : string) (set : list string) (m : Registry) :
  registry_get k m = Some set -> In (k, set) m.
Proof.
  induction m as [|[k' s'] m IH]; simpl; [discriminate|].
  destruct (String.eqb k' k) eqn:E.
  - apply String.eqb_eq in E. intros [= ->]. left. congruence.
  - intros H. right. exact (IH H).
Qed.

Lemma In_registry_get (k : string) (set : list string) (m : Registry) :
  List.NoDup (map fst m) -> In (k, set) m -> registry_get k m = Some set.
Proof.
  induction m as [|[k' s'] m IH]; simpl; [tauto|].
  intros Hnd [[= -> ->] | Hin].
  - rewrite String.eqb_refl. reflexivity.
  - inversion Hnd as [|? ? Hk Hm]; subst.
    destruct (String.eqb k' k) eqn:E; [|exact (IH Hm Hin)].
    apply String.eqb_eq in E. subst k'. exfalso. apply Hk.
    apply in_map_iff. exists (k, set). split; [reflexivity|exact Hin].
Qed.

Lemma registry_put_keys (k k' : string) (set : list string) (m : Registry) :
  In k' (map fst (registry_put k set m)) <-> k' = k \/ In k' (map fst m).
Proof.
  induction m as [|[k0 s0] m IH]; simpl.
  - split; [intros [<- | []]; tauto|intros [-> | []]; tauto].
  - destruct (String.eqb k0 k) eqn:E; simpl.
    + apply String.eqb_eq in E. subst k0. split; [tauto|intros [-> | H]; tauto].
    + rewrite IH. tauto.
Qed.

Lemma registry_put_NoDup (k : string) (set : list string) (m : Registry) :
  List.NoDup (map fst m) -> List.NoDup (map fst (registry_put k set m)).
Proof.
  induction m as [|[k0 s0] m IH]; simpl; intros Hnd.
  - constructor; [intros []|constructor].
  - inversion Hnd as [|? ? Hk Hm]; subst.
    destruct (String.eqb k0 k) eqn:E; simpl; [exact Hnd|].
    constructor; [|exact (IH Hm)].
    rewrite registry_put_keys. intros [-> | H]; [|tauto].
    rewrite String.eqb_refl in E. discriminate.
Qed.

Lemma registry_put_Forall (P : string * list string -> Prop) (k : string)
    (set : list string) (m : Registry) :
  (forall k', P (k', set)) -> Forall P m -> Forall P (registry_put k set m).
Proof.
  intros Hset. induction m as [|[k0 s0] m IH]; simpl; intros Hm.
  - constructor; [apply Hset|constructor].
  - inversion Hm; subst. destruct (String.eqb k0 k); constructor; auto.
Qed.

Lemma registry_delete_keys (k k' : string) (m : Registry) :
  In k' (map fst (registry_delete k m)) -> In k' (map fst m).
Proof.
  induction m as [|[k0 s0] m IH]; simpl; [tauto|].
  destruct (String.eqb k0 k); simpl; tauto.
Qed.

Lemma registry_delete_NoDup (k : string) (m : Registry) :
  List.NoDup (map fst m) -> List.NoDup (map fst (registry_delete k m)).
Proof.
  induction m as [|[k0 s0] m IH]; simpl; intros Hnd; [exact Hnd|].
  inversion Hnd as [|? ? Hk Hm]; subst.
  destruct (String.eqb k0 k); simpl; [exact Hm|].
  constructor; [|exact (IH Hm)]. intros H. apply Hk.
  exact (registry_delete_keys _ _ _ H).
Qed.

Lemma registry_delete_Forall (P : string * list string -> Prop) (k : string)
    (m : Registry) :
  Forall P m -> Forall P (registry_delete k m).
Proof.
  induction m as [|[k0 s0] m IH]; simpl; intros Hm; [exact Hm|].
  inversion Hm; subst. destruct (String.eqb k0 k); [assumption|].
  constructor; auto.
Qed.

Lemma registry_get_delete (k : string) (m : Registry) :
  List.NoDup (map fst m) -> registry_get k (registry_delete k m) = None.
Proof.
  induction m as [|[k0 s0] m IH]; simpl; intros Hnd; [reflexivity|].
  inversion Hnd as [|? ? Hk Hm]; subst.
  destruct (String.eqb k0 k) eqn:E; simpl.
  - apply String.eqb_eq in E. subst k0. apply registry_get_None. exact Hk.
  - rewrite E. exact (IH Hm).
Qed.

Lemma registry_get_delete_ne (k k' : string) (m : Registry) :
  k' <> k -> registry_get k' (registry_delete k m) = registry_get k' m.
Proof.
  intros Hne. induction m as [|[k0 s0] m IH]; simpl; [reflexivity|].
  destruct (String.eqb k0 k) eqn:E; simpl.
  - apply String.eqb_eq in E. subst k0.
    destruct (String.eqb k k') eqn:E'; [|reflexivity].
    apply String.eqb_eq in E'. congruence.
  - rewrite IH. reflexivity.
Qed.

Lemma set_delete_In (sid s : string) (set : list string) :
  In s (set_delete sid set) -> In s set.
Proof.
  induction set as [|x set IH]; simpl; [tauto|].
  destruct (String.eqb x sid); simpl; tauto.
Qed.

Lemma set_delete_NoDup (sid : string) (set : list string) :
  List.NoDup set -> List.NoDup (set_delete sid set).
Proof.
  induction set as [|x set IH]; simpl; intros Hnd; [exact Hnd|].
  inversion Hnd as [|? ? Hx Hs]; subst.
  destruct (String.eqb x sid); [exact Hs|].
  constructor; [|exact (IH Hs)]. intros H. apply Hx. exact (set_delete_In _ _ _ H).
Qed.

Lemma set_delete_gone (sid : string) (set : list string) :
  List.NoDup set -> ~ In sid (set_delete sid set).
Proof.
  induction set as [|x set IH]; simpl; intros Hnd; [tauto|].
  inversion Hnd as [|? ? Hx Hs]; subst.
  destruct (String.eqb x sid) eqn:E.
  - apply String.eqb_eq in E. subst x. exact Hx.
  - simpl. intros [-> | H]; [|exact (IH Hs H)].
    rewrite String.eqb_refl in E. discriminate.
Qed.

Lemma set_add_nonempty (x : string) (l : list string) : set_add x l <> [].
Proof.
  unfold set_add. case_bool_decide as Hx.
  - intros ->. inversion Hx.
  - destruct l; discriminate.
Qed.

Lemma set_add_member (x : string) (l : list string) : In x (set_add x l).
Proof. apply set_add_In. left. reflexivity. Qed.

Lemma set_add_idem (x : string) (l : list string) : In x l -> set_add x l = l.
Proof.
  intros H. unfold set_add. case_bool_decide as Hx; [reflexivity|].
  exfalso. apply Hx. apply list_elem_of_In. exact H.
Qed.

Lemma enter_well_kept (k sid : string) (m : Registry) :
  well_kept m -> well_kept (enter k sid m).
Proof.
  intros [Hk Hs]. unfold enter. split.
  - apply registry_put_NoDup. exact Hk.
  - apply registry_put_Forall; [|exact Hs]. intros k0. simpl. split.
    + apply set_add_nonempty.
    + apply set_add_NoDup. destruct (registry_get k m) as [set|] eqn:Hg; simpl.
      * apply registry_get_In in Hg. rewrite List.Forall_forall in Hs.
        exact (proj2 (Hs _ Hg)).
      * constructor.
Qed.

Lemma leave_well_kept (k sid : string) (m : Registry) :
  well_kept m -> well_kept (fst (leave k sid m)).
Proof.
  intros [Hk Hs]. unfold leave.
  destruct (registry_get k m) as [set|] eqn:Hg; [|split; assumption].
  destruct (length (set_delete sid set) =? 0)%nat eqn:Hlen; simpl.
  - split; [apply registry_delete_NoDup|apply registry_delete_Forall]; assumption.
  - split; [apply registry_put_NoDup; exact Hk|].
    apply registry_put_Forall; [|exact Hs]. intros k0. simpl. split.
    + intros Hnil. rewrite Hnil in Hlen. discriminate.
    + apply set_delete_NoDup. apply registry_get_In in Hg.
      rewrite List.Forall_forall in Hs. exact (proj2 (Hs _ Hg)).
Qed.

(** X19. The handlers keep the two registries in order: after a
    registration, a change of location or a disconnection, no user is
    listed twice, no set is empty and no set holds a socket twice. *)
Theorem handlers_keep_registries (srv : Server) :
  well_kept (authoritySockets srv) ->
  well_kept (touristSockets srv) ->
  forall (sid : string) (data : option Registration) (loc : option Realtime.Location)
         (srv' : Server),
    srv' = registerAuthority sid data srv \/
    srv' = fst (registerTourist calculateSafetyScore sid data srv) \/
    srv' = fst (updateTouristLocation calculateSafetyScore sid loc srv) \/
    srv' = disconnect sid srv \/
    srv' = connection sid srv ->
    well_kept (authoritySockets srv') /\ well_kept (touristSockets srv').
Proof.
  intros Ha Ht sid data loc srv' [-> | [-> | [-> | [-> | ->]]]].
  - unfold registerAuthority. destruct data as [d|]; [|split; assumption].
    destruct (_ && _); simpl; [|split; assumption].
    split; [apply enter_well_kept|]; assumption.
  - unfold registerTourist. destruct data as [d|]; [|split; assumption].
    destruct (_ && _); simpl; [|split; assumption].
    destruct (usable (reg_location d)) as [[la ln]|]; simpl;
      (split; [|apply enter_well_kept]; assumption).
  - unfold updateTouristLocation. destruct loc as [l|]; [|split; assumption].
    destruct (is_str _ _); simpl; split; assumption.
  - unfold disconnect. destruct (_ && _); simpl.
    + split; [apply leave_well_kept|]; assumption.
    + destruct (_ && _); simpl; [|split; assumption].
      pose proof (leave_well_kept
                    (default EmptyString (touristId (socketData sid srv))) sid _ Ht) as H.
      destruct (leave _ sid (touristSockets srv)) as [m deleted]. simpl in *.
      split; assumption.
  - simpl. split; assumption.
Qed.

End ConnectionsMore.

Section ConnectionsScenarios.
Import Connections.

Variable calculateSafetyScore : option Q -> option Q -> SafetyScore.ScoreResult.

Lemma truthy_nonempty (s : string) : s <> EmptyString -> Realtime.truthy_str (Some s) = true.
Proof. destruct s; [congruence|reflexivity]. Qed.

Lemma set_delete_keeps (sid s : string) (set : list string) :
  In s set -> s <> sid -> In s (set_delete sid set).
Proof.
  intros Hin Hne. induction set as [|x set IH]; simpl in *; [tauto|].
  destruct (String.eqb x sid) eqn:E.
  - apply String.eqb_eq in E. destruct Hin as [-> | H]; [congruence|exact H].
  - simpl. destruct Hin as [-> | H]; [left; reflexivity|right; exact (IH H)].
Qed.

Lemma socketData_insert (sid : string) (sd : SocketData) (srv srv' : Server) :
  sockets srv' = <[sid := sd]> (sockets srv) -> socketData sid srv' = sd.
Proof. intros H. unfold socketData. rewrite H, lookup_insert_eq. reflexivity. Qed.

(** What [disconnect] does for a socket registered last as a tourist. *)
Lemma disconnect_tourist (sid tid : string) (srv : Server) :
  userType (socketData sid srv) = Some "tourist" ->
  touristId (socketData sid srv) = Some tid ->
  tid <> EmptyString ->
  touristSockets (disconnect sid srv) = fst (leave tid sid (touristSockets srv)) /\
  touristLastScores (disconnect sid srv)
  = (if snd (leave tid sid (touristSockets srv))
     then delete (Some tid) (touristLastScores srv)
     else touristLastScores srv) /\
  authoritySockets (disconnect sid srv) = authoritySockets srv /\
  sockets (disconnect sid srv) = <[sid := closed (socketData sid srv)]> (sockets srv) /\
  io (disconnect sid srv) = io srv.
Proof.
  intros Hty Hid Htid. unfold disconnect. rewrite Hty, Hid.
  rewrite (truthy_nonempty tid Htid). simpl.
  destruct (leave tid sid (touristSockets srv)) as [m deleted]. simpl.
  repeat split; reflexivity.
Qed.

(** X20. A disconnection clears the tourist's registry entry: the socket
    leaves the set of its tourist; when it was the last one, the tourist is
    dropped from the registry together with the cached score; otherwise the
    other sockets and the score stay. No other tourist and no authority is
    touched. *)
Theorem disconnect_cleans_up (sid tid : string) (srv : Server) :
  well_kept (touristSockets srv) ->
  userType (socketData sid srv) = Some "tourist" ->
  touristId (socketData sid srv) = Some tid ->
  tid <> EmptyString ->
  let srv' := disconnect sid srv in
  (forall set, registry_get tid (touristSockets srv') = Some set -> ~ In sid set) /\
  (registry_get tid (touristSockets srv) = Some [sid] ->
   registry_get tid (touristSockets srv') = None /\
   touristLastScores srv' !! Some tid = None) /\
  (forall set s, registry_get tid (touristSockets srv) = Some set ->
   In s set -> s <> sid ->
   registry_get tid (touristSockets srv') = Some (set_delete sid set) /\
   In s (set_delete sid set) /\
   touristLastScores srv' !! Some tid = touristLastScores srv !! Some tid) /\
  (forall other, other <> tid ->
   registry_get other (touristSockets srv') = registry_get other (touristSockets srv) /\
   touristLastScores srv' !! Some other = touristLastScores srv !! Some other) /\
  authoritySockets srv' = authoritySockets srv.
Proof.
  intros [Hk Hs] Hty Hid Htid srv'.
  destruct (disconnect_tourist sid tid srv Hty Hid Htid) as (Hreg & Hsc & Hau & _).
  fold srv' in Hreg, Hsc, Hau. rewrite Hreg, Hsc. clear Hreg Hsc.
  unfold leave.
  destruct (registry_get tid (touristSockets srv)) as [set0|] eqn:Hg.
  - assert (Hnd : List.NoDup set0).
    { apply registry_get_In in Hg. rewrite List.Forall_forall in Hs.
      exact (proj2 (Hs _ Hg)). }
    destruct (length (set_delete sid set0) =? 0)%nat eqn:Hlen; simpl.
    + apply Nat.eqb_eq in Hlen. apply length_zero_iff_nil in Hlen.
      repeat split.
      * intros set. rewrite registry_get_delete by exact Hk. discriminate.
      * apply registry_get_delete. exact Hk.
      * apply lookup_delete_eq.
      * exfalso. injection H as <-.
        pose proof (set_delete_keeps sid s set0 H0 H1) as Hin.
        rewrite Hlen in Hin. exact Hin.
      * exfalso. injection H as <-.
        pose proof (set_delete_keeps sid s set0 H0 H1) as Hin.
        rewrite Hlen in Hin. exact Hin.
      * exfalso. injection H as <-.
        pose proof (set_delete_keeps sid s set0 H0 H1) as Hin.
        rewrite Hlen in Hin. exact Hin.
      * apply registry_get_delete_ne. exact H.
      * apply lookup_delete_ne. congruence.
      * exact Hau.
    + repeat split.
      * intros set. rewrite registry_get_put. intros [= <-].
        apply set_delete_gone. exact Hnd.
      * exfalso. injection H as ->. simpl in Hlen.
        rewrite String.eqb_refl in Hlen. discriminate.
      * exfalso. injection H as ->. simpl in Hlen.
        rewrite String.eqb_refl in Hlen. discriminate.
      * injection H as <-. apply registry_get_put.
      * injection H as <-. apply set_delete_keeps; assumption.
      * apply registry_get_put_ne. exact H.
      * exact Hau.
  - simpl. repeat split; try discriminate; try reflexivity; try exact Hau.
    intros set. rewrite Hg. discriminate.
Qed.

Lemma fold_total_ge (m : Registry) (n : nat) :
  (n <= fold_left (fun n e => (n + length (snd e))%nat) m n)%nat.
Proof.
  revert n. induction m as [|e m IH]; intros n; simpl; [lia|].
  specialize (IH (n + length (snd e))%nat). lia.
Qed.

Lemma fold_total_gt (k : string) (set : list string) (m : Registry) (n : nat) :
  In (k, set) m -> set <> [] ->
  (n < fold_left (fun n e => (n + length (snd e))%nat) m n)%nat.
Proof.
  revert n. induction m as [|e m IH]; intros n Hin Hne; simpl; [destruct Hin|].
  destruct Hin as [-> | Hin].
  - simpl. pose proof (fold_total_ge m (n + length set)%nat).
    destruct set; [congruence|]. simpl in *. lia.
  - specialize (IH (n + length (snd e))%nat Hin Hne). lia.
Qed.

Lemma totalSockets_pos (k : string) (set : list string) (m : Registry) :
  In (k, set) m -> set <> [] -> totalSockets m <> 0%nat.
Proof.
  intros Hin Hne. unfold totalSockets.
  pose proof (fold_total_gt k set m 0%nat Hin Hne). lia.
Qed.

Lemma roomMembers_nil (room : string) (srv : Server) :
  roomMembers room srv = [] <->
  (forall s sd, sockets srv !! s = Some sd -> connected sd = true ->
                ~ In room (rooms sd)).
Proof.
  unfold roomMembers. split.
  - intros Hnil s sd Hs Hc Hin.
    assert (Hmem : s ∈ map fst
              (filter (fun e => connected (snd e) && bool_decide (room ∈ rooms (snd e)))
                 (map_to_list (sockets srv)))).
    { apply (list_elem_of_fmap_2 fst _ (s, sd)).
      apply list_elem_of_filter. split.
      - simpl. rewrite Hc. simpl. apply bool_decide_pack.
        apply list_elem_of_In. exact Hin.
      - apply elem_of_map_to_list. exact Hs. }
    rewrite Hnil in Hmem. inversion Hmem.
  - intros H.
    destruct (filter _ (map_to_list (sockets srv))) as [|[s sd] l] eqn:Hf;
      [reflexivity|].
    assert (Hmem : (s, sd) ∈ filter
              (fun e => connected (snd e) && bool_decide (room ∈ rooms (snd e)))
              (map_to_list (sockets srv))) by (rewrite Hf; left).
    apply list_elem_of_filter in Hmem. destruct Hmem as [Hp Hm]. simpl in Hp.
    apply elem_of_map_to_list in Hm.
    apply andb_True in Hp. destruct Hp as [Hc Hr].
    apply Is_true_true in Hc. apply bool_decide_unpack in Hr.
    exfalso. apply (H s sd Hm Hc). apply list_elem_of_In. exact Hr.
Qed.

(** X21. A socket that registered as an authority and then as a tourist is
    cleaned up as a tourist only: after its disconnection it is still
    counted in [authoritySockets]. From then on [emitSOSAlert] sends every
    alert to the room of the authorities and hands nothing to the fallback
    service, also when no connection is left in that room. *)
Theorem role_switch_leaves_dead_authority (env : Fallback.Env) (now : Z)
    (sid uid tid : string) (loc : option Realtime.Location)
    (alert : Fallback.Payload) (srv : Server) (fb : Fallback.State) :
  uid <> EmptyString ->
  tid <> EmptyString ->
  io srv = true ->
  let asAuthority :=
    {| role := Some "authority"; reg_userId := Some uid;
       reg_touristId := None; reg_location := None |} in
  let asTourist :=
    {| role := Some "tourist"; reg_userId := None;
       reg_touristId := Some tid; reg_location := loc |} in
  let srv' :=
    disconnect sid
      (fst (registerTourist calculateSafetyScore sid (Some asTourist)
              (registerAuthority sid (Some asAuthority) srv))) in
  (exists set, registry_get uid (authoritySockets srv') = Some set /\ In sid set) /\
  connected (socketData sid srv') = false /\
  emitSOSAlert env now false alert srv' fb
  = ([ToRoom "authorities" (NewSOSAlert alert)], fb) /\
  (roomMembers "authorities" srv = [] -> roomMembers "authorities" srv' = []).
Proof.
  intros Huid Htid Hio asAuthority asTourist srv'.
  set (srv1 := registerAuthority sid (Some asAuthority) srv).
  set (srv2 := fst (registerTourist calculateSafetyScore sid (Some asTourist) srv1)).
  assert (H1 : authoritySockets srv1 = enter uid sid (authoritySockets srv) /\
               io srv1 = true /\
               exists sd, sockets srv1 = <[sid := sd]> (sockets srv)).
  { unfold srv1, registerAuthority, asAuthority. simpl.
    destruct uid as [|c u]; [congruence|]. simpl. repeat split; [exact Hio|].
    eexists. reflexivity. }
  destruct H1 as (Ha1 & Hio1 & sd1 & Hs1).
  assert (H2 : authoritySockets srv2 = authoritySockets srv1 /\
               io srv2 = true /\
               userType (socketData sid srv2) = Some "tourist" /\
               touristId (socketData sid srv2) = Some tid /\
               exists sd, sockets srv2 = <[sid := sd]> (sockets srv1)).
  { unfold srv2, registerTourist, asTourist. simpl.
    destruct tid as [|c t]; [congruence|]. simpl.
    destruct (usable loc) as [[la ln]|]; simpl;
      (split; [reflexivity|]; split; [exact Hio1|];
       split; [erewrite socketData_insert by reflexivity; reflexivity|];
       split; [erewrite socketData_insert by reflexivity; reflexivity|];
       eexists; reflexivity). }
  destruct H2 as (Ha2 & Hio2 & Hty & Hid & sd2 & Hs2).
  destruct (disconnect_tourist sid tid srv2 Hty Hid Htid)
    as (_ & _ & Hau & Hso & Hio3).
  change (disconnect sid srv2) with srv' in Hau, Hso, Hio3.
  assert (Hget : registry_get uid (authoritySockets srv')
                 = Some (set_add sid (default [] (registry_get uid (authoritySockets srv))))).
  { rewrite Hau, Ha2, Ha1. apply registry_get_put. }
  split; [|split; [|split]].
  - eexists. split; [exact Hget|]. apply set_add_member.
  - rewrite (socketData_insert sid _ srv2 srv' Hso). reflexivity.
  - unfold emitSOSAlert. rewrite Hio3, Hio2. simpl.
    destruct (totalSockets (authoritySockets srv') =? 0)%nat eqn:Hz; [|reflexivity].
    apply Nat.eqb_eq in Hz. exfalso.
    apply (totalSockets_pos uid _ _ (registry_get_In _ _ _ Hget)); [|exact Hz].
    apply set_add_nonempty.
  - rewrite !roomMembers_nil. intros H s sd Hs Hc.
    rewrite Hso, Hs2, Hs1 in Hs.
    destruct (decide (s = sid)) as [->|Hne].
    + rewrite lookup_insert_eq in Hs. injection Hs as <-. discriminate.
    + rewrite !lookup_insert_ne in Hs by congruence. exact (H s sd Hs Hc).
Qed.

(** X22. An alert is kept for later when it cannot be sent: when the
    socket server is not set up, no authority is registered or the
    broadcast throws, [emitSOSAlert] sends nothing, and with a cache that
    takes the alert [getPendingAlert] returns it within the hour. *)
Theorem emitSOSAlert_fallback_retrievable (env : Fallback.Env) (now now' : Z)
    (emitThrows : bool) (alert : Fallback.Payload) (srv : Server)
    (fb : Fallback.State) :
  io srv = false \/ authoritySockets srv = [] \/ emitThrows = true ->
  Spec.cache_accepts fb ->
  Spec.codec_ok env alert ->
  (now' < now + 3600 * 1000)%Z ->
  let out := emitSOSAlert env now emitThrows alert srv fb in
  fst out = [] /\
  fst (Fallback.getPendingAlert env now' (Fallback.alertId alert) (snd out)) = Some alert.
Proof.
  intros Hdown Hacc Hcodec Httl out.
  assert (Hout : out = ([], Fallback.handleSOSFallback env now alert fb)).
  { unfold out, emitSOSAlert. destruct (io srv); simpl; [|reflexivity].
    destruct (totalSockets (authoritySockets srv) =? 0)%nat eqn:Hz; [reflexivity|].
    destruct emitThrows; [reflexivity|].
    destruct Hdown as [H | [H | H]]; try discriminate.
    rewrite H in Hz. discriminate. }
  rewrite Hout. simpl. split; [reflexivity|].
  destruct (handleSOSFallback_cached env now alert fb Hacc) as (Hav & Hstore & _).
  destruct (getPendingAlert_hit env now' alert _ _ Hav Hcodec Hstore) as (H1 & _).
  - simpl. apply Z.ltb_lt. exact Httl.
  - exact H1.
Qed.

(** X23. A cached score of 0 is read as 80: when the last score of a
    tourist is 0 and the new one lies between 51 and 65, the change of
    location answers with the new score and with a warning that the score
    fell from 80. *)
Theorem zero_score_read_as_80 (sid : string) (l : Realtime.Location) (srv : Server) :
  userType (socketData sid srv) = Some "tourist" ->
  touristLastScores srv !! touristId (socketData sid srv) = Some 0%Z ->
  let data := calculateSafetyScore (Realtime.loc_lat l) (Realtime.loc_lng l) in
  (50 < SafetyScore.safetyScore data <= 65)%Z ->
  snd (updateTouristLocation calculateSafetyScore sid (Some l) srv)
  = [ToSocket sid (SafetyScoreUpdate data);
     ToSocket sid (SafetyScoreAlert "warning" 80 (SafetyScore.safetyScore data) data)].
Proof.
  intros Hty Hzero data Hrange.
  unfold updateTouristLocation. rewrite Hty. simpl.
  unfold previousScoreOf. rewrite Hzero. fold data.
  unfold scoreAlerts, SafetyScore.shouldNotifyScoreChange.
  destruct (30 <=? 80 - SafetyScore.safetyScore data)%Z eqn:E1; [lia|].
  destruct (15 <=? 80 - SafetyScore.safetyScore data)%Z eqn:E2; [|lia].
  reflexivity.
Qed.

Lemma rescore_sent_grows (srv : Server) (m : Registry)
    (acc : gmap (option string) Z * list Emission) (e : Emission) :
  In e (snd acc) ->
  In e (snd (fold_left (rescore calculateSafetyScore srv) m acc)).
Proof.
  revert acc. induction m as [|[k set] m IH]; intros acc Hin; simpl; [exact Hin|].
  apply IH. destruct (canonicalLocation srv set) as [[la ln]|]; [|exact Hin].
  simpl. apply in_app_iff. left. exact Hin.
Qed.

Lemma rescore_scores_skip (srv : Server) (tid : string) (m : Registry)
    (acc : gmap (option string) Z * list Emission) :
  (forall set, In (tid, set) m -> canonicalLocation srv set = None) ->
  fst (fold_left (rescore calculateSafetyScore srv) m acc) !! Some tid
  = fst acc !! Some tid.
Proof.
  revert acc. induction m as [|[k set] m IH]; intros acc Hskip; simpl; [reflexivity|].
  rewrite IH by (intros set' H; apply Hskip; right; exact H).
  destruct (canonicalLocation srv set) as [[la ln]|] eqn:Hc; [|reflexivity].
  simpl. apply lookup_insert_ne. intros [= ->].
  rewrite (Hskip set) in Hc by (left; reflexivity). discriminate.
Qed.

Lemma rescore_sent_from (srv : Server) (m : Registry)
    (acc : gmap (option string) Z * list Emission) (s : string) (msg : Message) :
  In (ToSocket s msg) (snd (fold_left (rescore calculateSafetyScore srv) m acc)) ->
  In (ToSocket s msg) (snd acc) \/
  exists tid set, In (tid, set) m /\ In s set /\ canonicalLocation srv set <> None.
Proof.
  revert acc. induction m as [|[k set] m IH]; intros acc Hin; simpl in Hin;
    [left; exact Hin|].
  destruct (IH _ Hin) as [Hacc | (tid & set' & Hm & Hs & Hc)].
  - destruct (canonicalLocation srv set) as [[la ln]|] eqn:Hc; [|left; exact Hacc].
    simpl in Hacc. rewrite !in_app_iff in Hacc.
    destruct Hacc as [H | [H | H]]; [left; exact H| |].
    + right. exists k, set. split; [left; reflexivity|]. split; [|congruence].
      apply in_map_iff in H. destruct H as (x & [= <- _] & Hx). exact Hx.
    + right. exists k, set. split; [left; reflexivity|]. split; [|congruence].
      unfold scoreAlerts in H.
      destruct (SafetyScore.shouldNotifyScoreChange _ _); [|destruct H].
      apply in_map_iff in H. destruct H as (x & [= <- _] & Hx). exact Hx.
  - right. exists tid, set'. split; [right; exact Hm|]. split; assumption.
Qed.

Lemma rescore_reaches (srv : Server) (tid : string) (set : list string)
    (la ln : Q) (m : Registry) (acc : gmap (option string) Z * list Emission) :
  In (tid, set) m ->
  canonicalLocation srv set = Some (la, ln) ->
  let data := calculateSafetyScore (Some la) (Some ln) in
  let out := fold_left (rescore calculateSafetyScore srv) m acc in
  (forall s, In s set -> In (ToSocket s (SafetyScoreUpdate data)) (snd out)) /\
  (List.NoDup (map fst m) ->
   fst out !! Some tid = Some (SafetyScore.safetyScore data)).
Proof.
  intros Hin Hc data. revert acc.
  induction m as [|[k set'] m IH]; intros acc; [destruct Hin|].
  cbn [fold_left]. destruct Hin as [[= -> ->] | Hin].
  - clear IH. split.
    + intros s Hs. apply rescore_sent_grows. unfold rescore. rewrite Hc. simpl.
      apply in_app_iff. right. apply in_app_iff. left.
      apply in_map_iff. exists s. split; [reflexivity|exact Hs].
    + intros Hnd. inversion Hnd as [|? ? Hk Hm]; subst.
      rewrite rescore_scores_skip.
      * unfold rescore. rewrite Hc. simpl. apply lookup_insert_eq.
      * intros set0 H0. exfalso. apply Hk. apply in_map_iff.
        exists (tid, set0). split; [reflexivity|exact H0].
  - destruct (IH Hin (rescore calculateSafetyScore srv acc (k, set'))) as [IH1 IH2].
    split; [exact IH1|].
    intros Hnd. inversion Hnd; subst. apply IH2. assumption.
Qed.

(** X24. The periodic update takes the location of the first socket of a
    tourist for all of them: when that location is usable, every socket of
    the tourist is sent the score computed there, and with a registry in
    order that score is the one cached for the tourist. *)
Theorem periodic_reaches_every_device (srv : Server) (tid : string)
    (set : list string) (la ln : Q) :
  io srv = true ->
  In (tid, set) (touristSockets srv) ->
  canonicalLocation srv set = Some (la, ln) ->
  let data := calculateSafetyScore (Some la) (Some ln) in
  let out := runPeriodicSafetyScoreUpdate calculateSafetyScore srv in
  (forall s, In s set -> In (ToSocket s (SafetyScoreUpdate data)) (snd out)) /\
  (List.NoDup (map fst (touristSockets srv)) ->
   touristLastScores (fst out) !! Some tid = Some (SafetyScore.safetyScore data)).
Proof.
  intros Hio Hin Hc data out.
  pose proof (rescore_reaches srv tid set la ln (touristSockets srv)
                (touristLastScores srv, []) Hin Hc) as H.
  cbv zeta in H. fold data in H.
  unfold out, runPeriodicSafetyScoreUpdate. rewrite Hio.
  destruct (fold_left _ (touristSockets srv) _) as [scores sent].
  exact H.
Qed.

(** X25. The periodic update leaves out a tourist whose first socket has no
    usable location: the cached score of the tourist stays, and whatever is
    sent on a socket comes from a set whose first socket has a usable
    location. *)
Theorem periodic_skips_unlocated (srv : Server) (tid : string) :
  (forall set, In (tid, set) (touristSockets srv) -> canonicalLocation srv set = None) ->
  let out := runPeriodicSafetyScoreUpdate calculateSafetyScore srv in
  touristLastScores (fst out) !! Some tid = touristLastScores srv !! Some tid /\
  (forall s msg, In (ToSocket s msg) (snd out) ->
   exists tid' set, In (tid', set) (touristSockets srv) /\ In s set /\
                    canonicalLocation srv set <> None).
Proof.
  intros Hskip out. unfold out, runPeriodicSafetyScoreUpdate.
  destruct (io srv); [|split; [reflexivity|intros s msg []]].
  pose proof (rescore_scores_skip srv tid (touristSockets srv)
                (touristLastScores srv, []) Hskip) as Hsc.
  pose proof (fun s msg => rescore_sent_from srv (touristSockets srv)
                (touristLastScores srv, []) s msg) as Hfrom.
  destruct (fold_left _ (touristSockets srv) _) as [scores sent]. simpl in *.
  split; [exact Hsc|]. intros s msg H.
  destruct (Hfrom s msg H) as [[] | Hex]. exact Hex.
Qed.

Lemma registry_put_put (k : string) (s s' : list string) (m : Registry) :
  registry_put k s (registry_put k s' m) = registry_put k s m.
Proof.
  induction m as [|[k0 s0] m IH]; simpl.
  - rewrite String.eqb_refl. reflexivity.
  - destruct (String.eqb k0 k) eqn:E; simpl; rewrite E; [reflexivity|].
    rewrite IH. reflexivity.
Qed.

Lemma enter_idem (k sid : string) (m : Registry) :
  enter k sid (enter k sid m) = enter k sid m.
Proof.
  unfold enter. rewrite registry_get_put. simpl.
  rewrite (set_add_idem sid (set_add sid _)) by apply set_add_member.
  apply registry_put_put.
Qed.

Lemma rooms_idem (a b : string) (r : list string) :
  set_add a (set_add b (set_add a (set_add b r))) = set_add a (set_add b r).
Proof.
  rewrite (set_add_idem b (set_add a (set_add b r))).
  - apply set_add_idem. apply set_add_member.
  - apply set_add_In. right. apply set_add_member.
Qed.

(** X26. Registering again changes nothing: a second [registerTourist] (or
    [registerAuthority]) of the same socket with the same data leaves the
    state of the first, and answers as the first did. *)
Theorem registration_idempotent (sid : string) (data : option Registration)
    (srv : Server) :
  registerTourist calculateSafetyScore sid data
    (fst (registerTourist calculateSafetyScore sid data srv))
  = registerTourist calculateSafetyScore sid data srv /\
  registerAuthority sid data (registerAuthority sid data srv)
  = registerAuthority sid data srv.
Proof.
  split.
  - unfold registerTourist. destruct data as [d|]; [|reflexivity].
    destruct (is_str "tourist" (role d) && Realtime.truthy_str (reg_touristId d))
      eqn:Hc; simpl; [|reflexivity].
    destruct (usable (reg_location d)) as [[la ln]|] eqn:Hu; simpl;
      unfold socketData; simpl; rewrite lookup_insert_eq; simpl;
      rewrite rooms_idem, insert_insert_eq, enter_idem, ?insert_insert_eq;
      reflexivity.
  - unfold registerAuthority. destruct data as [d|]; [|reflexivity].
    destruct (is_str "authority" (role d) && Realtime.truthy_str (reg_userId d))
      eqn:Hc; simpl; [|reflexivity].
    unfold socketData. simpl. rewrite lookup_insert_eq. simpl.
    rewrite rooms_idem, insert_insert_eq, enter_idem. reflexivity.
Qed.

End ConnectionsScenarios.

(** *** The registries on the sample data *)

Section ConnectionsExamples.
Import Connections Examples Samples.

Lemma handlers_keep_registries_witness :
  well_kept (touristSockets
               (fst (registerTourist scorer "s2" (Some (asTourist "T1" None)) srvOne))).
Proof.
  refine (proj2 (handlers_keep_registries scorer srvOne _ _
                   "s2" (Some (asTourist "T1" None)) None _
                   (or_intror (or_introl eq_refl)))).
  - split; vm_compute; constructor.
  - split; vm_compute; repeat constructor; try discriminate; intros [].
Defined.

Lemma disconnect_cleans_up_witness :
  registry_get "T1" (touristSockets (disconnect "s1" srvOne)) = None /\
  touristLastScores (disconnect "s1" srvOne) !! Some "T1" = None.
Proof.
  pose proof (disconnect_cleans_up "s1" "T1" srvOne) as H. cbv zeta in H.
  destruct H as (_ & Hlast & _).
  - split; vm_compute; repeat constructor; try discriminate; intros [].
  - reflexivity.
  - reflexivity.
  - discriminate.
  - apply Hlast. reflexivity.
Defined.

Lemma role_switch_leaves_dead_authority_witness :
  emitSOSAlert jsonEnv now0 false alert42
    (disconnect "s9"
       (fst (registerTourist scorer "s9" (Some (asTourist "T9" None))
               (registerAuthority "s9"
                  (Some {| role := Some "authority"; reg_userId := Some "A1";
                           reg_touristId := None; reg_location := None |})
                  srvEmpty))))
    stIdle
  = ([ToRoom "authorities" (NewSOSAlert alert42)], stIdle).
Proof.
  pose proof (role_switch_leaves_dead_authority scorer jsonEnv now0 "s9" "A1" "T9"
                None alert42 srvEmpty stIdle) as H.
  cbv zeta in H. destruct H as (_ & _ & Hsent & _).
  - discriminate.
  - discriminate.
  - reflexivity.
  - exact Hsent.
Defined.

Lemma emitSOSAlert_fallback_retrievable_witness :
  fst (Fallback.getPendingAlert jsonEnv (now0 + 1000) "sos-42"
         (snd (emitSOSAlert jsonEnv now0 false alert42 srvEmpty stIdle)))
  = Some alert42.
Proof.
  pose proof (emitSOSAlert_fallback_retrievable jsonEnv now0 (now0 + 1000) false
                alert42 srvEmpty stIdle) as H.
  cbv zeta in H. destruct H as [_ H].
  - right. left. reflexivity.
  - split; [reflexivity|]. right. split; [discriminate|reflexivity].
  - split; vm_compute; [reflexivity|discriminate].
  - reflexivity.
  - exact H.
Defined.

Lemma zero_score_read_as_80_witness :
  snd (updateTouristLocation scorer "s1" (Some here) srvZero)
  = [ToSocket "s1" (SafetyScoreUpdate (scorer (Some lat0) (Some lng0)));
     ToSocket "s1" (SafetyScoreAlert "warning" 80 55 (scorer (Some lat0) (Some lng0)))].
Proof.
  pose proof (zero_score_read_as_80 scorer "s1" here srvZero) as H.
  cbv zeta in H. apply H.
  - reflexivity.
  - reflexivity.
  - split; vm_compute; [reflexivity|discriminate].
Defined.

Lemma periodic_reaches_every_device_witness :
  In (ToSocket "s2" (SafetyScoreUpdate (scorer (Some lat0) (Some lng0))))
     (snd (runPeriodicSafetyScoreUpdate scorer srvTwo)).
Proof.
  pose proof (periodic_reaches_every_device scorer srvTwo "T1" ["s1"; "s2"]
                lat0 lng0) as H.
  cbv zeta in H. destruct H as [H _].
  - reflexivity.
  - vm_compute. left. reflexivity.
  - vm_compute. reflexivity.
  - apply H. right. left. reflexivity.
Defined.

Lemma periodic_skips_unlocated_witness :
  touristLastScores (fst (runPeriodicSafetyScoreUpdate scorer srvTwo)) !! Some "T2"
  = touristLastScores srvTwo !! Some "T2".
Proof.
  pose proof (periodic_skips_unlocated scorer srvTwo "T2") as H.
  cbv zeta in H. destruct H as [H _].
  - intros set Hin. vm_compute in Hin.
    destruct Hin as [Hin | [Hin | []]]; [discriminate|].
    injection Hin as <-. vm_compute. reflexivity.
  - exact H.
Defined.

End ConnectionsExamples.
